(** * kurisu: the reactor core of [event_loop.hpp]

  A shallow embedding of the classes of [src/kurisu/event_loop.hpp]
  ([Channel], [Poller], [TimerQueue], [EventLoop], [EventLoopThreadPool])
  and the properties of the specification that are settled on them.

  Conventions.
  - An [int] is a [Z]; bit masks are handled with [Z.land] and [Z.lor], and
    a C condition [if (x)] on an integer is [truthy x].
  - A pointer is the address it holds, a [Z]; objects reached through
    pointers live in a store (a [gmap] from addresses to objects).
  - A [std::function] slot is an [option]: an empty slot is [None].
  - Log statements have no effect on the state and are left out. *)

From stdpp Require Import gmap list.

Open Scope Z_scope.

(** [Timestamp]: microseconds since the epoch. *)
Abbreviation Timestamp := Z (only parsing).

(** The condition of [if (x)] for an integer [x]. *)
Definition truthy (x : Z) : bool := negb (x =? 0).

(** Event bits of [<sys/epoll.h>]. *)
Definition EPOLLIN : Z := 0x001.
Definition EPOLLPRI : Z := 0x002.
Definition EPOLLOUT : Z := 0x004.
Definition EPOLLERR : Z := 0x008.
Definition EPOLLHUP : Z := 0x010.
Definition EPOLLRDHUP : Z := 0x2000.

(** Operations of [epoll_ctl]. *)
Definition EPOLL_CTL_ADD : Z := 1.
Definition EPOLL_CTL_DEL : Z := 2.
Definition EPOLL_CTL_MOD : Z := 3.

(** * Channel *)

Module Channel.

Section WithWorld.

(** The state user callbacks act on. A callback is a state transformer;
    it runs to completion on the loop thread. *)
Context {W : Type}.

Definition k_NoneEvent : Z := 0.
Definition k_ReadEvent : Z := Z.lor EPOLLIN EPOLLPRI.
Definition k_WriteEvent : Z := EPOLLOUT.

(** The fields of [class Channel]. [m_loop] is the loop the channel was
    given at construction; [m_tie] is the [weak_ptr]: the object it
    observes, if any. *)
Record t : Type := mk {
  m_tied : bool;
  m_runningCallback : bool;
  m_inLoop : bool;
  m_logHup : bool;
  m_fd : Z;
  m_events : Z;
  m_revents : Z;
  m_status : Z;
  m_loop : Z;
  m_tie : option Z;
  m_readCallback : option (Timestamp -> W -> W);
  m_writeCallback : option (W -> W);
  m_closeCallback : option (W -> W);
  m_errorCallback : option (W -> W)
}.

(** [Channel(EventLoop* loop, int fd)] with the default member
    initialisers. *)
Definition new (loop fd : Z) : t :=
  mk false false false true fd 0 0 (-1) loop None None None None None.

Definition set_runningCallback (b : bool) (c : t) : t :=
  mk (m_tied c) b (m_inLoop c) (m_logHup c) (m_fd c) (m_events c)
     (m_revents c) (m_status c) (m_loop c) (m_tie c) (m_readCallback c)
     (m_writeCallback c) (m_closeCallback c) (m_errorCallback c).

Definition set_inLoop (b : bool) (c : t) : t :=
  mk (m_tied c) (m_runningCallback c) b (m_logHup c) (m_fd c) (m_events c)
     (m_revents c) (m_status c) (m_loop c) (m_tie c) (m_readCallback c)
     (m_writeCallback c) (m_closeCallback c) (m_errorCallback c).

Definition set_events (e : Z) (c : t) : t :=
  mk (m_tied c) (m_runningCallback c) (m_inLoop c) (m_logHup c) (m_fd c) e
     (m_revents c) (m_status c) (m_loop c) (m_tie c) (m_readCallback c)
     (m_writeCallback c) (m_closeCallback c) (m_errorCallback c).

Definition SetRevents (revents : Z) (c : t) : t :=
  mk (m_tied c) (m_runningCallback c) (m_inLoop c) (m_logHup c) (m_fd c)
     (m_events c) revents (m_status c) (m_loop c) (m_tie c)
     (m_readCallback c) (m_writeCallback c) (m_closeCallback c)
     (m_errorCallback c).

Definition SetStatus (status : Z) (c : t) : t :=
  mk (m_tied c) (m_runningCallback c) (m_inLoop c) (m_logHup c) (m_fd c)
     (m_events c) (m_revents c) status (m_loop c) (m_tie c)
     (m_readCallback c) (m_writeCallback c) (m_closeCallback c)
     (m_errorCallback c).

Definition SetReadCallback (cb : option (Timestamp -> W -> W)) (c : t) : t :=
  mk (m_tied c) (m_runningCallback c) (m_inLoop c) (m_logHup c) (m_fd c)
     (m_events c) (m_revents c) (m_status c) (m_loop c) (m_tie c) cb
     (m_writeCallback c) (m_closeCallback c) (m_errorCallback c).

Definition SetWriteCallback (cb : option (W -> W)) (c : t) : t :=
  mk (m_tied c) (m_runningCallback c) (m_inLoop c) (m_logHup c) (m_fd c)
     (m_events c) (m_revents c) (m_status c) (m_loop c) (m_tie c)
     (m_readCallback c) cb (m_closeCallback c) (m_errorCallback c).

Definition SetCloseCallback (cb : option (W -> W)) (c : t) : t :=
  mk (m_tied c) (m_runningCallback c) (m_inLoop c) (m_logHup c) (m_fd c)
     (m_events c) (m_revents c) (m_status c) (m_loop c) (m_tie c)
     (m_readCallback c) (m_writeCallback c) cb (m_errorCallback c).

Definition SetErrorCallback (cb : option (W -> W)) (c : t) : t :=
  mk (m_tied c) (m_runningCallback c) (m_inLoop c) (m_logHup c) (m_fd c)
     (m_events c) (m_revents c) (m_status c) (m_loop c) (m_tie c)
     (m_readCallback c) (m_writeCallback c) (m_closeCallback c) cb.

Definition GetEvents (c : t) : Z := m_events c.
Definition GetStatus (c : t) : Z := m_status c.
Definition fd (c : t) : Z := m_fd c.
Definition IsNoneEvent (c : t) : bool := m_events c =? k_NoneEvent.
Definition IsReading (c : t) : bool := truthy (Z.land (m_events c) k_ReadEvent).
Definition IsWriting (c : t) : bool := truthy (Z.land (m_events c) k_WriteEvent).

(** [tie(obj)]: [obj] is the object the [shared_ptr] owns, [None] for an
    empty one. *)
Definition tie (obj : option Z) (c : t) : t :=
  mk true (m_runningCallback c) (m_inLoop c) (m_logHup c) (m_fd c)
     (m_events c) (m_revents c) (m_status c) (m_loop c) obj
     (m_readCallback c) (m_writeCallback c) (m_closeCallback c)
     (m_errorCallback c).

(** [weak_ptr::lock()]: the strong reference, when the object is still
    owned by someone ([alive]). *)
Definition lock (alive : Z -> bool) (wp : option Z) : option Z :=
  match wp with
  | Some o => if alive o then Some o else None
  | None => None
  end.

(** [if (cb) cb();] *)
Definition call (cb : option (W -> W)) (w : W) : W :=
  match cb with
  | Some f => f w
  | None => w
  end.

(** [if (m_readCallback) m_readCallback(timestamp);] *)
Definition call_read (cb : option (Timestamp -> W -> W))
    (timestamp : Timestamp) (w : W) : W :=
  match cb with
  | Some f => f timestamp w
  | None => w
  end.

Definition RunCallbackWithGuard (timestamp : Timestamp) (c : t) (w : W)
    : t * W :=
  let c := set_runningCallback true c in
  let w :=
    if truthy (Z.land (m_revents c) EPOLLHUP)
       && negb (truthy (Z.land (m_revents c) EPOLLIN))
    then call (m_closeCallback c) w else w in
  let w :=
    if truthy (Z.land (m_revents c) EPOLLERR)
    then call (m_errorCallback c) w else w in
  let w :=
    if truthy (Z.land (m_revents c) (Z.lor (Z.lor EPOLLIN EPOLLPRI) EPOLLRDHUP))
    then call_read (m_readCallback c) timestamp w else w in
  let w :=
    if truthy (Z.land (m_revents c) EPOLLOUT)
    then call (m_writeCallback c) w else w in
  (set_runningCallback false c, w).

Definition RunCallback (alive : Z -> bool) (timestamp : Timestamp) (c : t)
    (w : W) : t * W :=
  if m_tied c then
    match lock alive (m_tie c) with
    | Some _ => RunCallbackWithGuard timestamp c w
    | None => (c, w)
    end
  else RunCallbackWithGuard timestamp c w.

(** *** The dispatch of the specification

    The four guarded steps of the specification, in its words: a step
    fires its callback when its guard holds and the slot is set. [R
    contains b] is bit [b] of the mask. *)

Definition contains (R : Z) (bit : Z) : bool := Z.testbit R bit.

Definition bit_IN : Z := 0.
Definition bit_PRI : Z := 1.
Definition bit_OUT : Z := 2.
Definition bit_ERR : Z := 3.
Definition bit_HUP : Z := 4.
Definition bit_RDHUP : Z := 13.

Definition step (guard : bool) (cb : option (W -> W)) (w : W) : W :=
  if guard then match cb with Some f => f w | None => w end else w.

Definition dispatch_spec (R : Z) (T : Timestamp)
    (read : option (Timestamp -> W -> W)) (write close error : option (W -> W))
    (w : W) : W :=
  let w1 := step (contains R bit_HUP && negb (contains R bit_IN)) close w in
  let w2 := step (contains R bit_ERR) error w1 in
  let w3 := step (contains R bit_IN || contains R bit_PRI || contains R bit_RDHUP)
                 (option_map (fun f => f T) read) w2 in
  step (contains R bit_OUT) write w3.

End WithWorld.

Arguments t : clear implicits.

(** *** Callbacks that record their invocation *)

Inductive Fired : Type :=
| FiredRead (timestamp : Timestamp)
| FiredWrite
| FiredClose
| FiredError.

Definition note (e : Fired) (trace : list Fired) : list Fired := trace ++ [e].

(** A channel on [fd] whose four slots hold recording callbacks and whose
  ready mask is [revents]. *)
Definition recording (loop fd revents : Z) : t (list Fired) :=
SetRevents revents
  (SetErrorCallback (Some (note FiredError))
    (SetCloseCallback (Some (note FiredClose))
      (SetWriteCallback (Some (note FiredWrite))
        (SetReadCallback (Some (fun ts => note (FiredRead ts)))
          (new loop fd))))).

End Channel.

(** * Poller *)

Module Poller.

Definition k_New : Z := -1.
Definition k_Added : Z := 1.
Definition k_Deleted : Z := 2.
Definition k_InitEventListSize : Z := 16.

(** One call of [epoll_ctl(m_epollfd, op, fd, &event)], with the two fields
    of [event] that [Poller::update] fills in. *)
Record epoll_call : Type := mk_call {
  ctl_op : Z;
  ctl_fd : Z;
  ctl_events : Z;
  ctl_ptr : Z
}.

(** [m_channels] is the [std::map<int, Channel*>]. [m_epollfd] is seen
    through the calls of [epoll_ctl] issued on it, oldest first. A failing
    [ADD] or [MOD] ends the process in [LOG_SYSFATAL], a failing [DEL] is
    logged: neither changes the fields. *)
Record t : Type := mk {
  m_channels : gmap Z Z;
  m_epollfd : list epoll_call
}.

Definition new : t := mk ∅ [].

(** The kernel's side of [epoll_ctl(m_epollfd, op, fd, &event)].

    [watchable] is what the kernel knows of the descriptors of the process
    while the calls are made: [watchable fd] says that [fd] is open and of
    a kind that epoll can watch (a socket, a pipe, an event-fd, a timer-fd;
    not a regular file, and not the epoll descriptor itself). A channel's
    fd is opened and closed by its owner, not by the channel or the poller.
    No negative number is a descriptor. *)
Definition is_descriptor (watchable : Z -> bool) (fd : Z) : bool :=
  (0 <=? fd) && watchable fd.

(** The interest list of the epoll instance that a call of [epoll_ctl]
    leaves, by fd: the mask and the pointer registered for it. The call
    fails ([None])
    - on an fd that is not an open descriptor that epoll can watch
      ([EBADF], [EPERM], [EINVAL]);
    - for an [ADD] of an fd that is in the list ([EEXIST]);
    - for a [MOD] or a [DEL] of an fd that is not ([ENOENT]);
    - for any other operation ([EINVAL]).
    A failure for want of memory or of watches ([ENOMEM], [ENOSPC]) is not
    modelled. *)
Definition epoll_ctl (watchable : Z -> bool) (call : epoll_call)
    (interest : gmap Z (Z * Z)) : option (gmap Z (Z * Z)) :=
  let fd := ctl_fd call in
  let entry := (ctl_events call, ctl_ptr call) in
  if negb (is_descriptor watchable fd) then None
  else if ctl_op call =? EPOLL_CTL_ADD then
    match interest !! fd with
    | Some _ => None
    | None => Some (<[fd := entry]> interest)
    end
  else if ctl_op call =? EPOLL_CTL_MOD then
    match interest !! fd with
    | Some _ => Some (<[fd := entry]> interest)
    | None => None
    end
  else if ctl_op call =? EPOLL_CTL_DEL then
    match interest !! fd with
    | Some _ => Some (delete fd interest)
    | None => None
    end
  else None.

(** The interest list after the calls issued on [m_epollfd]; [None] when
    one of them failed. *)
Definition interest_list (watchable : Z -> bool) (calls : list epoll_call)
    : option (gmap Z (Z * Z)) :=
  fold_left (fun interest call => interest ≫= epoll_ctl watchable call)
    calls (Some ∅).

(** [epoll_event]: the ready mask and [data.ptr]. *)
Record epoll_event : Type := mk_event {
  ev_events : Z;
  ev_ptr : Z
}.

(** What a call of [epoll_wait] did: the value it returned, and the
    elements it wrote at the start of the array it was given. *)
Record Waited : Type := mkWaited {
  numEvents : Z;
  written : list epoll_event
}.

Section WithWorld.

Context {W : Type}.

(** [channel] is the pointer, [c] the [Channel] it points to. *)
Definition update (operation : Z) (channel : Z) (c : Channel.t W) (p : t) : t :=
  mk (m_channels p)
     (m_epollfd p ++
      [mk_call operation (Channel.fd c) (Channel.GetEvents c) channel]).

Definition UpdateChannel (channel : Z) (c : Channel.t W) (p : t)
    : t * Channel.t W :=
  let status := Channel.GetStatus c in
  if (status =? k_New) || (status =? k_Deleted) then
    let fd := Channel.fd c in
    let p :=
      if status =? k_New
      then mk (<[fd := channel]> (m_channels p)) (m_epollfd p)
      else p in
    let c := Channel.SetStatus k_Added c in
    (update EPOLL_CTL_ADD channel c p, c)
  else if Channel.IsNoneEvent c then
    let p := update EPOLL_CTL_DEL channel c p in
    (p, Channel.SetStatus k_Deleted c)
  else
    (update EPOLL_CTL_MOD channel c p, c).

Definition HasChannel (channel : Z) (c : Channel.t W) (p : t) : bool :=
  match m_channels p !! Channel.fd c with
  | Some found => found =? channel
  | None => false
  end.

Definition RemoveChannel (channel : Z) (c : Channel.t W) (p : t)
    : t * Channel.t W :=
  let fd := Channel.fd c in
  let status := Channel.GetStatus c in
  let p := mk (delete fd (m_channels p)) (m_epollfd p) in
  let p := if status =? k_Added then update EPOLL_CTL_DEL channel c p else p in
  (p, Channel.SetStatus k_New c).

(** [poll] and [CollectActiveChannels] work on the vector [m_events], given
    here as the list of its elements, and on the channels the elements
    point to, [channels], by address. *)

(** The loop of [CollectActiveChannels] from index [i], with [n] turns to
    go. [None]: the behaviour is undefined (an element beyond the vector,
    or a pointer to no live channel, is read). *)
Fixpoint collect (n i : nat) (m_events : list epoll_event)
    (activeChannels : list Z) (channels : gmap Z (Channel.t W))
    : option (list Z * gmap Z (Channel.t W)) :=
  match n with
  | O => Some (activeChannels, channels)
  | S n' =>
      event ← m_events !! i;
      c ← channels !! ev_ptr event;
      collect n' (S i) m_events (activeChannels ++ [ev_ptr event])
        (<[ev_ptr event := Channel.SetRevents (ev_events event) c]> channels)
  end.

Definition CollectActiveChannels (eventsNum : Z) (m_events : list epoll_event)
    (activeChannels : list Z) (channels : gmap Z (Channel.t W))
    : option (list Z * gmap Z (Channel.t W)) :=
  collect (Z.to_nat eventsNum) 0 m_events activeChannels channels.

(** [poll]: [waited] is what [epoll_wait] did, [now] the [Timestamp]
    constructed after it returned. The result is the timestamp, the vector
    [m_events], the list [*activeChannels] and the channels. *)
Definition poll (waited : Waited) (now : Timestamp)
    (m_events : list epoll_event) (activeChannels : list Z)
    (channels : gmap Z (Channel.t W))
    : option (Timestamp * list epoll_event * list Z * gmap Z (Channel.t W)) :=
  let m_events := written waited ++ drop (length (written waited)) m_events in
  if 0 <? numEvents waited then
    '(activeChannels, channels) ←
      CollectActiveChannels (numEvents waited) m_events activeChannels channels;
    let m_events :=
      if numEvents waited =? Z.of_nat (length m_events)
      then m_events ++ replicate (length m_events) (mk_event 0 0)
      else m_events in
    Some (now, m_events, activeChannels, channels)
  else Some (now, m_events, activeChannels, channels).

(** The vector as [Poller(loop)] constructs it. *)
Definition new_events : list epoll_event :=
  replicate (Z.to_nat k_InitEventListSize) (mk_event 0 0).

End WithWorld.

End Poller.

(** * A loop's channels

    [Channel::update], [Channel::remove] and the five registration
    operations reach the poller through [EventLoop::UpdateChannel] and
    [EventLoop::RemoveChannel], which hand the pointer on when called on
    the loop thread. [Reactor] is a loop's poller together with the
    [Channel] objects of that loop, by address. *)

Module Registration.

Section WithWorld.

Context {W : Type}.

Definition update (channel : Z) (c : Channel.t W) (p : Poller.t)
    : Poller.t * Channel.t W :=
  Poller.UpdateChannel channel (Channel.set_inLoop true c) p.

Definition remove (channel : Z) (c : Channel.t W) (p : Poller.t)
    : Poller.t * Channel.t W :=
  Poller.RemoveChannel channel (Channel.set_inLoop false c) p.

Definition OnReading (channel : Z) (c : Channel.t W) (p : Poller.t) :=
  update channel
    (Channel.set_events (Z.lor (Channel.m_events c) Channel.k_ReadEvent) c) p.

Definition OffReading (channel : Z) (c : Channel.t W) (p : Poller.t) :=
  update channel
    (Channel.set_events
       (Z.land (Channel.m_events c) (Z.lnot Channel.k_ReadEvent)) c) p.

Definition OnWriting (channel : Z) (c : Channel.t W) (p : Poller.t) :=
  update channel
    (Channel.set_events (Z.lor (Channel.m_events c) Channel.k_WriteEvent) c) p.

Definition OffWriting (channel : Z) (c : Channel.t W) (p : Poller.t) :=
  update channel
    (Channel.set_events
       (Z.land (Channel.m_events c) (Z.lnot Channel.k_WriteEvent)) c) p.

Definition OffAll (channel : Z) (c : Channel.t W) (p : Poller.t) :=
  update channel (Channel.set_events Channel.k_NoneEvent c) p.

Record Reactor : Type := mkReactor {
  poller : Poller.t;
  channels : gmap Z (Channel.t W)
}.

(** The operations a channel's owner performs on it. *)
Inductive Op : Type :=
| DoOnReading (channel : Z)
| DoOffReading (channel : Z)
| DoOnWriting (channel : Z)
| DoOffWriting (channel : Z)
| DoOffAll (channel : Z)
| DoRemove (channel : Z).

Definition target (o : Op) : Z :=
  match o with
  | DoOnReading c | DoOffReading c | DoOnWriting c | DoOffWriting c
  | DoOffAll c | DoRemove c => c
  end.

Definition method (o : Op)
    : Z -> Channel.t W -> Poller.t -> Poller.t * Channel.t W :=
  match o with
  | DoOnReading _ => OnReading
  | DoOffReading _ => OffReading
  | DoOnWriting _ => OnWriting
  | DoOffWriting _ => OffWriting
  | DoOffAll _ => OffAll
  | DoRemove _ => remove
  end.

(** The method is called on the object at the address; an address that
    holds no channel has no method to call. *)
Definition perform (o : Op) (r : Reactor) : Reactor :=
  match channels r !! target o with
  | Some c =>
      let '(p, c') := method o (target o) c (poller r) in
      mkReactor p (<[target o := c']> (channels r))
  | None => r
  end.

Definition perform_all (ops : list Op) (r : Reactor) : Reactor :=
  fold_left (fun r o => perform o r) ops r.

(** A loop whose poller is new and whose channels were just constructed. *)
Definition fresh (cs : gmap Z (Channel.t W)) : Prop :=
  ∀ channel c, cs !! channel = Some c -> Channel.m_status c = Poller.k_New.

(** "Two Channels on the same fd are not allowed concurrently": the
    operation's channel finds its fd free in the table, or held by itself. *)
Definition fd_is_own (o : Op) (r : Reactor) : bool :=
  match channels r !! target o with
  | Some c =>
      match Poller.m_channels (poller r) !! Channel.fd c with
      | Some found => found =? target o
      | None => true
      end
  | None => true
  end.

Fixpoint exclusive (ops : list Op) (r : Reactor) : bool :=
  match ops with
  | [] => true
  | o :: ops' => fd_is_own o r && exclusive ops' (perform o r)
  end.

(** What the proof of the table invariant carries along. *)
Definition table_matches (r : Reactor) : Prop :=
  ∀ channel c, channels r !! channel = Some c ->
    (Channel.m_status c = Poller.k_New
     ∨ Channel.m_status c = Poller.k_Added
     ∨ Channel.m_status c = Poller.k_Deleted)
    ∧ (Poller.m_channels (poller r) !! Channel.fd c = Some channel
       <-> Channel.m_status c <> Poller.k_New).

(** The interest list holds the channels in state Added, and no other:
    each under its fd, with its interest and its own address. *)
Definition holds_added (r : Reactor) (interest : gmap Z (Z * Z)) : Prop :=
  ∀ fd events channel,
    interest !! fd = Some (events, channel)
    <-> ∃ c, channels r !! channel = Some c
             ∧ Channel.m_fd c = fd
             ∧ Channel.m_status c = Poller.k_Added
             ∧ Channel.m_events c = events.

(** The epoll instance is in step with the channels: no call issued on it
    failed, and its interest list holds the channels in state Added. *)
Definition in_step (watchable : Z -> bool) (r : Reactor) : Prop :=
  ∃ interest,
    Poller.interest_list watchable (Poller.m_epollfd (poller r))
    = Some interest
    ∧ holds_added r interest.

(** Every channel is on a descriptor that epoll can watch. *)
Definition on_descriptors (watchable : Z -> bool)
    (cs : gmap Z (Channel.t W)) : Prop :=
  ∀ channel c, cs !! channel = Some c ->
    Poller.is_descriptor watchable (Channel.m_fd c) = true.

End WithWorld.

Arguments Reactor : clear implicits.

End Registration.

(** * TimerQueue *)

Module TimerQueue.

Definition UINTPTR_MAX : Z := 2 ^ 64 - 1.

(** An address that [new Timer] can return: not null, and below the last
    address. *)
Definition valid_address (p : Z) : bool := (0 <? p) && (p <? UINTPTR_MAX).

(** What a timer callback does to the timer queue of its loop: calls of
    the two public entry points, [TimerQueue::add] (through [runAt],
    [runAfter], [runEvery]) and [TimerQueue::cancel]. [timer] is the
    address [new Timer] returns in that call of [add]. *)
#[local] Unset Elimination Schemes.
Inductive Action : Type :=
| DoCancel (id : Z)
| DoAdd (timer : Z) (callback : list Action) (when : Timestamp) (interval : Z).
#[local] Set Elimination Schemes.

(** Modelled from the spec: class [Timer] of [detail/timer.hpp] is not
    among the sources. A timer has a callback, an absolute expiry, and an
    interval (here in microseconds; 0 for a one-shot timer); the repeat flag
    is [interval > 0]; [restart] advances the expiry by one interval. *)
Record Timer : Type := mkTimer {
  m_callback : list Action;
  m_runtime : Timestamp;
  m_interval : Z
}.

Definition GetRuntime (tm : Timer) : Timestamp := m_runtime tm.
Definition IsRepeat (tm : Timer) : bool := 0 <? m_interval tm.
Definition restart (tm : Timer) : Timer :=
  mkTimer (m_callback tm) (m_runtime tm + m_interval tm) (m_interval tm).

(** [Key = std::pair<Timestamp, Timer*>] with the order of [std::pair]. *)
Abbreviation Key := (Z * Z)%type (only parsing).

Definition key_ltb (a b : Key) : bool :=
  (a.1 <? b.1) || ((a.1 =? b.1) && (a.2 <? b.2)).

Definition key_eqb (a b : Key) : bool := (a.1 =? b.1) && (a.2 =? b.2).

(** [TimerMap = std::map<Key, std::unique_ptr<Timer>>]: the entries in key
    order. The [unique_ptr] of an entry is the address it owns, 0 when it
    is null. *)
Abbreviation TimerMap := (list (Z * Z * Z)) (only parsing).

(** [delete p]: nothing for a null pointer. *)
Definition destroy (p : Z) (objs : gmap Z Timer) : gmap Z Timer :=
  if p =? 0 then objs else delete p objs.

(** [m.find(k)]: the pointer of the entry found. *)
Fixpoint find (k : Key) (m : TimerMap) : option Z :=
  match m with
  | [] => None
  | (k', owned) :: m' => if key_eqb k' k then Some owned else find k m'
  end.

(** [m[k] = std::move(ptr)]: the new map, and the pointer the entry owned
    before, which the assignment destroys (0 for a new entry). *)
Fixpoint assign (k : Key) (ptr : Z) (m : TimerMap) : TimerMap * Z :=
  match m with
  | [] => ([(k, ptr)], 0)
  | (k', owned) :: m' =>
      if key_ltb k k' then ((k, ptr) :: m, 0)
      else if key_ltb k' k then
        let '(m'', old) := assign k ptr m' in ((k', owned) :: m'', old)
      else ((k, ptr) :: m', owned)
  end.

(** [m.erase(k)]: the new map, and the pointer the erased entry owned. *)
Fixpoint erase (k : Key) (m : TimerMap) : TimerMap * Z :=
  match m with
  | [] => ([], 0)
  | (k', owned) :: m' =>
      if key_eqb k' k then (m', owned)
      else let '(m'', old) := erase k m' in ((k', owned) :: m'', old)
  end.

(** The entry at [k] after its pointer was moved from. *)
Fixpoint release (k : Key) (m : TimerMap) : TimerMap :=
  match m with
  | [] => []
  | (k', owned) :: m' =>
      if key_eqb k' k then (k', 0) :: m' else (k', owned) :: release k m'
  end.

(** The entries before [m.lower_bound(bound)], and those from it on. *)
Fixpoint lower_bound (bound : Key) (m : TimerMap) : TimerMap * TimerMap :=
  match m with
  | [] => ([], [])
  | (k, owned) :: m' =>
      if key_ltb k bound then
        let '(before, rest) := lower_bound bound m' in
        ((k, owned) :: before, rest)
      else ([], m)
  end.

(** The fields of [class TimerQueue]; [m_timerfd] is seen through the
    calls of [detail::ResetTimerfd] made on it, each with the expiry asked
    for and the value returned, oldest first. With them:
    - [objects]: the [Timer] objects alive, by address;
    - [settime]: what the coming calls of [detail::ResetTimerfd] return,
      in order (see [ResetTimerfd]);
    - [invoked]: the timers whose callback was invoked, oldest first. *)
Record t : Type := mk {
  runningCallback : bool;
  m_timerfd : list (Z * Z);
  m_cancelledSoon : list Z;
  m_timers : TimerMap;
  objects : gmap Z Timer;
  settime : list Z;
  invoked : list Z
}.

Definition set_runningCallback (b : bool) (q : t) : t :=
  mk b (m_timerfd q) (m_cancelledSoon q) (m_timers q) (objects q) (settime q)
     (invoked q).

Definition set_cancelledSoon (ids : list Z) (q : t) : t :=
  mk (runningCallback q) (m_timerfd q) ids (m_timers q) (objects q)
     (settime q) (invoked q).

Definition set_timers (m : TimerMap) (objs : gmap Z Timer) (q : t) : t :=
  mk (runningCallback q) (m_timerfd q) (m_cancelledSoon q) m objs (settime q)
     (invoked q).

(** The timer-fd after a call of [ResetTimerfd] for [runtime] that returned
    [r], the answers left being [results]. *)
Definition set_timerfd (runtime : Timestamp) (r : Z) (results : list Z)
    (q : t) : t :=
  mk (runningCallback q) (m_timerfd q ++ [(runtime, r)]) (m_cancelledSoon q)
     (m_timers q) (objects q) results (invoked q).

Definition set_invoked (ptrs : list Z) (q : t) : t :=
  mk (runningCallback q) (m_timerfd q) (m_cancelledSoon q) (m_timers q)
     (objects q) (settime q) ptrs.

(** Modelled from the spec: class [TimerID] of [detail/timer.hpp] is not
    among the sources. A [TimerID] is built from the [Timer*] alone and is
    the timer's identity; [Key()] is the key the queue holds the timer
    under: its expiry and its address. Reading a timer that is not alive is
    undefined ([None]). *)
Definition TimerID_Key (id : Z) (q : t) : option Key :=
  tm ← objects q !! id; Some (GetRuntime tm, id).

(** Modelled from the spec: [detail::ResetTimerfd] is not among the
    sources. It arms the timer-fd for [runtime] and returns 0 when the
    kernel accepts; what it returns is the kernel's answer, given here by
    [settime], and 0 once [settime] is used up. The specification has the
    kernel refuse an expiry that is already in the past; the theorems that
    depend on it say so of the calls made. *)
Definition ResetTimerfd (runtime : Timestamp) (q : t) : Z * t :=
  match settime q with
  | [] => (0, set_timerfd runtime 0 [] q)
  | r :: results => (r, set_timerfd runtime r results q)
  end.

(** [None]: the behaviour is undefined (a pointer to no live timer is
    read). *)
Definition insert (timer : Z) (q : t) : option (bool * t) :=
  tm ← objects q !! timer;
  let when := GetRuntime tm in
  let earliestChanged :=
    match m_timers q with
    | [] => true
    | (first, _) :: _ => when <? first.1
    end in
  let '(m, old) := assign (when, timer) timer (m_timers q) in
  Some (earliestChanged, set_timers m (destroy old (objects q)) q).

Definition AddInLoop (timer : Z) (q : t) : option t :=
  '(earliestChanged, q) ← insert timer q;
  if earliestChanged : bool then
    tm ← objects q !! timer; Some (ResetTimerfd (GetRuntime tm) q).2
  else Some q.

(** [add] called on the loop thread, where [EventLoop::run] invokes
    [AddInLoop] at once. [timer] is the address of the new [Timer]: an
    address in use is not returned by [new] ([None]). The [TimerID]
    returned is [timer]. *)
Definition add (timer : Z) (callback : list Action) (when : Timestamp)
    (interval : Z) (q : t) : option t :=
  if valid_address timer then
    match objects q !! timer with
    | Some _ => None
    | None =>
        AddInLoop timer
          (set_timers (m_timers q)
             (<[timer := mkTimer callback when interval]> (objects q)) q)
    end
  else None.

Definition CancelInLoop (id : Z) (q : t) : option t :=
  key ← TimerID_Key id q;
  match find key (m_timers q) with
  | Some owned =>
      if negb (runningCallback q) then
        let '(m, old) := erase key (m_timers q) in
        Some (set_timers m (destroy old (objects q)) q)
      else Some (set_cancelledSoon (m_cancelledSoon q ++ [owned]) q)
  | None => Some q
  end.

(** [cancel] called on the loop thread. *)
Definition cancel (id : Z) (q : t) : option t := CancelInLoop id q.

Definition perform (a : Action) (q : t) : option t :=
  match a with
  | DoCancel id => cancel id q
  | DoAdd timer callback when interval => add timer callback when interval q
  end.

Fixpoint perform_all (callback : list Action) (q : t) : option t :=
  match callback with
  | [] => Some q
  | a :: callback' => q ← perform a q; perform_all callback' q
  end.

(** [item->run()] *)
Definition Timer_run (item : Z) (q : t) : option t :=
  tm ← objects q !! item;
  perform_all (m_callback tm) (set_invoked (invoked q ++ [item]) q).

(** [for (auto&& item : timeout) item->run();] *)
Fixpoint run_each (timeout : list Z) (q : t) : option t :=
  match timeout with
  | [] => Some q
  | item :: timeout' => q ← Timer_run item q; run_each timeout' q
  end.

Definition GetTimeout (now : Timestamp) (q : t) : list Z * t :=
  let '(before, rest) := lower_bound (now, UINTPTR_MAX) (m_timers q) in
  (before.*2, set_timers rest (objects q) q).

(** The first loop of [reset]; the result carries [timeout] with the
    pointers that were moved into the map set to null. *)
Fixpoint reset_repeating (timeout : list Z) (q : t) : option (list Z * t) :=
  match timeout with
  | [] => Some ([], q)
  | item :: timeout' =>
      tm ← objects q !! item;
      let '(item', q) :=
        if IsRepeat tm then
          let tm := restart tm in
          let objs := <[item := tm]> (objects q) in
          let '(m, old) := assign (GetRuntime tm, item) item (m_timers q) in
          (0, set_timers m (destroy old objs) q)
        else (item, q) in
      '(timeout'', q) ← reset_repeating timeout' q;
      Some (item' :: timeout'', q)
  end.

(** The second loop of [reset]. *)
Fixpoint reset_cancelled (ids : list Z) (q : t) : option t :=
  match ids with
  | [] => Some q
  | it :: ids' =>
      key ← TimerID_Key it q;
      let '(m, old) := erase key (m_timers q) in
      reset_cancelled ids' (set_timers m (destroy old (objects q)) q)
  end.

(** The last loop of [reset]. Each turn calls [ResetTimerfd]; [results]
    is [settime] at that point, what the calls return in order, and 0 after
    them. *)
Fixpoint reset_timerfd (results : list Z) (q : t) : option t :=
  match m_timers q with
  | [] => Some q
  | (k, owned) :: _ =>
      tm ← objects q !! owned;
      match results with
      | [] => Some (set_timerfd (GetRuntime tm) 0 [] q)
      | r :: results' =>
          let q := set_timerfd (GetRuntime tm) r results' q in
          if r =? 0 then Some q
          else
            let '(m, objs) :=
              if IsRepeat tm then
                let tm := restart tm in
                let objs := <[owned := tm]> (objects q) in
                let k' := (GetRuntime tm, owned) in
                if key_eqb k' k then (m_timers q, objs)
                else
                  let '(m, old) := assign k' owned (m_timers q) in
                  (release k m, destroy old objs)
              else (m_timers q, objects q) in
            match m with
            | [] => None
            | (_, first) :: m' =>
                reset_timerfd results' (set_timers m' (destroy first objs) q)
            end
      end
  end.

Definition reset (timeout : list Z) (q : t) : option (list Z * t) :=
  '(timeout, q) ← reset_repeating timeout q;
  q ← reset_cancelled (m_cancelledSoon q) q;
  let q := set_cancelledSoon [] q in
  q ← reset_timerfd (settime q) q;
  Some (timeout, q).

(** [now] is the time read on entry; [ReadTimerfd] only drains the
    descriptor. When the function returns, the [timeout] vector destroys
    the timers it still owns. *)
Definition HandleTimerfd (now : Timestamp) (q : t) : option t :=
  let '(timeout, q) := GetTimeout now q in
  let q := set_runningCallback true q in
  q ← run_each timeout q;
  let q := set_runningCallback false q in
  '(timeout, q) ← reset timeout q;
  Some (set_timers (m_timers q) (foldr destroy (objects q) timeout) q).

(** *** Well-formed queues

    The map is in strict key order, and each entry is held under the
    expiry and the address of the live timer it owns. *)

Fixpoint sorted (m : TimerMap) : bool :=
  match m with
  | [] => true
  | (k, _) :: m' =>
      match m' with
      | [] => true
      | (k', _) :: _ => key_ltb k k' && sorted m'
      end
  end.

(** [k] is before the first key of [m]. *)
Definition before_first (k : Key) (m : TimerMap) : Prop :=
  match m with
  | [] => True
  | (k', _) :: _ => key_ltb k k' = true
  end.

Definition owns (objs : gmap Z Timer) (entry : Key * Z) : bool :=
  (entry.2 =? entry.1.2) && valid_address entry.2 &&
  match objs !! entry.2 with
  | Some tm => GetRuntime tm =? entry.1.1
  | None => false
  end.

Definition well_formed (q : t) : bool :=
  sorted (m_timers q) && forallb (owns (objects q)) (m_timers q).

(** *** The timers left after the expiry handler

    [q0] is the queue before the handler ran at time [now]. A timer held
    under expiry [e] and address [p] afterwards is accounted for when
    - its expiry is after [now], or
    - it is a repeating timer that [q0] held with an expiry up to [now]
      ([rearmed]): it fired, and its expiry was advanced by [k] intervals,
      [k] from 1 to [n], or
    - [q0] had no timer at [p] ([added]): the timer was created by a
      callback during the run. *)

Definition rearmed (q0 : t) (now : Timestamp) (n : Z) (key : Key) : Prop :=
  ∃ tm0 k,
    objects q0 !! key.2 = Some tm0
    ∧ ((m_runtime tm0, key.2), key.2) ∈ m_timers q0
    ∧ m_runtime tm0 <= now
    ∧ IsRepeat tm0 = true
    ∧ 1 <= k <= n
    ∧ key.1 = m_runtime tm0 + k * m_interval tm0.

Definition added (q0 : t) (key : Key) : Prop := objects q0 !! key.2 = None.



(** The calls of [ResetTimerfd] made from state [q] to state [q']. *)
Definition calls_since (q q' : t) : list (Z * Z) :=
  drop (length (m_timerfd q)) (m_timerfd q').


(** From [q] to [q'] the map stays in key order, and the calls on the
    timer-fd are added to. *)
Definition follows (q q' : t) : Prop :=
  (sorted (m_timers q) = true -> sorted (m_timers q') = true)
  ∧ m_timerfd q `prefix_of` m_timerfd q'.

(** The addresses in the keys of a map. *)
Definition key_ptrs (m : TimerMap) : list Z := (fun entry => entry.1.2) <$> m.

(** What the proof carries through the handler for an entry: it owns the
    live timer it is keyed by, and it is accounted for, the timer's
    interval being the one it had in [q0]. *)
Definition entry_ok (q0 : t) (now : Timestamp) (n : Z) (objs : gmap Z Timer)
    (entry : Key * Z) : Prop :=
  entry.2 = entry.1.2
  ∧ valid_address entry.2 = true
  ∧ ∃ tm,
      objs !! entry.2 = Some tm
      ∧ m_runtime tm = entry.1.1
      ∧ (now < entry.1.1
         ∨ (rearmed q0 now n entry.1
            ∧ ∀ tm0, objects q0 !! entry.2 = Some tm0 ->
                     m_interval tm = m_interval tm0)
         ∨ added q0 entry.1).

Definition ok (q0 : t) (now : Timestamp) (n : Z) (m : TimerMap)
    (objs : gmap Z Timer) : Prop :=
  NoDup (key_ptrs m) ∧ Forall (entry_ok q0 now n objs) m.

Definition map_ok (q0 : t) (now : Timestamp) (n : Z) (q : t) : Prop :=
  ok q0 now n (m_timers q) (objects q).

(** A timer taken out by [GetTimeout] and not yet handled by [reset]: the
    object is as it was in [q0], where the queue held it with an expiry up
    to [now]. *)
Definition pending (q0 : t) (now : Timestamp) (objs : gmap Z Timer) (p : Z)
    : Prop :=
  valid_address p = true
  ∧ ∃ tm0,
      objects q0 !! p = Some tm0
      ∧ objs !! p = Some tm0
      ∧ ((m_runtime tm0, p), p) ∈ m_timers q0
      ∧ m_runtime tm0 <= now.

Definition timeout_ok (q0 : t) (now : Timestamp) (timeout : list Z) (q : t)
    : Prop :=
  Forall (pending q0 now (objects q)) timeout
  ∧ Forall (fun p => p ∉ key_ptrs (m_timers q)) timeout.

(** No address is free now that was taken in [q0]. *)
Definition covers (q0 : t) (objs : gmap Z Timer) : Prop :=
  ∀ p, objs !! p = None -> objects q0 !! p = None.

(** What holds while the callbacks of [timeout] run. *)
Definition callbacks_inv (q0 : t) (now : Timestamp) (timeout : list Z) (q : t)
    : Prop :=
  runningCallback q = true
  ∧ covers q0 (objects q)
  ∧ (length (settime q) <= length (settime q0))%nat
  ∧ map_ok q0 now 0 q
  ∧ timeout_ok q0 now timeout q.

(** *** The queue over its life

    [TimerQueue(loop)] leaves the queue empty; [results] is what the kernel
    will answer to the calls of [ResetTimerfd]. *)
Definition new (results : list Z) : t := mk false [] [] [] ∅ results [].

(** [EventLoop::runAt] hands the callback and the time to [add] with the
    interval 0.0. *)
Definition runAt (timer : Z) (callback : list Action) (time : Timestamp)
    (q : t) : option t :=
  add timer callback time 0 q.

(** What the loop thread does with the queue between two polls: a call of
    [add] or [cancel] made outside the timer callbacks, or the expiry
    handler run at time [now]. *)
Inductive Call : Type :=
| CallAdd (timer : Z) (callback : list Action) (when : Timestamp) (interval : Z)
| CallCancel (id : Z)
| CallHandleTimerfd (now : Timestamp).

Definition serve (c : Call) (q : t) : option t :=
  match c with
  | CallAdd timer callback when interval => add timer callback when interval q
  | CallCancel id => cancel id q
  | CallHandleTimerfd now => HandleTimerfd now q
  end.

Fixpoint serve_all (cs : list Call) (q : t) : option t :=
  match cs with
  | [] => Some q
  | c :: cs' => q ← serve c q; serve_all cs' q
  end.

(** The expiry the timer-fd was last asked for is not after the first
    expiry of the map. *)
Definition asked_in_time (q : t) : Prop :=
  match m_timers q with
  | [] => True
  | (k, _) :: _ =>
      ∃ runtime r, last (m_timerfd q) = Some (runtime, r) ∧ runtime <= k.1
  end.

(** The queue between two polls: no callback is running, no cancel is
    pending, the map is well formed and the timer-fd was asked in time. *)
Definition at_rest (q : t) : Prop :=
  runningCallback q = false
  ∧ m_cancelledSoon q = []
  ∧ well_formed q = true
  ∧ asked_in_time q.

(** A queue that holds no timer object: every timer of a later queue was
    added since. *)
Definition nothing : t := mk false [] [] [] ∅ [] [].

(** What [reset] leaves in the [timeout] vector: a null pointer, or a timer
    that the map does not hold. *)
Definition spent (m : TimerMap) (p : Z) : Prop := p = 0 ∨ p ∉ key_ptrs m.

End TimerQueue.

(** * EventLoop *)

Module EventLoop.

Section WithTasks.

(** [Task] is a [std::function<void()>] handed to the loop. *)
Context {Task : Type}.

(** The fields of [class EventLoop]. [m_wakeUpfd] is seen through the
    counter of the eventfd. The poller, the timer queue and the wake-up
    channel are reached through [poll] and [RunCallback] below. *)
Record t : Type := mk {
  m_looping : bool;
  m_runningCallback : bool;
  m_runningExtraFunc : bool;
  m_quit : bool;
  m_wakeUpfd : Z;
  m_threadID : Z;
  m_thisActiveChannel : Z;
  m_loopNum : Z;
  m_returnTime : Timestamp;
  m_activeChannels : list Z;
  m_ExtraFuncs : list Task
}.

Definition set_looping (b : bool) (l : t) : t :=
  mk b (m_runningCallback l) (m_runningExtraFunc l) (m_quit l) (m_wakeUpfd l)
     (m_threadID l) (m_thisActiveChannel l) (m_loopNum l) (m_returnTime l)
     (m_activeChannels l) (m_ExtraFuncs l).

Definition set_runningCallback (b : bool) (l : t) : t :=
  mk (m_looping l) b (m_runningExtraFunc l) (m_quit l) (m_wakeUpfd l)
     (m_threadID l) (m_thisActiveChannel l) (m_loopNum l) (m_returnTime l)
     (m_activeChannels l) (m_ExtraFuncs l).

Definition set_runningExtraFunc (b : bool) (l : t) : t :=
  mk (m_looping l) (m_runningCallback l) b (m_quit l) (m_wakeUpfd l)
     (m_threadID l) (m_thisActiveChannel l) (m_loopNum l) (m_returnTime l)
     (m_activeChannels l) (m_ExtraFuncs l).

Definition set_quit (b : bool) (l : t) : t :=
  mk (m_looping l) (m_runningCallback l) (m_runningExtraFunc l) b
     (m_wakeUpfd l) (m_threadID l) (m_thisActiveChannel l) (m_loopNum l)
     (m_returnTime l) (m_activeChannels l) (m_ExtraFuncs l).

Definition set_wakeUpfd (n : Z) (l : t) : t :=
  mk (m_looping l) (m_runningCallback l) (m_runningExtraFunc l) (m_quit l) n
     (m_threadID l) (m_thisActiveChannel l) (m_loopNum l) (m_returnTime l)
     (m_activeChannels l) (m_ExtraFuncs l).

Definition set_thisActiveChannel (c : Z) (l : t) : t :=
  mk (m_looping l) (m_runningCallback l) (m_runningExtraFunc l) (m_quit l)
     (m_wakeUpfd l) (m_threadID l) c (m_loopNum l) (m_returnTime l)
     (m_activeChannels l) (m_ExtraFuncs l).

Definition set_loopNum (n : Z) (l : t) : t :=
  mk (m_looping l) (m_runningCallback l) (m_runningExtraFunc l) (m_quit l)
     (m_wakeUpfd l) (m_threadID l) (m_thisActiveChannel l) n (m_returnTime l)
     (m_activeChannels l) (m_ExtraFuncs l).

Definition set_returnTime (ts : Timestamp) (l : t) : t :=
  mk (m_looping l) (m_runningCallback l) (m_runningExtraFunc l) (m_quit l)
     (m_wakeUpfd l) (m_threadID l) (m_thisActiveChannel l) (m_loopNum l) ts
     (m_activeChannels l) (m_ExtraFuncs l).

Definition set_activeChannels (cs : list Z) (l : t) : t :=
  mk (m_looping l) (m_runningCallback l) (m_runningExtraFunc l) (m_quit l)
     (m_wakeUpfd l) (m_threadID l) (m_thisActiveChannel l) (m_loopNum l)
     (m_returnTime l) cs (m_ExtraFuncs l).

Definition set_ExtraFuncs (fs : list Task) (l : t) : t :=
  mk (m_looping l) (m_runningCallback l) (m_runningExtraFunc l) (m_quit l)
     (m_wakeUpfd l) (m_threadID l) (m_thisActiveChannel l) (m_loopNum l)
     (m_returnTime l) (m_activeChannels l) fs.

(** What invoking a task on the loop thread does to the loop, and what
    [Channel::RunCallback] of a ready channel does to it. *)
Context (invoke : Task -> t -> t).
Context (RunCallback : Z -> Timestamp -> t -> t).

(** [tid] is [this_thrd::tid()], the thread of the caller. *)
Definition InLoopThread (tid : Z) (l : t) : bool := m_threadID l =? tid.

(** [wakeup] writes the 8 bytes of the integer 1 to the eventfd, which
    adds 1 to its counter. *)
Definition wakeup (l : t) : t := set_wakeUpfd (m_wakeUpfd l + 1) l.

Definition AddExtraFunc (tid : Z) (callback : Task) (l : t) : t :=
  let l := set_ExtraFuncs (m_ExtraFuncs l ++ [callback]) l in
  if negb (InLoopThread tid l) || m_runningExtraFunc l then wakeup l else l.

Definition run (tid : Z) (callback : Task) (l : t) : t :=
  if InLoopThread tid l then invoke callback l
  else AddExtraFunc tid callback l.

Definition quit (tid : Z) (l : t) : t :=
  let l := set_quit true l in
  if negb (InLoopThread tid l) then wakeup l else l.

Definition GetExtraFuncsNum (l : t) : Z := Z.of_nat (length (m_ExtraFuncs l)).

Definition RunExtraFunc (l : t) : t :=
  let l := set_runningExtraFunc true l in
  let functors := m_ExtraFuncs l in
  let l := set_ExtraFuncs [] l in
  let l := fold_left (fun l func => invoke func l) functors l in
  set_runningExtraFunc false l.

(** A call of the loop's interface by a thread. *)
Inductive Request : Type :=
| CallQuit (tid : Z)
| CallRun (tid : Z) (callback : Task)
| CallAddExtraFunc (tid : Z) (callback : Task).

Definition serve (r : Request) (l : t) : t :=
  match r with
  | CallQuit tid => quit tid l
  | CallRun tid callback => run tid callback l
  | CallAddExtraFunc tid callback => AddExtraFunc tid callback l
  end.

(** One return of [m_poller->poll]: the timestamp, the channels it
    appended to [m_activeChannels], and the calls other threads made on
    the loop while it was in [poll]. *)
Record PollReturn : Type := mkPoll {
  meanwhile : list Request;
  now : Timestamp;
  active : list Z
}.

Definition k_PollTimeoutMs : Z := 10000.

(** The body of [while (!m_quit)]. *)
Definition iteration (r : PollReturn) (l : t) : t :=
  let l := set_activeChannels [] l in
  let l := fold_left (fun l c => serve c l) (meanwhile r) l in
  let l := set_returnTime (now r)
             (set_activeChannels (m_activeChannels l ++ active r) l) in
  let l := set_loopNum (m_loopNum l + 1) l in
  let l := set_runningCallback true l in
  let l := fold_left (fun l channel => RunCallback channel (m_returnTime l) l)
             (m_activeChannels l) l in
  let l := set_thisActiveChannel 0 l in
  let l := set_runningCallback false l in
  RunExtraFunc l.

(** How a call of [loop] stands after the returns of [poll] it was given:
    it returned, it is in [poll] again, or, called from another thread, it
    ended the process in [AssertInLoopThread]. *)
Inductive Outcome : Type :=
| Aborted
| Returned (l : t)
| InPoll (l : t).

Fixpoint iterate (polls : list PollReturn) (l : t) : Outcome :=
  if m_quit l then Returned (set_looping false l)
  else
    match polls with
    | [] => InPoll l
    | r :: polls' => iterate polls' (iteration r l)
    end.

(** Modelled from the spec: [LOG_FATAL] is not among the sources; a
    violated thread assertion is fatal (log and abort). *)
Definition loop (tid : Z) (polls : list PollReturn) (l : t) : Outcome :=
  if InLoopThread tid l then
    let l := set_looping true l in
    let l := set_quit false l in
    iterate polls l
  else Aborted.

(** The number of loop bodies [iterate] runs on [polls]. *)
Fixpoint iterations (polls : list PollReturn) (l : t) : nat :=
  if m_quit l then O
  else
    match polls with
    | [] => O
    | r :: polls' => S (iterations polls' (iteration r l))
    end.

End WithTasks.

Arguments t : clear implicits.
Arguments Request : clear implicits.
Arguments PollReturn : clear implicits.
Arguments Outcome : clear implicits.

(** Tasks that call back into the loop they run on: [quit], or
    [AddExtraFunc] with a further task; [JobOther] is a task that leaves
    the loop alone. *)
Inductive Job : Type :=
| JobOther
| JobQuit
| JobAddExtraFunc (next : Job).

(** The invocation of a job, on the loop thread. *)
Definition invoke_job (j : Job) (l : t Job) : t Job :=
  match j with
  | JobOther => l
  | JobQuit => quit (m_threadID l) l
  | JobAddExtraFunc next => AddExtraFunc (m_threadID l) next l
  end.

(** The task a job hands to [AddExtraFunc], and whether it calls [quit]. *)
Definition handed_in (j : Job) : option Job :=
  match j with
  | JobAddExtraFunc next => Some next
  | _ => None
  end.

Definition quits (j : Job) : bool :=
  match j with
  | JobQuit => true
  | _ => false
  end.



End EventLoop.

(** * EventLoopThreadPool *)

Module EventLoopThreadPool.

(** The fields of [class EventLoopThreadPool] that [GetNextLoop] and its
    siblings read; [m_loop] and the elements of [m_loops] are addresses of
    [EventLoop]s. *)
Record t : Type := mk {
  m_loop : Z;
  m_started : bool;
  m_thrdNum : Z;
  m_next : Z;
  m_loops : list Z
}.

Definition new (loop : Z) : t := mk loop false 0 0 [].

Definition SetThreadNum (threadNum : Z) (p : t) : t :=
  mk (m_loop p) (m_started p) threadNum (m_next p) (m_loops p).

(** [start], called on the thread of the base loop. [spawn i] is the
    address of the [EventLoop] that the [i]-th thread constructs, which
    [EventLoopThread::start] returns. *)
Definition start (spawn : nat -> Z) (p : t) : t :=
  mk (m_loop p) true (m_thrdNum p) (m_next p)
     (m_loops p ++ (spawn <$> seq 0 (Z.to_nat (m_thrdNum p)))).

(** [in_loop_thread] is [m_loop->InLoopThread()] for the caller. [None]:
    the call ends the process in [AssertInLoopThread], or indexes
    [m_loops] out of range. *)
Definition GetNextLoop (in_loop_thread : bool) (p : t) : option (Z * t) :=
  if in_loop_thread then
    match m_loops p with
    | [] => Some (m_loop p, p)
    | _ :: _ =>
        if 0 <=? m_next p then
          loop ← m_loops p !! Z.to_nat (m_next p);
          let next := m_next p + 1 in
          let next :=
            if Z.of_nat (length (m_loops p)) <=? next mod 2 ^ 64 then 0
            else next in
          Some (loop, mk (m_loop p) (m_started p) (m_thrdNum p) next (m_loops p))
        else None
    end
  else None.

Definition GetAllLoops (in_loop_thread : bool) (p : t) : option (list Z) :=
  if in_loop_thread then
    match m_loops p with
    | [] => Some [m_loop p]
    | _ :: _ => Some (m_loops p)
    end
  else None.

(** [rand] is the value of [rand()]; it is converted to [size_t] for the
    remainder. [None]: the call ends the process in [AssertInLoopThread],
    or flows off the end of the function, [m_loops] being empty, and has
    no value to return. *)
Definition GetLoopRandom (in_loop_thread : bool) (rand : Z) (p : t)
    : option Z :=
  if in_loop_thread then
    match m_loops p with
    | [] => None
    | _ :: _ =>
        m_loops p
          !! Z.to_nat ((rand mod 2 ^ 64) mod Z.of_nat (length (m_loops p)))
    end
  else None.

(** [n] successive calls of [GetNextLoop] on the loop thread: the loops
    they return, in order. *)
Fixpoint calls (n : nat) (p : t) : option (list Z * t) :=
  match n with
  | O => Some ([], p)
  | S n' =>
      '(loop, p) ← GetNextLoop true p;
      '(loops, p) ← calls n' p;
      Some (loop :: loops, p)
  end.

End EventLoopThreadPool.

(** * Properties *)

(** ** Bit masks *)

Lemma truthy_true (x : Z) : truthy x = true <-> x <> 0.
Proof. unfold truthy. destruct (Z.eqb_spec x 0); simpl; split; congruence. Qed.

Lemma truthy_false (x : Z) : truthy x = false <-> x = 0.
Proof. unfold truthy. destruct (Z.eqb_spec x 0); simpl; split; congruence. Qed.

Lemma land_pow2_testbit (r : Z) (n : Z) :
  0 <= n -> truthy (Z.land r (2 ^ n)) = Z.testbit r n.
Proof.
  intros Hn.
  destruct (Z.testbit r n) eqn:Hb.
  - apply truthy_true. intros H0.
    assert (Hbit : Z.testbit (Z.land r (2 ^ n)) n = true).
    { rewrite Z.land_spec, Hb, Z.pow2_bits_true by lia. reflexivity. }
    rewrite H0, Z.bits_0 in Hbit. discriminate.
  - apply truthy_false. apply Z.bits_inj'. intros k Hk.
    rewrite Z.land_spec, Z.bits_0.
    destruct (Z.eq_dec n k) as [->|Hne].
    + rewrite Hb. reflexivity.
    + rewrite Z.pow2_bits_false by lia. apply andb_false_r.
Qed.

Lemma truthy_land_lor (r a b : Z) :
  truthy (Z.land r (Z.lor a b)) = truthy (Z.land r a) || truthy (Z.land r b).
Proof.
  rewrite Z.land_lor_distr_r.
  destruct (truthy (Z.land r a)) eqn:Ha, (truthy (Z.land r b)) eqn:Hb; simpl.
  - apply truthy_true. apply truthy_true in Ha. rewrite Z.lor_eq_0_iff. tauto.
  - apply truthy_true. apply truthy_true in Ha. rewrite Z.lor_eq_0_iff. tauto.
  - apply truthy_true. apply truthy_true in Hb. rewrite Z.lor_eq_0_iff. tauto.
  - apply truthy_false. apply truthy_false in Ha, Hb. rewrite Ha, Hb. reflexivity.
Qed.

Lemma truthy_EPOLLIN (r : Z) : truthy (Z.land r EPOLLIN) = Z.testbit r 0.
Proof. exact (land_pow2_testbit r 0 ltac:(lia)). Qed.

Lemma truthy_EPOLLPRI (r : Z) : truthy (Z.land r EPOLLPRI) = Z.testbit r 1.
Proof. exact (land_pow2_testbit r 1 ltac:(lia)). Qed.

Lemma truthy_EPOLLOUT (r : Z) : truthy (Z.land r EPOLLOUT) = Z.testbit r 2.
Proof. exact (land_pow2_testbit r 2 ltac:(lia)). Qed.

Lemma truthy_EPOLLERR (r : Z) : truthy (Z.land r EPOLLERR) = Z.testbit r 3.
Proof. exact (land_pow2_testbit r 3 ltac:(lia)). Qed.

Lemma truthy_EPOLLHUP (r : Z) : truthy (Z.land r EPOLLHUP) = Z.testbit r 4.
Proof. exact (land_pow2_testbit r 4 ltac:(lia)). Qed.

Lemma truthy_EPOLLRDHUP (r : Z) : truthy (Z.land r EPOLLRDHUP) = Z.testbit r 13.
Proof. exact (land_pow2_testbit r 13 ltac:(lia)). Qed.

Lemma truthy_read_mask (r : Z) :
  truthy (Z.land r (Z.lor (Z.lor EPOLLIN EPOLLPRI) EPOLLRDHUP))
  = Z.testbit r 0 || Z.testbit r 1 || Z.testbit r 13.
Proof.
  rewrite !truthy_land_lor, truthy_EPOLLIN, truthy_EPOLLPRI, truthy_EPOLLRDHUP.
  reflexivity.
Qed.

(** ** Channel dispatch *)

Lemma RunCallbackWithGuard_steps {W : Type} (T : Timestamp)
    (c : Channel.t W) (w : W) :
  Channel.RunCallbackWithGuard T c w
  = (Channel.set_runningCallback false c,
     Channel.dispatch_spec (Channel.m_revents c) T
       (Channel.m_readCallback c) (Channel.m_writeCallback c)
       (Channel.m_closeCallback c) (Channel.m_errorCallback c) w).
Proof.
  unfold Channel.RunCallbackWithGuard, Channel.dispatch_spec, Channel.step,
    Channel.contains, Channel.bit_HUP, Channel.bit_IN, Channel.bit_PRI,
    Channel.bit_ERR, Channel.bit_OUT, Channel.bit_RDHUP.
  cbn [Channel.set_runningCallback Channel.m_revents Channel.m_closeCallback
       Channel.m_errorCallback Channel.m_readCallback Channel.m_writeCallback].
  rewrite truthy_EPOLLHUP, truthy_EPOLLIN, truthy_EPOLLERR, truthy_read_mask,
    truthy_EPOLLOUT.
  f_equal.
  destruct (Channel.m_readCallback c); reflexivity.
Qed.

(** C3. For every ready mask [R] and timestamp [T], dispatch is the four
    guarded steps of the specification in their order: close iff [R] has HUP
    and not readable, then error iff ERR, then read with [T] iff readable,
    priority or peer-half-closed, then write iff writable, each only when its
    slot is set. On the channel whose callbacks record their invocation the
    trace shows each step exactly when its guard holds. *)
Theorem C3_dispatch_four_guarded_steps {W : Type} (R : Z) (T : Timestamp)
    (c : Channel.t W) (w : W) :
  (Channel.RunCallbackWithGuard T (Channel.SetRevents R c) w).2
  = Channel.dispatch_spec R T
      (Channel.m_readCallback c) (Channel.m_writeCallback c)
      (Channel.m_closeCallback c) (Channel.m_errorCallback c) w
  ∧ ∀ loop fd,
      (Channel.RunCallbackWithGuard T (Channel.recording loop fd R) []).2
      = (if Channel.contains R Channel.bit_HUP
            && negb (Channel.contains R Channel.bit_IN)
         then [Channel.FiredClose] else [])
        ++ (if Channel.contains R Channel.bit_ERR
            then [Channel.FiredError] else [])
        ++ (if Channel.contains R Channel.bit_IN
               || Channel.contains R Channel.bit_PRI
               || Channel.contains R Channel.bit_RDHUP
            then [Channel.FiredRead T] else [])
        ++ (if Channel.contains R Channel.bit_OUT
            then [Channel.FiredWrite] else []).
Proof.
  split.
  - rewrite RunCallbackWithGuard_steps. reflexivity.
  - intros loop fd. rewrite RunCallbackWithGuard_steps.
    unfold Channel.dispatch_spec, Channel.step.
    change (Channel.m_revents (Channel.recording loop fd R)) with R.
    destruct (Channel.contains R Channel.bit_HUP),
      (Channel.contains R Channel.bit_IN),
      (Channel.contains R Channel.bit_PRI),
      (Channel.contains R Channel.bit_RDHUP),
      (Channel.contains R Channel.bit_ERR),
      (Channel.contains R Channel.bit_OUT); reflexivity.
Qed.

(** C2, as amended. For a channel that is not tied, whose four slots are
    set and whose ready mask has HUP, readable and writable set and ERR
    clear, dispatch invokes the read callback, then the write callback, and
    neither the close nor the error callback: the result is [write] after
    [read T], whatever [close] and [error] are. *)
Theorem C2_hup_readable_writable_runs_read_then_write {W : Type}
    (alive : Z -> bool) (T : Timestamp) (c : Channel.t W) (w : W)
    (read : Timestamp -> W -> W) (write close error : W -> W) :
  Channel.m_tied c = false ->
  Channel.m_readCallback c = Some read ->
  Channel.m_writeCallback c = Some write ->
  Channel.m_closeCallback c = Some close ->
  Channel.m_errorCallback c = Some error ->
  Channel.contains (Channel.m_revents c) Channel.bit_HUP = true ->
  Channel.contains (Channel.m_revents c) Channel.bit_IN = true ->
  Channel.contains (Channel.m_revents c) Channel.bit_OUT = true ->
  Channel.contains (Channel.m_revents c) Channel.bit_ERR = false ->
  (Channel.RunCallback alive T c w).2 = write (read T w).
Proof.
  intros Htied Hr Hw Hc He Hhup Hin Hout Herr.
  unfold Channel.RunCallback. rewrite Htied, RunCallbackWithGuard_steps.
  unfold Channel.dispatch_spec, Channel.step.
  rewrite Hr, Hw, Hc, He, Hhup, Hin, Hout, Herr. reflexivity.
Qed.

(** C7. A channel tied by [tie]: when the weak reference cannot be
    upgraded at dispatch, no callback is invoked and nothing changes,
    whatever the ready mask; when it can, dispatch proceeds as
    [RunCallbackWithGuard]. A channel never tied dispatches as
    [RunCallbackWithGuard] too. *)
Theorem C7_tie_guards_dispatch {W : Type} (alive : Z -> bool)
    (obj : option Z) (T : Timestamp) (c : Channel.t W) (w : W) :
  (Channel.lock alive obj = None ->
   Channel.RunCallback alive T (Channel.tie obj c) w = (Channel.tie obj c, w))
  ∧ (Channel.lock alive obj <> None ->
     Channel.RunCallback alive T (Channel.tie obj c) w
     = Channel.RunCallbackWithGuard T (Channel.tie obj c) w)
  ∧ (Channel.m_tied c = false ->
     Channel.RunCallback alive T c w = Channel.RunCallbackWithGuard T c w).
Proof.
  unfold Channel.RunCallback. repeat split.
  - intros Hgone. simpl. rewrite Hgone. reflexivity.
  - intros Hlive. simpl. destruct (Channel.lock alive obj); congruence.
  - intros Hnot. rewrite Hnot. reflexivity.
Qed.

(** C2 is false as stated: with HUP, readable and writable set, a channel
    whose four callbacks record their invocation sees read, then write, and
    no close. *)
Lemma C2_close_is_not_invoked_when_readable :
  let R := Z.lor EPOLLHUP (Z.lor EPOLLIN EPOLLOUT) in
  (Channel.RunCallback (fun _ => true) 7 (Channel.recording 1 5 R) []).2
  = [Channel.FiredRead 7; Channel.FiredWrite]
  ∧ (Channel.RunCallback (fun _ => true) 7 (Channel.recording 1 5 R) []).2
    <> [Channel.FiredClose; Channel.FiredRead 7; Channel.FiredWrite].
Proof. split; [reflexivity | discriminate]. Qed.

Lemma C2_hup_readable_writable_witness :
  (Channel.RunCallback (fun _ => true) 7 (Channel.recording 1 5 21) []).2
  = [Channel.FiredRead 7; Channel.FiredWrite].
Proof.
  apply (C2_hup_readable_writable_runs_read_then_write (fun _ => true) 7
           (Channel.recording 1 5 21) []
           (fun ts => Channel.note (Channel.FiredRead ts))
           (Channel.note Channel.FiredWrite)
           (Channel.note Channel.FiredClose)
           (Channel.note Channel.FiredError));
    reflexivity.
Defined.

Lemma C7_tie_guards_dispatch_witness :
  let c := Channel.recording 1 5 21 in
  Channel.RunCallback (fun _ => false) 7 (Channel.tie (Some 9) c) []
  = (Channel.tie (Some 9) c, [])
  ∧ (Channel.RunCallback (fun _ => true) 7 (Channel.tie (Some 9) c) []).2
    = [Channel.FiredRead 7; Channel.FiredWrite]
  ∧ (Channel.RunCallback (fun _ => false) 7 c []).2
    = [Channel.FiredRead 7; Channel.FiredWrite].
Proof.
  intros c. split; [|split].
  - apply (C7_tie_guards_dispatch (fun _ => false) (Some 9) 7 c []).
    reflexivity.
  - rewrite (proj1 (proj2 (C7_tie_guards_dispatch (fun _ => true) (Some 9) 7 c [])));
      [reflexivity | discriminate].
  - rewrite (proj2 (proj2 (C7_tie_guards_dispatch (fun _ => false) (Some 9) 7 c [])));
      reflexivity.
Defined.

(** ** Poller *)

(** C4. [UpdateChannel] reconciles in four cases: a New channel is put in
    the table, marked Added, and ADD is issued; a Deleted channel is marked
    Added and ADD is issued, the table left as it is; an Added channel with
    empty interest gets DEL and is marked Deleted, its table entry kept; an
    Added channel with interest gets MOD and stays Added. *)
Theorem C4_update_is_four_case_reconciliation {W : Type} (channel : Z)
    (c : Channel.t W) (p : Poller.t) :
  let issued op c :=
    Poller.m_epollfd p
    ++ [Poller.mk_call op (Channel.m_fd c) (Channel.m_events c) channel] in
  (Channel.m_status c = Poller.k_New ->
   Poller.UpdateChannel channel c p
   = (Poller.mk (<[Channel.m_fd c := channel]> (Poller.m_channels p))
        (issued EPOLL_CTL_ADD c),
      Channel.SetStatus Poller.k_Added c))
  ∧ (Channel.m_status c = Poller.k_Deleted ->
     Poller.UpdateChannel channel c p
     = (Poller.mk (Poller.m_channels p) (issued EPOLL_CTL_ADD c),
        Channel.SetStatus Poller.k_Added c))
  ∧ (Channel.m_status c = Poller.k_Added -> Channel.m_events c = 0 ->
     Poller.UpdateChannel channel c p
     = (Poller.mk (Poller.m_channels p) (issued EPOLL_CTL_DEL c),
        Channel.SetStatus Poller.k_Deleted c))
  ∧ (Channel.m_status c = Poller.k_Added -> Channel.m_events c <> 0 ->
     Poller.UpdateChannel channel c p
     = (Poller.mk (Poller.m_channels p) (issued EPOLL_CTL_MOD c), c)).
Proof.
  intros issued. subst issued.
  unfold Poller.UpdateChannel, Poller.update, Channel.GetStatus,
    Channel.IsNoneEvent, Channel.fd, Channel.GetEvents, Channel.k_NoneEvent.
  split; [|split; [|split]].
  - intros ->. reflexivity.
  - intros ->. reflexivity.
  - intros -> ->. reflexivity.
  - intros -> Hne. cbn [Z.eqb orb Poller.k_Added Poller.k_New Poller.k_Deleted].
    destruct (Z.eqb_spec (Channel.m_events c) 0); [contradiction|reflexivity].
Qed.

Lemma C4_update_witness :
  let c := Channel.set_events 1 (@Channel.new unit 1 5) in
  let added := Channel.SetStatus Poller.k_Added c in
  Poller.UpdateChannel 77 c Poller.new
  = (Poller.mk {[5 := 77]} [Poller.mk_call EPOLL_CTL_ADD 5 1 77], added)
  ∧ Poller.UpdateChannel 77 added Poller.new
    = (Poller.mk ∅ [Poller.mk_call EPOLL_CTL_MOD 5 1 77], added).
Proof.
  intros c added. split.
  - apply (C4_update_is_four_case_reconciliation 77 c Poller.new). reflexivity.
  - apply (C4_update_is_four_case_reconciliation 77 added Poller.new).
    + reflexivity.
    + discriminate.
Defined.

Lemma HasChannel_table {W : Type} (channel : Z) (c : Channel.t W)
    (p : Poller.t) :
  Poller.HasChannel channel c p = true
  <-> Poller.m_channels p !! Channel.m_fd c = Some channel.
Proof.
  unfold Poller.HasChannel, Channel.fd.
  destruct (Poller.m_channels p !! Channel.m_fd c) as [found|].
  - destruct (Z.eqb_spec found channel); split; congruence.
  - split; congruence.
Qed.

Lemma UpdateChannel_effect {W : Type} (channel : Z) (c : Channel.t W)
    (p : Poller.t) :
  Channel.m_status c = Poller.k_New ∨ Channel.m_status c = Poller.k_Added
  ∨ Channel.m_status c = Poller.k_Deleted ->
  let '(p', c') := Poller.UpdateChannel channel c p in
  Channel.m_fd c' = Channel.m_fd c
  ∧ (Channel.m_status c' = Poller.k_Added
     ∨ Channel.m_status c' = Poller.k_Deleted)
  ∧ Poller.m_channels p'
    = if Channel.m_status c =? Poller.k_New
      then <[Channel.m_fd c := channel]> (Poller.m_channels p)
      else Poller.m_channels p.
Proof.
  unfold Poller.UpdateChannel, Channel.GetStatus, Channel.fd.
  intros [H|[H|H]]; rewrite H; cbn [Z.eqb orb Poller.k_Added Poller.k_New
    Poller.k_Deleted]; try (simpl; tauto).
  destruct (Channel.IsNoneEvent c); simpl; tauto.
Qed.

Lemma method_effect {W : Type} (o : Registration.Op) (channel : Z)
    (c c' : Channel.t W) (p p' : Poller.t) :
  Channel.m_status c = Poller.k_New ∨ Channel.m_status c = Poller.k_Added
  ∨ Channel.m_status c = Poller.k_Deleted ->
  Registration.method o channel c p = (p', c') ->
  Channel.m_fd c' = Channel.m_fd c
  ∧ ((Channel.m_status c' = Poller.k_New
      ∧ Poller.m_channels p' = delete (Channel.m_fd c) (Poller.m_channels p))
     ∨ ((Channel.m_status c' = Poller.k_Added
         ∨ Channel.m_status c' = Poller.k_Deleted)
        ∧ Poller.m_channels p'
          = if Channel.m_status c =? Poller.k_New
            then <[Channel.m_fd c := channel]> (Poller.m_channels p)
            else Poller.m_channels p)).
Proof.
  intros Hst Hm.
  assert (Hupd : ∀ e,
    Registration.update channel (Channel.set_events e c) p = (p', c') ->
    Channel.m_fd c' = Channel.m_fd c
    ∧ ((Channel.m_status c' = Poller.k_Added
        ∨ Channel.m_status c' = Poller.k_Deleted)
       ∧ Poller.m_channels p'
         = if Channel.m_status c =? Poller.k_New
           then <[Channel.m_fd c := channel]> (Poller.m_channels p)
           else Poller.m_channels p)).
  { intros e He. unfold Registration.update in He.
    pose proof (UpdateChannel_effect channel
                  (Channel.set_inLoop true (Channel.set_events e c)) p Hst)
      as Heff.
    rewrite He in Heff. exact Heff. }
  destruct o; cbn [Registration.method] in Hm;
    try (unfold Registration.OnReading, Registration.OffReading,
           Registration.OnWriting, Registration.OffWriting,
           Registration.OffAll in Hm;
         apply Hupd in Hm; destruct Hm as [Hfd Hrest]; split; [exact Hfd|];
         right; exact Hrest).
  unfold Registration.remove, Poller.RemoveChannel in Hm.
  cbn [Channel.GetStatus Channel.fd Channel.set_inLoop Channel.m_status
       Channel.m_fd] in Hm.
  destruct (Channel.m_status c =? Poller.k_Added);
    injection Hm as <- <-; (split; [reflexivity|]); left; split; reflexivity.
Qed.

Lemma perform_table_matches {W : Type} (o : Registration.Op)
    (r : Registration.Reactor W) :
  Registration.table_matches r ->
  Registration.fd_is_own o r = true ->
  Registration.table_matches (Registration.perform o r).
Proof.
  intros Hinv Hown. unfold Registration.perform.
  unfold Registration.fd_is_own, Channel.fd in Hown.
  destruct (Registration.channels r !! Registration.target o) as [c|] eqn:Hc;
    [|exact Hinv].
  destruct (Hinv _ _ Hc) as [Hst Htbl]. unfold Channel.fd in Htbl.
  destruct (Registration.method o (Registration.target o) c
              (Registration.poller r)) as [p' c'] eqn:Hm.
  destruct (method_effect o _ c c' _ p' Hst Hm) as [Hfd Heff].
  assert (Hother : ∀ y, y <> Registration.target o ->
            Poller.m_channels (Registration.poller r) !! Channel.m_fd c
            <> Some y).
  { intros y Hy.
    destruct (Poller.m_channels (Registration.poller r) !! Channel.m_fd c)
      as [found|]; [|discriminate].
    apply Z.eqb_eq in Hown. congruence. }
  intros y cy Hy. cbn [Registration.channels Registration.poller] in *.
  unfold Channel.fd in *.
  destruct (decide (y = Registration.target o)) as [->|Hne].
  - rewrite lookup_insert_eq in Hy. injection Hy as <-. rewrite Hfd.
    destruct Heff as [[Hnew ->]|[Hreg ->]].
    + split; [tauto|]. rewrite lookup_delete_eq, Hnew. split; congruence.
    + split; [tauto|].
      assert (Hnn : Channel.m_status c' <> Poller.k_New).
      { unfold Poller.k_New, Poller.k_Added, Poller.k_Deleted in *.
        destruct Hreg as [->| ->]; lia. }
      destruct (Z.eqb_spec (Channel.m_status c) Poller.k_New) as [Heq|Hneq].
      * rewrite lookup_insert_eq. tauto.
      * apply Htbl in Hneq. tauto.
  - rewrite lookup_insert_ne in Hy by congruence.
    destruct (Hinv _ _ Hy) as [Hsty Htbly]. split; [exact Hsty|].
    unfold Channel.fd in Htbly.
    destruct (decide (Channel.m_fd cy = Channel.m_fd c)) as [Hsame|Hdiff].
    + rewrite Hsame in *.
      assert (Hnew : Channel.m_status cy = Poller.k_New).
      { destruct (decide (Channel.m_status cy = Poller.k_New)) as [|Hn];
          [assumption|]. apply Htbly in Hn. apply Hother in Hne. contradiction. }
      split; [|intros; contradiction].
      intros Hin. exfalso.
      destruct Heff as [[_ Heq]|[_ Heq]]; rewrite Heq in Hin.
      * rewrite lookup_delete_eq in Hin. discriminate.
      * destruct (Channel.m_status c =? Poller.k_New).
        -- rewrite lookup_insert_eq in Hin. congruence.
        -- apply Hother in Hne. contradiction.
    + rewrite <- Htbly.
      destruct Heff as [[_ ->]|[_ ->]].
      * rewrite lookup_delete_ne by congruence. reflexivity.
      * destruct (Channel.m_status c =? Poller.k_New);
          [rewrite lookup_insert_ne by congruence|]; reflexivity.
Qed.

Lemma perform_all_table_matches {W : Type} (ops : list Registration.Op)
    (r : Registration.Reactor W) :
  Registration.table_matches r ->
  Registration.exclusive ops r = true ->
  Registration.table_matches (Registration.perform_all ops r).
Proof.
  revert r. induction ops as [|o ops IH]; intros r Hinv Hex.
  - exact Hinv.
  - cbn [Registration.exclusive] in Hex. apply andb_true_iff in Hex as [Ho Hex].
    unfold Registration.perform_all. cbn [fold_left].
    apply IH; [apply perform_table_matches; assumption | exact Hex].
Qed.

(** C5. [HasChannel] is true iff the table maps the channel's fd to that
    very pointer. From a loop whose poller is new and whose channels were
    just constructed, after any sequence of registration and remove
    operations in which no channel is operated on while another holds its
    fd in the table, a channel is in the poller iff its state is Added or
    Deleted; and [remove] leaves the channel New and out of the poller. *)
Theorem C5_has_channel_iff_added_or_deleted {W : Type}
    (cs : gmap Z (Channel.t W)) (ops : list Registration.Op) :
  Registration.fresh cs ->
  Registration.exclusive ops (Registration.mkReactor Poller.new cs) = true ->
  let r := Registration.perform_all ops (Registration.mkReactor Poller.new cs) in
  (∀ channel (c : Channel.t W) (p : Poller.t),
     Poller.HasChannel channel c p = true
     <-> Poller.m_channels p !! Channel.m_fd c = Some channel)
  ∧ (∀ channel c,
       Registration.channels r !! channel = Some c ->
       Poller.HasChannel channel c (Registration.poller r) = true
       <-> (Channel.m_status c = Poller.k_Added
            ∨ Channel.m_status c = Poller.k_Deleted))
  ∧ (∀ channel c,
       Registration.channels r !! channel = Some c ->
       let '(p', c') := Registration.remove channel c (Registration.poller r) in
       Channel.m_status c' = Poller.k_New
       ∧ Poller.HasChannel channel c' p' = false).
Proof.
  intros Hfresh Hex r.
  assert (Hinv : Registration.table_matches r).
  { apply perform_all_table_matches; [|exact Hex].
    intros channel c Hc. cbn [Registration.channels Registration.poller] in *.
    rewrite (Hfresh _ _ Hc). split; [tauto|].
    cbn [Poller.new Poller.m_channels]. rewrite lookup_empty.
    split; congruence. }
  split; [|split].
  - intros channel c p. apply HasChannel_table.
  - intros channel c Hc. rewrite HasChannel_table.
    destruct (Hinv _ _ Hc) as [Hst Htbl]. rewrite Htbl.
    unfold Poller.k_New, Poller.k_Added, Poller.k_Deleted in *. lia.
  - intros channel c Hc.
    unfold Registration.remove, Poller.RemoveChannel, Poller.HasChannel.
    cbn [Channel.GetStatus Channel.fd Channel.set_inLoop Channel.m_status
         Channel.m_fd Channel.SetStatus].
    destruct (Channel.m_status c =? Poller.k_Added);
      cbn [Poller.update Poller.m_channels Channel.SetStatus Channel.fd
           Channel.m_fd Channel.m_status];
      rewrite lookup_delete_eq; split; reflexivity.
Qed.

Lemma C5_has_channel_witness :
  let cs : gmap Z (Channel.t unit) :=
    <[10 := Channel.new 1 5]> (<[20 := Channel.new 1 6]> ∅) in
  let ops :=
    [Registration.DoOnReading 10; Registration.DoOnWriting 20;
     Registration.DoOffAll 10; Registration.DoRemove 20] in
  let r := Registration.perform_all ops (Registration.mkReactor Poller.new cs) in
  match Registration.channels r !! 10 with
  | Some c =>
      Channel.m_status c = Poller.k_Deleted
      ∧ (Poller.HasChannel 10 c (Registration.poller r) = true
         <-> (Channel.m_status c = Poller.k_Added
              ∨ Channel.m_status c = Poller.k_Deleted))
  | None => False
  end.
Proof.
  intros cs ops r.
  assert (Hfresh : Registration.fresh cs).
  { change (map_Forall (fun _ c => Channel.m_status c = Poller.k_New) cs).
    repeat apply map_Forall_insert_2; try reflexivity. apply map_Forall_empty. }
  assert (Hex : Registration.exclusive ops
                  (Registration.mkReactor Poller.new cs) = true).
  { vm_compute. reflexivity. }
  destruct (Registration.channels r !! 10) as [c|] eqn:Hc.
  - split.
    + vm_compute in Hc. injection Hc as <-. reflexivity.
    + exact (proj1 (proj2 (C5_has_channel_iff_added_or_deleted cs ops Hfresh Hex))
               10 c Hc).
  - vm_compute in Hc. discriminate.
Defined.

(** Without the rule the equivalence fails, and the poller does not check
    the rule. Channels 10 and 20 are constructed on the same fd 5.
    - [OnReading] and [OffAll] on the first, then [OnReading] on the
      second: the calls issued are [ADD], [DEL] and [ADD] for fd 5, none
      of them for an fd that is in the interest list already or is not
      in it when it should be; the first channel is Deleted, the table
      maps fd 5 to the second, and [HasChannel] is false for the first.
    - [OnReading] on the first, then [remove] on the second, which is New:
      [RemoveChannel] erases the entry of fd 5 and issues no call; the
      first channel is Added, and [HasChannel] is false for it. *)
Lemma C5_channel_on_a_held_fd_takes_the_entry :
  let cs : gmap Z (Channel.t unit) :=
    <[10 := Channel.new 1 5]> (<[20 := Channel.new 1 5]> ∅) in
  let start := Registration.mkReactor Poller.new cs in
  let claimed (r : Registration.Reactor unit) :=
    ∀ channel c,
      Registration.channels r !! channel = Some c ->
      Poller.HasChannel channel c (Registration.poller r) = true
      <-> (Channel.m_status c = Poller.k_Added
           ∨ Channel.m_status c = Poller.k_Deleted) in
  let ops1 :=
    [Registration.DoOnReading 10; Registration.DoOffAll 10;
     Registration.DoOnReading 20] in
  let r1 := Registration.perform_all ops1 start in
  let ops2 := [Registration.DoOnReading 10; Registration.DoRemove 20] in
  let r2 := Registration.perform_all ops2 start in
  Registration.fresh cs
  ∧ (Poller.m_epollfd (Registration.poller r1)
     = [Poller.mk_call EPOLL_CTL_ADD 5 3 10;
        Poller.mk_call EPOLL_CTL_DEL 5 0 10;
        Poller.mk_call EPOLL_CTL_ADD 5 3 20]
     ∧ Poller.m_channels (Registration.poller r1) = {[5 := 20]}
     ∧ (Channel.m_status <$> Registration.channels r1 !! 10)
       = Some Poller.k_Deleted
     ∧ ¬ claimed r1)
  ∧ (Poller.m_epollfd (Registration.poller r2)
     = [Poller.mk_call EPOLL_CTL_ADD 5 3 10]
     ∧ Poller.m_channels (Registration.poller r2) = ∅
     ∧ (Channel.m_status <$> Registration.channels r2 !! 10)
       = Some Poller.k_Added
     ∧ ¬ claimed r2)
  ∧ Registration.exclusive ops1 start = false
  ∧ Registration.exclusive ops2 start = false.
Proof.
  intros cs start claimed ops1 r1 ops2 r2.
  split.
  { change (map_Forall (fun _ c => Channel.m_status c = Poller.k_New) cs).
    repeat apply map_Forall_insert_2; try reflexivity. apply map_Forall_empty. }
  split; [|split; [|split; reflexivity]].
  - split; [reflexivity|]. split; [reflexivity|]. split; [reflexivity|].
    intros Hclaimed.
    destruct (Registration.channels r1 !! 10) as [c|] eqn:Hc;
      [|vm_compute in Hc; discriminate].
    pose proof (proj2 (Hclaimed 10 c Hc)) as Hhas.
    vm_compute in Hc. injection Hc as <-.
    specialize (Hhas (or_intror eq_refl)). vm_compute in Hhas. discriminate.
  - split; [reflexivity|]. split; [reflexivity|]. split; [reflexivity|].
    intros Hclaimed.
    destruct (Registration.channels r2 !! 10) as [c|] eqn:Hc;
      [|vm_compute in Hc; discriminate].
    pose proof (proj2 (Hclaimed 10 c Hc)) as Hhas.
    vm_compute in Hc. injection Hc as <-.
    specialize (Hhas (or_introl eq_refl)). vm_compute in Hhas. discriminate.
Qed.

(** ** EventLoop *)

(** C8. [run(f)] called on the loop's own thread is the invocation of [f],
    made before [run] returns, and [run] itself leaves the queue of pending
    tasks as it is; called from any other thread it appends [f] to the
    queue and wakes the loop, and does nothing else. *)
Theorem C8_run_invokes_or_enqueues {Task : Type}
    (invoke : Task -> EventLoop.t Task -> EventLoop.t Task)
    (tid : Z) (f : Task) (l : EventLoop.t Task) :
  (tid = EventLoop.m_threadID l ->
   EventLoop.run invoke tid f l = invoke f l
   ∧ (EventLoop.m_ExtraFuncs (invoke f l) = EventLoop.m_ExtraFuncs l ->
      EventLoop.m_ExtraFuncs (EventLoop.run invoke tid f l)
      = EventLoop.m_ExtraFuncs l))
  ∧ (tid <> EventLoop.m_threadID l ->
     EventLoop.run invoke tid f l
     = EventLoop.wakeup
         (EventLoop.set_ExtraFuncs (EventLoop.m_ExtraFuncs l ++ [f]) l)
     ∧ EventLoop.m_ExtraFuncs (EventLoop.run invoke tid f l)
       = EventLoop.m_ExtraFuncs l ++ [f]
     ∧ EventLoop.m_wakeUpfd (EventLoop.run invoke tid f l)
       = EventLoop.m_wakeUpfd l + 1).
Proof.
  unfold EventLoop.run, EventLoop.AddExtraFunc, EventLoop.InLoopThread.
  cbn [EventLoop.set_ExtraFuncs EventLoop.m_threadID].
  split.
  - intros ->. rewrite Z.eqb_refl. split; [reflexivity|]. intros H. exact H.
  - intros Hne.
    destruct (Z.eqb_spec (EventLoop.m_threadID l) tid); [congruence|].
    cbn [negb orb]. repeat split.
Qed.

(** Tasks that stamp the loop with their number make the invocation
    visible in [m_returnTime]. *)
Lemma C8_run_witness :
  let l : EventLoop.t Z := EventLoop.mk false false false false 0 1 0 0 0 [] [] in
  let invoke := EventLoop.set_returnTime in
  EventLoop.run invoke 1 42 l = EventLoop.set_returnTime 42 l
  ∧ EventLoop.m_ExtraFuncs (EventLoop.run invoke 1 42 l) = []
  ∧ EventLoop.m_ExtraFuncs (EventLoop.run invoke 2 42 l) = [42]
  ∧ EventLoop.m_wakeUpfd (EventLoop.run invoke 2 42 l) = 1.
Proof.
  intros l invoke. split; [|split; [|split]].
  - apply (C8_run_invokes_or_enqueues invoke 1 42 l). reflexivity.
  - apply (C8_run_invokes_or_enqueues invoke 1 42 l); reflexivity.
  - apply (C8_run_invokes_or_enqueues invoke 2 42 l). discriminate.
  - apply (C8_run_invokes_or_enqueues invoke 2 42 l). discriminate.
Defined.

Lemma iterate_Returned {Task : Type}
    (invoke : Task -> EventLoop.t Task -> EventLoop.t Task)
    (RunCallback : Z -> Timestamp -> EventLoop.t Task -> EventLoop.t Task)
    (polls : list (EventLoop.PollReturn Task)) (l l' : EventLoop.t Task) :
  EventLoop.iterate invoke RunCallback polls l = EventLoop.Returned l' ->
  EventLoop.m_quit l' = true.
Proof.
  revert l. induction polls as [|r polls IH]; intros l; cbn [EventLoop.iterate];
    destruct (EventLoop.m_quit l) eqn:Hq; intros H.
  - injection H as <-. exact Hq.
  - discriminate.
  - injection H as <-. exact Hq.
  - exact (IH _ H).
Qed.

Lemma iterate_InPoll {Task : Type}
    (invoke : Task -> EventLoop.t Task -> EventLoop.t Task)
    (RunCallback : Z -> Timestamp -> EventLoop.t Task -> EventLoop.t Task)
    (polls : list (EventLoop.PollReturn Task)) (l l' : EventLoop.t Task) :
  EventLoop.iterate invoke RunCallback polls l = EventLoop.InPoll l' ->
  EventLoop.m_quit l' = false.
Proof.
  revert l. induction polls as [|r polls IH]; intros l; cbn [EventLoop.iterate];
    destruct (EventLoop.m_quit l) eqn:Hq; intros H.
  - discriminate.
  - injection H as <-. exact Hq.
  - discriminate.
  - exact (IH _ H).
Qed.

Lemma iterate_nil {Task : Type}
    (invoke : Task -> EventLoop.t Task -> EventLoop.t Task)
    (RunCallback : Z -> Timestamp -> EventLoop.t Task -> EventLoop.t Task)
    (l : EventLoop.t Task) :
  EventLoop.m_quit l = false ->
  EventLoop.iterate invoke RunCallback [] l = EventLoop.InPoll l.
Proof. intros H. cbn [EventLoop.iterate]. rewrite H. reflexivity. Qed.

Lemma iterate_cons {Task : Type}
    (invoke : Task -> EventLoop.t Task -> EventLoop.t Task)
    (RunCallback : Z -> Timestamp -> EventLoop.t Task -> EventLoop.t Task)
    (r : EventLoop.PollReturn Task) (polls : list (EventLoop.PollReturn Task))
    (l : EventLoop.t Task) :
  EventLoop.m_quit l = false ->
  EventLoop.iterate invoke RunCallback (r :: polls) l
  = EventLoop.iterate invoke RunCallback polls
      (EventLoop.iteration invoke RunCallback r l).
Proof. intros H. cbn [EventLoop.iterate]. rewrite H. reflexivity. Qed.

Lemma iterations_cons {Task : Type}
    (invoke : Task -> EventLoop.t Task -> EventLoop.t Task)
    (RunCallback : Z -> Timestamp -> EventLoop.t Task -> EventLoop.t Task)
    (r : EventLoop.PollReturn Task) (polls : list (EventLoop.PollReturn Task))
    (l : EventLoop.t Task) :
  EventLoop.m_quit l = false ->
  EventLoop.iterations invoke RunCallback (r :: polls) l
  = S (EventLoop.iterations invoke RunCallback polls
         (EventLoop.iteration invoke RunCallback r l)).
Proof. intros H. cbn [EventLoop.iterations]. rewrite H. reflexivity. Qed.

(** C10. [loop] sets the quit flag to false on entry, before its first
    poll, whatever the flag was. So a [quit] issued before [loop] is
    entered is discarded: the loop goes into its first poll, runs the
    iteration of every poll return it gets, returns only with the flag set
    again, after at least one iteration, and is in [poll] as long as the
    flag is not set again. *)
Theorem C10_loop_discards_quit_before_entry {Task : Type}
    (invoke : Task -> EventLoop.t Task -> EventLoop.t Task)
    (RunCallback : Z -> Timestamp -> EventLoop.t Task -> EventLoop.t Task)
    (tid caller : Z) (l : EventLoop.t Task) :
  tid = EventLoop.m_threadID l ->
  let loop := EventLoop.loop invoke RunCallback tid in
  let iterate := EventLoop.iterate invoke RunCallback in
  let quitted := EventLoop.quit caller l in
  let entered := EventLoop.set_quit false (EventLoop.set_looping true quitted) in
  EventLoop.m_quit quitted = true
  ∧ EventLoop.m_quit entered = false
  ∧ (∀ b polls, loop polls (EventLoop.set_quit b l) = loop polls l)
  ∧ loop [] quitted = EventLoop.InPoll entered
  ∧ (∀ r polls,
       loop (r :: polls) quitted
       = iterate polls (EventLoop.iteration invoke RunCallback r entered))
  ∧ (∀ polls l',
       loop polls quitted = EventLoop.Returned l' ->
       EventLoop.m_quit l' = true
       ∧ (1 <= EventLoop.iterations invoke RunCallback polls entered)%nat)
  ∧ (∀ polls l',
       loop polls quitted = EventLoop.InPoll l' -> EventLoop.m_quit l' = false).
Proof.
  intros -> loop iterate quitted entered.
  assert (Hin : EventLoop.InLoopThread (EventLoop.m_threadID l) quitted = true).
  { unfold quitted, EventLoop.quit, EventLoop.InLoopThread.
    destruct (negb _); cbn; apply Z.eqb_refl. }
  assert (Hq : EventLoop.m_quit quitted = true).
  { unfold quitted, EventLoop.quit. destruct (negb _); reflexivity. }
  assert (Hloop : ∀ polls, loop polls quitted = iterate polls entered).
  { intros polls. unfold loop, EventLoop.loop. rewrite Hin. reflexivity. }
  split; [exact Hq|]. split; [reflexivity|]. split; [|split; [|split; [|split]]].
  - intros b polls. unfold loop, EventLoop.loop, EventLoop.InLoopThread.
    destruct l; reflexivity.
  - rewrite Hloop. apply iterate_nil. reflexivity.
  - intros r polls. rewrite Hloop. apply iterate_cons. reflexivity.
  - intros polls l'. rewrite Hloop. intros Hret. split.
    + exact (iterate_Returned _ _ _ _ _ Hret).
    + destruct polls as [|r polls].
      * unfold iterate in Hret. rewrite iterate_nil in Hret by reflexivity.
        discriminate.
      * rewrite iterations_cons by reflexivity. lia.
  - intros polls l'. rewrite Hloop. apply iterate_InPoll.
Qed.

(** Task 0 calls [quit] from the loop thread; another thread's [quit]
    precedes [loop], and the same thread hands in task 0 during the second
    poll. The loop returns after two iterations. *)
Lemma C10_loop_witness :
  let invoke (f : Z) (l : EventLoop.t Z) :=
    if f =? 0 then EventLoop.quit (EventLoop.m_threadID l) l else l in
  let RunCallback (channel : Z) (ts : Timestamp) (l : EventLoop.t Z) := l in
  let l : EventLoop.t Z := EventLoop.mk false false false false 0 1 0 0 0 [] [] in
  let polls :=
    [EventLoop.mkPoll [] 100 []; 
     EventLoop.mkPoll [EventLoop.CallAddExtraFunc 2 0] 200 [];
     EventLoop.mkPoll [] 300 []] in
  (∀ l', EventLoop.loop invoke RunCallback 1 polls (EventLoop.quit 2 l)
         = EventLoop.Returned l' -> EventLoop.m_quit l' = true)
  ∧ EventLoop.loop invoke RunCallback 1 polls (EventLoop.quit 2 l)
    = EventLoop.Returned
        (EventLoop.mk false false false true 2 1 0 2 200 [] []).
Proof.
  intros invoke RunCallback l polls. split.
  - intros l' Hret.
    apply (C10_loop_discards_quit_before_entry invoke RunCallback 1 2 l
             eq_refl) in Hret.
    exact (proj1 Hret).
  - reflexivity.
Defined.

(** ** EventLoopThreadPool *)

Lemma GetNextLoop_started (spawn : nat -> Z) (base thrdNum : Z) (st : bool)
    (N i : nat) :
  (i < N)%nat -> Z.of_nat N < 2 ^ 31 ->
  EventLoopThreadPool.GetNextLoop true
    (EventLoopThreadPool.mk base st thrdNum (Z.of_nat i) (spawn <$> seq 0 N))
  = Some (spawn i,
          EventLoopThreadPool.mk base st thrdNum
            (Z.of_nat (S i mod N)) (spawn <$> seq 0 N)).
Proof.
  intros Hi HN. unfold EventLoopThreadPool.GetNextLoop.
  cbn [EventLoopThreadPool.m_loops EventLoopThreadPool.m_next
       EventLoopThreadPool.m_loop EventLoopThreadPool.m_started
       EventLoopThreadPool.m_thrdNum].
  destruct (spawn <$> seq 0 N) as [|x xs] eqn:Hls.
  { destruct N; [lia | discriminate]. }
  rewrite <- Hls. clear x xs Hls.
  destruct (Z.leb_spec 0 (Z.of_nat i)) as [_|]; [|lia].
  rewrite Nat2Z.id, list_lookup_fmap, lookup_seq_lt by exact Hi.
  cbn [fmap option_fmap option_map mbind option_bind Nat.add].
  rewrite length_fmap, length_seq.
  rewrite Z.mod_small by lia.
  do 2 f_equal. f_equal.
  destruct (Z.leb_spec (Z.of_nat N) (Z.of_nat i + 1)) as [Hle|Hlt].
  - assert (S i = N) as -> by lia. rewrite Nat.Div0.mod_same. reflexivity.
  - rewrite Nat.mod_small by lia. lia.
Qed.

Lemma calls_started (spawn : nat -> Z) (base thrdNum : Z) (st : bool)
    (N n : nat) :
  Z.of_nat N < 2 ^ 31 ->
  ∀ i, (i < N)%nat ->
  EventLoopThreadPool.calls n
    (EventLoopThreadPool.mk base st thrdNum (Z.of_nat i) (spawn <$> seq 0 N))
  = Some ((fun k => spawn ((i + k) mod N)%nat) <$> seq 0 n,
          EventLoopThreadPool.mk base st thrdNum
            (Z.of_nat ((i + n) mod N)) (spawn <$> seq 0 N)).
Proof.
  intros HN. induction n as [|n IH]; intros i Hi.
  - cbn [EventLoopThreadPool.calls seq fmap list_fmap].
    rewrite Nat.add_0_r, Nat.mod_small by exact Hi. reflexivity.
  - cbn [EventLoopThreadPool.calls].
    rewrite GetNextLoop_started by assumption.
    cbn [mbind option_bind].
    rewrite IH by (apply Nat.mod_upper_bound; lia).
    cbn [mbind option_bind]. f_equal. f_equal.
    + cbn [seq]. rewrite fmap_cons. f_equal.
      * rewrite Nat.add_0_r, Nat.mod_small by exact Hi. reflexivity.
      * rewrite <- fmap_S_seq, <- list_fmap_compose.
        apply list_fmap_ext. intros _ k _. cbn [compose]. f_equal.
        rewrite Nat.Div0.add_mod_idemp_l. f_equal. lia.
    + do 2 f_equal. rewrite Nat.Div0.add_mod_idemp_l. f_equal. lia.
Qed.

(** C9. A pool started with three loops returns, in seven successive calls
    of [GetNextLoop], its loops 0, 1, 2, 0, 1, 2, 0. In general, for a pool
    started with [threadNum] loops, the [k]-th call (from 0) returns loop
    [k mod threadNum], and the base loop when the pool has no loops. *)
Theorem C9_next_loop_round_robin (spawn : nat -> Z) (base threadNum : Z)
    (n : nat) :
  0 <= threadNum < 2 ^ 31 ->
  let started t :=
    EventLoopThreadPool.start spawn
      (EventLoopThreadPool.SetThreadNum t (EventLoopThreadPool.new base)) in
  fst <$> EventLoopThreadPool.calls 7 (started 3)
  = Some [spawn 0; spawn 1; spawn 2; spawn 0; spawn 1; spawn 2; spawn 0]%nat
  ∧ fst <$> EventLoopThreadPool.calls n (started threadNum)
    = Some ((fun k => if threadNum =? 0 then base
                      else spawn (k mod Z.to_nat threadNum)%nat) <$> seq 0 n).
Proof.
  intros Hrange started. split; [reflexivity|].
  unfold started, EventLoopThreadPool.start, EventLoopThreadPool.SetThreadNum,
    EventLoopThreadPool.new.
  cbn [EventLoopThreadPool.m_loops EventLoopThreadPool.m_next
       EventLoopThreadPool.m_loop EventLoopThreadPool.m_started
       EventLoopThreadPool.m_thrdNum app].
  destruct (Z.eqb_spec threadNum 0) as [->|Hne].
  - cbn [Z.to_nat seq fmap list_fmap].
    assert (Hbase : ∀ p, EventLoopThreadPool.m_loops p = [] ->
              EventLoopThreadPool.calls n p
              = Some (replicate n (EventLoopThreadPool.m_loop p), p)).
    { intros p Hp. induction n as [|n IH]; [reflexivity|].
      cbn [EventLoopThreadPool.calls]. unfold EventLoopThreadPool.GetNextLoop.
      rewrite Hp. cbn [mbind option_bind]. rewrite IH.
      reflexivity. }
    rewrite Hbase by reflexivity.
    cbn [fmap option_fmap option_map fst EventLoopThreadPool.m_loop].
    f_equal. clear. generalize 0%nat.
    induction n as [|n IH]; intros s; [reflexivity|].
    cbn [replicate seq fmap list_fmap]. f_equal. apply IH.
  - change 0 with (Z.of_nat 0).
    rewrite (calls_started spawn base threadNum true (Z.to_nat threadNum) n)
      by lia.
    reflexivity.
Qed.

Lemma C9_next_loop_witness :
  fst <$> EventLoopThreadPool.calls 7
            (EventLoopThreadPool.start (fun i => 100 + Z.of_nat i)
               (EventLoopThreadPool.SetThreadNum 3 (EventLoopThreadPool.new 99)))
  = Some [100; 101; 102; 100; 101; 102; 100].
Proof.
  exact (proj2 (C9_next_loop_round_robin (fun i => 100 + Z.of_nat i) 99 3 7
                  ltac:(lia))).
Defined.



(** ** TimerQueue *)

Section TimerQueueFacts.

Import TimerQueue.

Implicit Types (k : Key) (m : TimerMap) (q : t) (objs : gmap Z Timer).

Lemma key_eqb_eq (a b : Key) : key_eqb a b = true <-> a = b.
Proof.
  destruct a as [e1 p1], b as [e2 p2]. unfold key_eqb. simpl.
  rewrite andb_true_iff, !Z.eqb_eq. split; [intros [-> ->]|intros [= -> ->]]; auto.
Qed.

Lemma key_eqb_refl (a : Key) : key_eqb a a = true.
Proof. apply key_eqb_eq. reflexivity. Qed.

Lemma key_ltb_lt (a b : Key) :
  key_ltb a b = true <-> a.1 < b.1 ∨ (a.1 = b.1 ∧ a.2 < b.2).
Proof.
  unfold key_ltb.
  rewrite orb_true_iff, andb_true_iff, !Z.ltb_lt, Z.eqb_eq. reflexivity.
Qed.

Lemma key_ltb_irrefl (a : Key) : key_ltb a a = false.
Proof.
  destruct (key_ltb a a) eqn:H; [|reflexivity].
  apply key_ltb_lt in H. lia.
Qed.

Lemma key_ltb_trans (a b c : Key) :
  key_ltb a b = true -> key_ltb b c = true -> key_ltb a c = true.
Proof. rewrite !key_ltb_lt. lia. Qed.

Lemma key_ltb_total (a b : Key) :
  key_ltb a b = false -> key_ltb b a = false -> a = b.
Proof.
  destruct a as [e p], b as [e' p']. unfold key_ltb. simpl.
  rewrite !orb_false_iff, !andb_false_iff, !Z.ltb_ge, !Z.eqb_neq.
  intros [Ha Hb] [Hc Hd]. assert (e = e') as -> by lia.
  f_equal. lia.
Qed.

Lemma key_ltb_advance (e d p : Z) :
  0 < d -> key_ltb (e, p) (e + d, p) = true ∧ key_ltb (e + d, p) (e, p) = false
           ∧ key_eqb (e + d, p) (e, p) = false.
Proof.
  intros Hd. split; [|split].
  - apply key_ltb_lt. simpl. lia.
  - destruct (key_ltb (e + d, p) (e, p)) eqn:H; [|reflexivity].
    apply key_ltb_lt in H. simpl in H. lia.
  - destruct (key_eqb (e + d, p) (e, p)) eqn:H; [|reflexivity].
    apply key_eqb_eq in H. injection H. lia.
Qed.

Lemma destroy_null objs : destroy 0 objs = objs.
Proof. reflexivity. Qed.

Lemma destroy_lookup_ne (p p' : Z) objs :
  p <> p' -> destroy p objs !! p' = objs !! p'.
Proof.
  intros Hne. unfold destroy. destruct (p =? 0); [reflexivity|].
  apply lookup_delete_ne. exact Hne.
Qed.

(** *** The map operations on lists *)

Lemma assign_fresh k (ptr : Z) m :
  k.2 ∉ key_ptrs m ->
  ∃ m1 m2, m = m1 ++ m2 ∧ assign k ptr m = (m1 ++ (k, ptr) :: m2, 0).
Proof.
  induction m as [|[k' owned] m IH]; intros Hfresh.
  - exists [], []. split; reflexivity.
  - cbn [assign]. unfold key_ptrs in Hfresh. rewrite fmap_cons in Hfresh.
    apply not_elem_of_cons in Hfresh as [Hne Hfresh]. simpl in Hne.
    destruct (key_ltb k k') eqn:Hlt.
    + exists [], ((k', owned) :: m). split; reflexivity.
    + destruct (key_ltb k' k) eqn:Hgt.
      * destruct (IH Hfresh) as (m1 & m2 & -> & ->).
        exists ((k', owned) :: m1), m2. split; reflexivity.
      * exfalso. apply Hne. rewrite (key_ltb_total _ _ Hlt Hgt). reflexivity.
Qed.

Lemma erase_cases k m :
  erase k m = (m, 0) ∧ k ∉ m.*1
  ∨ ∃ m1 m2 owned, m = m1 ++ (k, owned) :: m2 ∧ erase k m = (m1 ++ m2, owned).
Proof.
  induction m as [|[k' owned] m IH].
  - left. split; [reflexivity|]. apply not_elem_of_nil.
  - cbn [erase]. destruct (key_eqb k' k) eqn:Hk.
    + apply key_eqb_eq in Hk as ->. right. exists [], m, owned.
      split; reflexivity.
    + assert (Hne : k <> k').
      { intros ->. rewrite key_eqb_refl in Hk. discriminate. }
      destruct IH as [[-> Hnot]|(m1 & m2 & o & -> & ->)].
      * left. split; [reflexivity|]. rewrite fmap_cons.
        apply not_elem_of_cons. split; assumption.
      * right. exists ((k', owned) :: m1), m2, o. split; reflexivity.
Qed.

Lemma find_Some k m (owned : Z) : find k m = Some owned -> (k, owned) ∈ m.
Proof.
  induction m as [|[k' o] m IH]; cbn [find]; [discriminate|].
  destruct (key_eqb k' k) eqn:Hk.
  - apply key_eqb_eq in Hk as ->. intros [= ->]. apply list_elem_of_here.
  - intros H. apply list_elem_of_further, IH, H.
Qed.

Lemma lower_bound_split (bound : Key) m :
  m = (lower_bound bound m).1 ++ (lower_bound bound m).2
  ∧ Forall (fun entry => key_ltb entry.1 bound = true) (lower_bound bound m).1
  ∧ match (lower_bound bound m).2 with
    | [] => True
    | entry :: _ => key_ltb entry.1 bound = false
    end.
Proof.
  induction m as [|[k owned] m IH]; cbn [lower_bound].
  - repeat split. constructor.
  - destruct (key_ltb k bound) eqn:Hlt.
    + destruct (lower_bound bound m) as [before rest]. simpl in *.
      destruct IH as (-> & Hb & Hr). repeat split; [|exact Hr].
      constructor; assumption.
    + simpl. repeat split; [constructor | exact Hlt].
Qed.

Lemma sorted_tail (entry : Key * Z) m : sorted (entry :: m) = true -> sorted m = true.
Proof.
  destruct entry as [k o]. cbn [sorted]. destruct m as [|[k' o'] m]; [reflexivity|].
  intros H. apply andb_true_iff in H. tauto.
Qed.

Lemma sorted_head (entry : Key * Z) m :
  sorted (entry :: m) = true ->
  Forall (fun later => key_ltb entry.1 later.1 = true) m.
Proof.
  revert entry. induction m as [|[k' o'] m IH]; intros [k o] H.
  - constructor.
  - cbn [sorted] in H. apply andb_true_iff in H as [Hlt Hs].
    constructor; [exact Hlt|].
    eapply Forall_impl; [apply (IH (k', o') Hs)|].
    intros later Hl. simpl in *. eapply key_ltb_trans; eassumption.
Qed.

Lemma sorted_app_r (m1 m2 : TimerMap) : sorted (m1 ++ m2) = true -> sorted m2 = true.
Proof.
  induction m1 as [|entry m1 IH]; [auto|].
  intros H. apply IH. exact (sorted_tail _ _ H).
Qed.

(** *** The map stays in key order *)

Lemma sorted_cons (k : Z * Z) (owned : Z) m :
  sorted ((k, owned) :: m) = true <-> before_first k m ∧ sorted m = true.
Proof.
  cbn [sorted]. destruct m as [|[k' o'] m]; cbn [before_first].
  - tauto.
  - rewrite andb_true_iff. reflexivity.
Qed.

Lemma assign_before_first k (ptr : Z) m (k0 : Z * Z) :
  before_first k0 m -> key_ltb k0 k = true ->
  before_first k0 (assign k ptr m).1.
Proof.
  intros Hm Hk. destruct m as [|[k' o'] m]; cbn [assign]; [exact Hk|].
  destruct (key_ltb k k'); [exact Hk|].
  destruct (key_ltb k' k).
  - destruct (assign k ptr m). exact Hm.
  - exact Hk.
Qed.

Lemma sorted_assign k (ptr : Z) m :
  sorted m = true -> sorted (assign k ptr m).1 = true.
Proof.
  induction m as [|[k' o'] m IH]; intros Hs; [reflexivity|].
  cbn [assign]. destruct (key_ltb k k') eqn:Hlt.
  - cbn [fst]. apply sorted_cons. split; [exact Hlt | exact Hs].
  - apply sorted_cons in Hs as [Hfirst Hs].
    destruct (key_ltb k' k) eqn:Hgt.
    + pose proof (assign_before_first k ptr m k' Hfirst Hgt) as Hb.
      specialize (IH Hs). destruct (assign k ptr m) as [m'' old].
      cbn [fst] in *. apply sorted_cons. split; assumption.
    + cbn [fst]. rewrite (key_ltb_total _ _ Hlt Hgt).
      apply sorted_cons. split; assumption.
Qed.

Lemma erase_before_first k m (k0 : Z * Z) :
  sorted m = true -> before_first k0 m -> before_first k0 (erase k m).1.
Proof.
  intros Hs Hm. destruct m as [|[k' o'] m]; cbn [erase]; [exact I|].
  destruct (key_eqb k' k).
  - cbn [fst]. apply sorted_cons in Hs as [Hfirst _].
    destruct m as [|[k'' o''] m]; [exact I|].
    cbn [before_first] in *. eapply key_ltb_trans; eassumption.
  - destruct (erase k m). exact Hm.
Qed.

Lemma sorted_erase k m : sorted m = true -> sorted (erase k m).1 = true.
Proof.
  induction m as [|[k' o'] m IH]; intros Hs; [reflexivity|].
  cbn [erase]. apply sorted_cons in Hs as [Hfirst Hs].
  destruct (key_eqb k' k); [exact Hs|].
  pose proof (erase_before_first k m k' Hs Hfirst) as Hb.
  specialize (IH Hs). destruct (erase k m) as [m'' old].
  cbn [fst] in *. apply sorted_cons. split; assumption.
Qed.

Lemma sorted_first (entry : Z * Z * Z) m :
  sorted (entry :: m) = true ->
  ∀ later, later ∈ entry :: m -> entry.1.1 <= later.1.1.
Proof.
  intros Hs later Hin. apply elem_of_cons in Hin as [->|Hin]; [lia|].
  pose proof (sorted_head _ _ Hs) as Hall. rewrite Forall_forall in Hall.
  specialize (Hall _ Hin). apply key_ltb_lt in Hall. lia.
Qed.

(** *** Entries that stay accounted for *)

Lemma rearmed_mono (q0 : t) (now : Timestamp) (n n' : Z) k :
  n <= n' -> rearmed q0 now n k -> rearmed q0 now n' k.
Proof.
  intros Hn (tm0 & j & H1 & H2 & H3 & H4 & H5 & H6).
  exists tm0, j. repeat split; try assumption; lia.
Qed.

Lemma entry_ok_mono (q0 : t) (now : Timestamp) (n n' : Z) objs
    (entry : Key * Z) :
  n <= n' -> entry_ok q0 now n objs entry -> entry_ok q0 now n' objs entry.
Proof.
  intros Hn (Hv & Hvalid & tm & Htm & Hrt & Hclass).
  split; [exact Hv|]. split; [exact Hvalid|]. exists tm.
  split; [exact Htm|]. split; [exact Hrt|].
  destruct Hclass as [H|[[H Hi]|H]]; [left|right; left|right; right]; auto.
  split; [|exact Hi]. eapply rearmed_mono; eassumption.
Qed.

Lemma entry_ok_objs (q0 : t) (now : Timestamp) (n : Z) objs objs'
    (entry : Key * Z) :
  objs' !! entry.2 = objs !! entry.2 ->
  entry_ok q0 now n objs entry -> entry_ok q0 now n objs' entry.
Proof.
  intros Heq (Hv & Hvalid & tm & Htm & Hrest).
  split; [exact Hv|]. split; [exact Hvalid|]. exists tm.
  split; [congruence | exact Hrest].
Qed.

Lemma entry_ok_ptr (q0 : t) (now : Timestamp) (n : Z) objs m (entry : Key * Z) :
  Forall (entry_ok q0 now n objs) m -> entry ∈ m ->
  entry.2 ∈ key_ptrs m ∧ entry.2 = entry.1.2 ∧ is_Some (objs !! entry.2).
Proof.
  intros Hall Hin. rewrite Forall_forall in Hall.
  destruct (Hall _ Hin) as (Hv & _ & tm & Htm & _).
  split; [|split; [exact Hv | eauto]].
  rewrite Hv. unfold key_ptrs. apply (list_elem_of_fmap_2 (fun e => e.1.2)), Hin.
Qed.

Lemma key_ptrs_alive (q0 : t) (now : Timestamp) (n : Z) objs m (p : Z) :
  Forall (entry_ok q0 now n objs) m -> p ∈ key_ptrs m -> is_Some (objs !! p).
Proof.
  intros Hall Hin. unfold key_ptrs in Hin.
  apply list_elem_of_fmap in Hin as (entry & -> & Hin).
  destruct (entry_ok_ptr _ _ _ _ _ _ Hall Hin) as (_ & Heq & Hs).
  simpl. rewrite Heq in Hs. exact Hs.
Qed.

Lemma ok_assign (q0 : t) (now : Timestamp) (n : Z) m m' objs objs'
    (e p old : Z) :
  ok q0 now n m objs ->
  p ∉ key_ptrs m ->
  (∀ p', p' ∈ key_ptrs m -> objs' !! p' = objs !! p') ->
  entry_ok q0 now n objs' ((e, p), p) ->
  assign (e, p) p m = (m', old) ->
  old = 0 ∧ ok q0 now n m' objs'
  ∧ ∀ x, x ∈ key_ptrs m' <-> x = p ∨ x ∈ key_ptrs m.
Proof.
  intros [Hnd Hall] Hfresh Hsame Hnew Hassign.
  destruct (assign_fresh (e, p) p m Hfresh) as (m1 & m2 & -> & Heq).
  rewrite Heq in Hassign. injection Hassign as <- <-.
  assert (Hptrs : ∀ x, x ∈ key_ptrs (m1 ++ ((e, p), p) :: m2)
                       <-> x = p ∨ x ∈ key_ptrs (m1 ++ m2)).
  { intros x. unfold key_ptrs. rewrite !fmap_app, fmap_cons, !elem_of_app,
      elem_of_cons. simpl. tauto. }
  split; [reflexivity|]. split; [|exact Hptrs]. split.
  - unfold key_ptrs in *. rewrite fmap_app, fmap_cons. simpl.
    rewrite fmap_app in Hnd, Hfresh.
    apply NoDup_app in Hnd as (Hn1 & Hdisj & Hn2).
    apply not_elem_of_app in Hfresh as [Hf1 Hf2].
    apply NoDup_app. split; [exact Hn1|]. split.
    + intros x Hx. apply not_elem_of_cons. split; [congruence | auto].
    + apply NoDup_cons. split; assumption.
  - assert (Hcarry : ∀ entry, entry ∈ m1 ++ m2 -> entry_ok q0 now n objs' entry).
    { intros entry Hin.
      destruct (entry_ok_ptr _ _ _ _ _ _ Hall Hin) as (Hp & _ & _).
      apply entry_ok_objs with objs; [apply Hsame, Hp|].
      rewrite Forall_forall in Hall. auto. }
    rewrite Forall_forall. intros entry Hin.
    apply elem_of_app in Hin as [Hin|Hin].
    + apply Hcarry, elem_of_app. auto.
    + apply elem_of_cons in Hin as [->|Hin]; [exact Hnew|].
      apply Hcarry, elem_of_app. auto.
Qed.

Lemma ok_remove (q0 : t) (now : Timestamp) (n : Z) (m1 m2 : TimerMap) objs
    (entry : Key * Z) :
  ok q0 now n (m1 ++ entry :: m2) objs ->
  ok q0 now n (m1 ++ m2) (destroy entry.2 objs)
  ∧ ∀ x, x ∈ key_ptrs (m1 ++ m2) -> x ∈ key_ptrs (m1 ++ entry :: m2).
Proof.
  intros [Hnd Hall]. unfold key_ptrs in *.
  rewrite fmap_app, fmap_cons in Hnd.
  apply NoDup_app in Hnd as (Hn1 & Hdisj & Hn2).
  apply NoDup_cons in Hn2 as [Hnot Hn2].
  assert (Hself : entry.2 = entry.1.2).
  { rewrite Forall_forall in Hall. apply Hall, elem_of_app. right.
    apply list_elem_of_here. }
  split; [split|].
  - unfold key_ptrs. rewrite fmap_app.
    apply NoDup_app. split; [exact Hn1|]. split; [|exact Hn2].
    intros x Hx. specialize (Hdisj x Hx). apply not_elem_of_cons in Hdisj. tauto.
  - rewrite Forall_forall in *. intros other Hin.
    assert (Hin' : other ∈ m1 ++ entry :: m2).
    { apply elem_of_app in Hin. apply elem_of_app. rewrite elem_of_cons. tauto. }
    apply entry_ok_objs with objs; [|auto].
    apply destroy_lookup_ne. rewrite Hself.
    destruct (Hall other Hin') as (-> & _).
    apply elem_of_app in Hin as [Hin|Hin].
    + apply (list_elem_of_fmap_2 (fun e => e.1.2)) in Hin.
      specialize (Hdisj _ Hin). apply not_elem_of_cons in Hdisj.
      simpl in Hdisj. intros Heq. apply (proj1 Hdisj). symmetry. exact Heq.
    + apply (list_elem_of_fmap_2 (fun e => e.1.2)) in Hin.
      intros Heq. apply Hnot. simpl in *. rewrite Heq. exact Hin.
  - intros x. rewrite !fmap_app, fmap_cons, !elem_of_app, elem_of_cons. tauto.
Qed.

Lemma ok_erase (q0 : t) (now : Timestamp) (n : Z) k m m' objs (old : Z) :
  ok q0 now n m objs ->
  erase k m = (m', old) ->
  ok q0 now n m' (destroy old objs)
  ∧ ∀ x, x ∈ key_ptrs m' -> x ∈ key_ptrs m.
Proof.
  intros Hok Herase.
  destruct (erase_cases k m) as [[Heq _]|(m1 & m2 & owned & -> & Heq)];
    rewrite Heq in Herase; injection Herase as <- <-.
  - rewrite destroy_null. auto.
  - apply (ok_remove _ _ _ m1 m2 objs (k, owned)). exact Hok.
Qed.

(** *** While the callbacks run *)

Lemma ResetTimerfd_fields (runtime : Timestamp) q :
  let q' := (ResetTimerfd runtime q).2 in
  runningCallback q' = runningCallback q
  ∧ m_timers q' = m_timers q
  ∧ objects q' = objects q
  ∧ (length (settime q') <= length (settime q))%nat.
Proof.
  unfold ResetTimerfd. destruct (settime q) as [|r results] eqn:Hs; simpl.
  - repeat split; lia.
  - repeat split; lia.
Qed.

Lemma CancelInLoop_running (q0 : t) (now : Timestamp) (timeout : list Z)
    (id : Z) q q' :
  callbacks_inv q0 now timeout q ->
  CancelInLoop id q = Some q' ->
  callbacks_inv q0 now timeout q'.
Proof.
  intros Hinv. unfold CancelInLoop.
  destruct (TimerID_Key id q) as [key|]; [|discriminate]. simpl.
  destruct Hinv as (Hrun & Hrest).
  destruct (find key (m_timers q)) as [owned|].
  - rewrite Hrun. simpl. intros [= <-]. split; [exact Hrun | exact Hrest].
  - intros [= <-]. split; [exact Hrun | exact Hrest].
Qed.

Lemma add_running (q0 : t) (now : Timestamp) (timeout : list Z)
    (timer : Z) (callback : list Action) (when : Timestamp) (interval : Z)
    q q' :
  callbacks_inv q0 now timeout q ->
  add timer callback when interval q = Some q' ->
  callbacks_inv q0 now timeout q'.
Proof.
  intros (Hrun & Hcov & Hlen & Hok & Hpend & Hdisj). unfold add.
  destruct (valid_address timer) eqn:Hvalid; [|discriminate].
  destruct (objects q !! timer) eqn:Hfree; [discriminate|].
  set (tm := mkTimer callback when interval).
  set (objs := <[timer := tm]> (objects q)).
  unfold AddInLoop, insert.
  cbn [objects set_timers m_timers].
  assert (Hnew : objs !! timer = Some tm) by apply lookup_insert_eq.
  rewrite Hnew. cbn [mbind option_bind GetRuntime m_runtime tm].
  destruct (assign (when, timer) timer (m_timers q)) as [m' old] eqn:Hassign.
  assert (Hnotin : timer ∉ key_ptrs (m_timers q)).
  { intros Hin. destruct (key_ptrs_alive _ _ _ _ _ _ (proj2 Hok) Hin) as [x Hx].
    congruence. }
  assert (Hsame : ∀ p', p' ∈ key_ptrs (m_timers q) -> objs !! p' = objects q !! p').
  { intros p' Hin. apply lookup_insert_ne. congruence. }
  assert (Hentry : entry_ok q0 now 0 objs ((when, timer), timer)).
  { split; [reflexivity|]. split; [exact Hvalid|]. exists tm.
    split; [exact Hnew|]. split; [reflexivity|]. right. right.
    apply Hcov, Hfree. }
  destruct (ok_assign _ _ _ _ _ _ _ _ _ _ Hok Hnotin Hsame Hentry Hassign)
    as (-> & Hok' & Hptrs).
  rewrite destroy_null.
  assert (Hinv : ∀ q2, runningCallback q2 = true -> m_timers q2 = m' ->
            objects q2 = objs ->
            (length (settime q2) <= length (settime q))%nat ->
            callbacks_inv q0 now timeout q2).
  { intros q2 H1 H2 H3 H4. split; [exact H1|]. split; [|split; [lia|split; [|split]]].
    - rewrite H3. intros p Hp. apply Hcov.
      destruct (decide (p = timer)) as [->|Hne]; [congruence|].
      unfold objs in Hp. rewrite lookup_insert_ne in Hp by congruence. exact Hp.
    - unfold map_ok. rewrite H2, H3. exact Hok'.
    - rewrite H3. eapply Forall_impl; [exact Hpend|].
      intros p (Hv & tm0 & Ha & Hb & Hc). split; [exact Hv|]. exists tm0.
      split; [exact Ha|]. split; [|exact Hc].
      unfold objs. rewrite lookup_insert_ne by congruence. exact Hb.
    - rewrite H2. rewrite Forall_forall in *. intros p Hp Hin.
      apply Hptrs in Hin as [->|Hin]; [|exact (Hdisj _ Hp Hin)].
      destruct (Hpend _ Hp) as (_ & tm0 & _ & Hb & _). congruence. }
  cbn [mbind option_bind].
  match goal with |- (if ?b then _ else _) = _ -> _ => destruct b end.
  - cbn [objects set_timers]. rewrite Hnew. cbn [mbind option_bind].
    intros [= <-].
    match goal with |- context [ResetTimerfd ?r ?q1] =>
      destruct (ResetTimerfd_fields r q1) as (F1 & F2 & F3 & F4) end.
    apply Hinv; [rewrite F1; exact Hrun | rewrite F2; reflexivity
                | rewrite F3; reflexivity | etransitivity; [exact F4|reflexivity]].
  - intros [= <-]. apply Hinv; [exact Hrun | reflexivity | reflexivity | reflexivity].
Qed.

Lemma perform_all_running (q0 : t) (now : Timestamp) (timeout : list Z)
    (callback : list Action) q q' :
  callbacks_inv q0 now timeout q ->
  perform_all callback q = Some q' ->
  callbacks_inv q0 now timeout q'.
Proof.
  revert q. induction callback as [|a callback IH]; intros q Hinv.
  - intros [= <-]. exact Hinv.
  - cbn [perform_all]. destruct (perform a q) as [q1|] eqn:Ha; [|discriminate].
    cbn [mbind option_bind]. apply IH.
    destruct a as [id|timer cb when interval]; cbn [perform cancel] in Ha.
    + eapply CancelInLoop_running; eassumption.
    + eapply add_running; eassumption.
Qed.

Lemma run_each_running (q0 : t) (now : Timestamp) (timeout items : list Z)
    q q' :
  callbacks_inv q0 now timeout q ->
  run_each items q = Some q' ->
  callbacks_inv q0 now timeout q'.
Proof.
  revert q. induction items as [|item items IH]; intros q Hinv.
  - intros [= <-]. exact Hinv.
  - cbn [run_each]. destruct (Timer_run item q) as [q1|] eqn:Hrun; [|discriminate].
    cbn [mbind option_bind]. apply IH.
    unfold Timer_run in Hrun.
    destruct (objects q !! item) as [tm|]; [|discriminate].
    cbn [mbind option_bind] in Hrun.
    eapply perform_all_running; [|exact Hrun]. exact Hinv.
Qed.

(** *** Key order and the calls on the timer-fd, step by step *)

Lemma follows_refl q : follows q q.
Proof. split; [auto | reflexivity]. Qed.

Lemma follows_trans q1 q2 q3 : follows q1 q2 -> follows q2 q3 -> follows q1 q3.
Proof. intros [H1 P1] [H2 P2]. split; [auto | etransitivity; eassumption]. Qed.

Lemma follows_fields q q' :
  m_timers q' = m_timers q -> m_timerfd q' = m_timerfd q -> follows q q'.
Proof. intros Hm Hf. split; [rewrite Hm; auto | rewrite Hf; reflexivity]. Qed.

Lemma ResetTimerfd_follows (runtime : Timestamp) q :
  follows q (ResetTimerfd runtime q).2.
Proof.
  unfold ResetTimerfd.
  destruct (settime q); (split; [auto | apply prefix_app_r; reflexivity]).
Qed.

Lemma add_follows (timer : Z) (callback : list Action) (when : Timestamp)
    (interval : Z) q q' :
  add timer callback when interval q = Some q' -> follows q q'.
Proof.
  unfold add. destruct (valid_address timer); [|discriminate].
  destruct (objects q !! timer); [discriminate|].
  unfold AddInLoop, insert. cbn [objects set_timers m_timers].
  rewrite lookup_insert_eq. cbn [mbind option_bind GetRuntime m_runtime].
  pose proof (sorted_assign (when, timer) timer (m_timers q)) as Hs.
  destruct (assign (when, timer) timer (m_timers q)) as [m' old].
  cbn [fst] in Hs. cbn [mbind option_bind].
  match goal with |- context [set_timers m' ?objs ?q1] =>
    assert (Hq : follows q (set_timers m' objs q1))
      by (split; [exact Hs | reflexivity]);
    generalize dependent (set_timers m' objs q1) end.
  intros q1 Hq.
  match goal with |- (if ?b then _ else _) = _ -> _ => destruct b end.
  - destruct (objects q1 !! timer) as [tm|]; [|discriminate].
    cbn [mbind option_bind]. intros [= <-].
    eapply follows_trans; [exact Hq | apply ResetTimerfd_follows].
  - intros [= <-]. exact Hq.
Qed.

Lemma CancelInLoop_follows (id : Z) q q' :
  CancelInLoop id q = Some q' -> follows q q'.
Proof.
  unfold CancelInLoop. destruct (TimerID_Key id q) as [key|]; [|discriminate].
  cbn [mbind option_bind].
  destruct (find key (m_timers q)) as [owned|].
  - destruct (negb (runningCallback q)).
    + pose proof (sorted_erase key (m_timers q)) as Hs.
      destruct (erase key (m_timers q)) as [m' old]. intros [= <-].
      split; [exact Hs | reflexivity].
    + intros [= <-]. apply follows_fields; reflexivity.
  - intros [= <-]. apply follows_refl.
Qed.

Lemma perform_all_follows (callback : list Action) q q' :
  perform_all callback q = Some q' -> follows q q'.
Proof.
  revert q. induction callback as [|a callback IH]; intros q.
  - intros [= <-]. apply follows_refl.
  - cbn [perform_all]. destruct (perform a q) as [q1|] eqn:Ha; [|discriminate].
    cbn [mbind option_bind]. intros Hrest.
    apply follows_trans with q1; [|exact (IH _ Hrest)].
    destruct a as [id|timer cb when interval]; cbn [perform cancel] in Ha.
    + exact (CancelInLoop_follows _ _ _ Ha).
    + exact (add_follows _ _ _ _ _ _ Ha).
Qed.

Lemma run_each_follows (items : list Z) q q' :
  run_each items q = Some q' -> follows q q'.
Proof.
  revert q. induction items as [|item items IH]; intros q.
  - intros [= <-]. apply follows_refl.
  - cbn [run_each]. destruct (Timer_run item q) as [q1|] eqn:Hrun; [|discriminate].
    cbn [mbind option_bind]. intros Hrest.
    apply follows_trans with q1; [|exact (IH _ Hrest)].
    unfold Timer_run in Hrun.
    destruct (objects q !! item) as [tm|]; [|discriminate].
    cbn [mbind option_bind] in Hrun.
    eapply follows_trans; [|exact (perform_all_follows _ _ _ Hrun)].
    apply follows_fields; reflexivity.
Qed.

Lemma reset_repeating_follows (timeout : list Z) q timeout' q' :
  reset_repeating timeout q = Some (timeout', q') -> follows q q'.
Proof.
  revert q timeout'. induction timeout as [|item timeout IH]; intros q timeout'.
  - intros [= <- <-]. apply follows_refl.
  - cbn [reset_repeating]. destruct (objects q !! item) as [tm|]; [|discriminate].
    cbn [mbind option_bind].
    destruct (IsRepeat tm).
    + pose proof (sorted_assign (GetRuntime (restart tm), item) item (m_timers q))
        as Hs.
      destruct (assign (GetRuntime (restart tm), item) item (m_timers q))
        as [m' old]. cbn [fst] in Hs.
      match goal with |- context [reset_repeating timeout ?q1] =>
        destruct (reset_repeating timeout q1) as [[timeout'' q'']|] eqn:Hrest;
        [|discriminate];
        assert (Hq : follows q q1) by (split; [exact Hs | reflexivity]) end.
      cbn [mbind option_bind]. intros [= <- <-].
      eapply follows_trans; [exact Hq | exact (IH _ _ Hrest)].
    + destruct (reset_repeating timeout q) as [[timeout'' q'']|] eqn:Hrest;
        [|discriminate].
      cbn [mbind option_bind]. intros [= <- <-]. exact (IH _ _ Hrest).
Qed.

Lemma reset_cancelled_follows (ids : list Z) q q' :
  reset_cancelled ids q = Some q' -> follows q q'.
Proof.
  revert q. induction ids as [|it ids IH]; intros q.
  - intros [= <-]. apply follows_refl.
  - cbn [reset_cancelled].
    destruct (TimerID_Key it q) as [key|]; [|discriminate].
    cbn [mbind option_bind].
    pose proof (sorted_erase key (m_timers q)) as Hs.
    destruct (erase key (m_timers q)) as [m' old]. cbn [fst] in Hs.
    intros Hrest. eapply follows_trans; [|exact (IH _ Hrest)].
    split; [exact Hs | reflexivity].
Qed.

(** *** The three loops of [reset] *)

Lemma reset_repeating_ok (q0 : t) (now : Timestamp) (timeout : list Z) :
  ∀ q timeout' q',
    map_ok q0 now 1 q ->
    timeout_ok q0 now timeout q ->
    NoDup timeout ->
    reset_repeating timeout q = Some (timeout', q') ->
    map_ok q0 now 1 q' ∧ settime q' = settime q
    ∧ m_cancelledSoon q' = m_cancelledSoon q.
Proof.
  induction timeout as [|item timeout IH]; intros q timeout' q' Hok Hto Hnd.
  - intros [= <- <-]. auto.
  - destruct Hto as [Hpend Hdisj].
    apply Forall_cons in Hpend as [Hitem Hpend].
    apply Forall_cons in Hdisj as [Hnotin Hdisj].
    apply NoDup_cons in Hnd as [Hfirst Hnd].
    destruct Hitem as (Hvalid & tm0 & Hq0 & Hobj & Hheld & Hdue).
    cbn [reset_repeating]. rewrite Hobj. cbn [mbind option_bind].
    destruct (IsRepeat tm0) eqn:Hrep.
    + set (objs := <[item := restart tm0]> (objects q)).
      destruct (assign (GetRuntime (restart tm0), item) item (m_timers q))
        as [m' old] eqn:Hassign.
      assert (Hsame : ∀ p', p' ∈ key_ptrs (m_timers q) ->
                objs !! p' = objects q !! p').
      { intros p' Hin. apply lookup_insert_ne. congruence. }
      assert (Hentry : entry_ok q0 now 1 objs
                         ((GetRuntime (restart tm0), item), item)).
      { split; [reflexivity|]. split; [exact Hvalid|]. exists (restart tm0).
        split; [apply lookup_insert_eq|]. split; [reflexivity|]. right. left.
        split.
        - exists tm0, 1. cbn [fst snd]. repeat split; try assumption; try lia.
          unfold GetRuntime, restart. cbn [m_runtime]. lia.
        - intros tm0' H'. cbn [snd] in H'. rewrite Hq0 in H'.
          injection H' as <-. reflexivity. }
      destruct (ok_assign _ _ _ _ _ _ _ _ _ _ Hok Hnotin Hsame Hentry Hassign)
        as (-> & Hok' & Hptrs).
      rewrite destroy_null.
      destruct (reset_repeating timeout (set_timers m' objs q))
        as [[timeout'' q'']|] eqn:Hrest; [|discriminate].
      cbn [mbind option_bind]. intros [= <- <-].
      assert (Hto : timeout_ok q0 now timeout (set_timers m' objs q)).
      { split; cbn [objects m_timers set_timers].
        - rewrite Forall_forall in *. intros p Hp.
          destruct (Hpend _ Hp) as (Hv & tm1 & Ha & Hb & Hc).
          split; [exact Hv|]. exists tm1. split; [exact Ha|]. split; [|exact Hc].
          unfold objs. rewrite lookup_insert_ne; [exact Hb|]. congruence.
        - rewrite Forall_forall in *. intros p Hp Hin.
          apply Hptrs in Hin as [->|Hin]; [contradiction|].
          exact (Hdisj _ Hp Hin). }
      exact (IH (set_timers m' objs q) _ _ Hok' Hto Hnd Hrest).
    + destruct (reset_repeating timeout q) as [[timeout'' q'']|] eqn:Hrest;
        [|discriminate].
      cbn [mbind option_bind]. intros [= <- <-].
      exact (IH _ _ _ Hok (conj Hpend Hdisj) Hnd Hrest).
Qed.

Lemma reset_cancelled_ok (q0 : t) (now : Timestamp) (n : Z) (ids : list Z) :
  ∀ q q',
    map_ok q0 now n q ->
    reset_cancelled ids q = Some q' ->
    map_ok q0 now n q' ∧ settime q' = settime q.
Proof.
  induction ids as [|it ids IH]; intros q q' Hok.
  - intros [= <-]. auto.
  - cbn [reset_cancelled].
    destruct (TimerID_Key it q) as [key|]; [|discriminate].
    cbn [mbind option_bind].
    destruct (erase key (m_timers q)) as [m' old] eqn:Herase.
    intros Hrest. apply IH in Hrest; [exact Hrest|].
    exact (proj1 (ok_erase _ _ _ _ _ _ _ _ Hok Herase)).
Qed.

Lemma reset_timerfd_ok (q0 : t) (now : Timestamp) (results : list Z) :
  ∀ (n : Z) q q',
    map_ok q0 now n q ->
    sorted (m_timers q) = true ->
    reset_timerfd results q = Some q' ->
    map_ok q0 now (n + Z.of_nat (length results)) q'
    ∧ sorted (m_timers q') = true
    ∧ ∃ calls,
        m_timerfd q' = m_timerfd q ++ calls
        ∧ match m_timers q' with
          | [] => True
          | entry :: _ => (entry.1.1, 0) ∈ calls
          end.
Proof.
  induction results as [|r results IH]; intros n q q' Hok Hs.
  - cbn [reset_timerfd length]. rewrite Z.add_0_r.
    destruct (m_timers q) as [|[k owned] m] eqn:Hm.
    + intros [= <-]. split; [exact Hok|]. split; [rewrite Hm; reflexivity|].
      exists []. rewrite app_nil_r, Hm. auto.
    + destruct (objects q !! owned) as [tm|] eqn:Htm; [|discriminate].
      cbn [mbind option_bind]. intros [= <-].
      split; [exact Hok|]. cbn [set_timerfd m_timers m_timerfd].
      split; [rewrite Hm; exact Hs|]. eexists. split; [reflexivity|].
      rewrite Hm. destruct Hok as [_ Hall]. rewrite Hm in Hall.
      apply Forall_cons in Hall as [(Hself & _ & tm' & Htm' & Hrt & _) _].
      cbn [fst snd] in *. rewrite Htm in Htm'. injection Htm' as <-.
      unfold GetRuntime. rewrite Hrt. apply list_elem_of_here.
  - assert (Hweak : map_ok q0 now (n + Z.of_nat (length (r :: results))) q).
    { destruct Hok as [Hnd Hall]. split; [exact Hnd|].
      eapply Forall_impl; [exact Hall|]. intros entry.
      apply entry_ok_mono. lia. }
    cbn [reset_timerfd].
    destruct (m_timers q) as [|[k owned] m] eqn:Hm.
    { intros [= <-]. split; [exact Hweak|]. split; [rewrite Hm; reflexivity|].
      exists []. rewrite app_nil_r, Hm. auto. }
    destruct (objects q !! owned) as [tm|] eqn:Htm; [|discriminate].
    cbn [mbind option_bind].
    cbn [set_timerfd m_timers objects]. rewrite Hm.
    unfold map_ok in Hok. rewrite Hm in Hok.
    assert (Hhead : entry_ok q0 now n (objects q) (k, owned)).
    { destruct Hok as [_ Hall]. apply Forall_cons in Hall. tauto. }
    destruct Hhead as (Hself & Hvalid & tm' & Htm' & Hrt & Hclass).
    cbn [fst snd] in *. rewrite Htm in Htm'. injection Htm' as <-.
    destruct k as [e p]. cbn [fst snd] in *. subst owned.
    destruct (Z.eqb_spec r 0) as [->|Hr].
    { intros [= <-]. split; [exact Hweak|]. cbn [set_timerfd m_timers m_timerfd].
      split; [rewrite Hm; exact Hs|]. eexists. split; [reflexivity|].
      rewrite Hm. unfold GetRuntime. rewrite Hrt. apply list_elem_of_here. }
    destruct (ok_remove q0 now n [] m (objects q) ((e, p), p) Hok)
      as [Htail _]. cbn [app snd] in Htail.
    apply sorted_cons in Hs as [Hfirst Hs].
    set (qr := set_timerfd (GetRuntime tm) r results q).
    assert (Hstep : ∀ m1 objs1,
              ok q0 now (n + 1) m1 objs1 ->
              sorted m1 = true ->
              reset_timerfd results (set_timers m1 objs1 qr) = Some q' ->
              map_ok q0 now (n + Z.of_nat (length (r :: results))) q'
              ∧ sorted (m_timers q') = true
              ∧ ∃ calls,
                  m_timerfd q' = m_timerfd q ++ calls
                  ∧ match m_timers q' with
                    | [] => True
                    | entry :: _ => (entry.1.1, 0) ∈ calls
                    end).
    { intros m1 objs1 Hok1 Hs1 Hrest.
      apply (IH (n + 1)) in Hrest; [|exact Hok1|exact Hs1].
      destruct Hrest as (Hmap & Hsorted & calls & Hlog & Hexit).
      replace (n + Z.of_nat (length (r :: results)))
        with (n + 1 + Z.of_nat (length results)) by (cbn [length]; lia).
      split; [exact Hmap|]. split; [exact Hsorted|].
      exists ((GetRuntime tm, r) :: calls). split.
      - rewrite Hlog. unfold qr. cbn [set_timers set_timerfd m_timerfd].
        rewrite <- app_assoc. reflexivity.
      - destruct (m_timers q'); [exact I|]. apply list_elem_of_further, Hexit. }
    destruct (IsRepeat tm) eqn:Hrep.
    + unfold IsRepeat in Hrep. apply Z.ltb_lt in Hrep.
      unfold GetRuntime, restart. cbn [m_runtime]. rewrite Hrt.
      destruct (key_ltb_advance e (m_interval tm) p Hrep) as (Hlt & Hgt & Hne).
      rewrite Hne. cbn [assign]. rewrite Hgt, Hlt.
      pose proof (sorted_assign (e + m_interval tm, p) p m Hs) as Hs'.
      destruct (assign (e + m_interval tm, p) p m) as [m' old] eqn:Hassign.
      set (objs := <[p := mkTimer (m_callback tm) (e + m_interval tm)
                            (m_interval tm)]> (objects q)).
      assert (Hnotin : p ∉ key_ptrs m).
      { destruct Hok as [Hnd _]. unfold key_ptrs in Hnd.
        rewrite fmap_cons in Hnd. apply NoDup_cons in Hnd. tauto. }
      assert (Hok1 : ok q0 now (n + 1) m (objects q)).
      { destruct Hok as [Hnd Hall]. split.
        - unfold key_ptrs in *. rewrite fmap_cons in Hnd.
          apply NoDup_cons in Hnd. tauto.
        - apply Forall_cons in Hall as [_ Hall].
          eapply Forall_impl; [exact Hall|]. intros entry.
          apply entry_ok_mono. lia. }
      assert (Hsame : ∀ p', p' ∈ key_ptrs m -> objs !! p' = objects q !! p').
      { intros p' Hin. apply lookup_insert_ne. congruence. }
      assert (Hentry : entry_ok q0 now (n + 1) objs
                         ((e + m_interval tm, p), p)).
      { split; [reflexivity|]. split; [exact Hvalid|].
        eexists. split; [apply lookup_insert_eq|]. split; [reflexivity|].
        cbn [fst snd m_interval].
        destruct Hclass as [Hafter|[[Hre Hitv]|Hadded]].
        - left. lia.
        - right. left. split; [|exact Hitv].
          destruct Hre as (tm0 & j & H1 & H2 & H3 & H4 & H5 & H6).
          cbn [fst snd] in *. exists tm0, (j + 1).
          repeat split; try assumption; try lia.
          cbn [fst]. rewrite (Hitv tm0 H1). lia.
        - right. right. exact Hadded. }
      destruct (ok_assign _ _ _ _ _ _ _ _ _ _ Hok1 Hnotin Hsame Hentry Hassign)
        as (-> & Hok' & _).
      cbn [release]. rewrite key_eqb_refl. rewrite !destroy_null.
      apply Hstep; [exact Hok' | exact Hs'].
    + apply Hstep; [|exact Hs]. destruct Htail as [Hnd Hall]. split; [exact Hnd|].
      eapply Forall_impl; [exact Hall|]. intros entry. apply entry_ok_mono. lia.
Qed.

(** *** Well-formed queues and the extraction *)

Lemma owns_spec objs (entry : Z * Z * Z) :
  owns objs entry = true
  <-> entry.2 = entry.1.2 ∧ valid_address entry.2 = true
      ∧ ∃ tm, objs !! entry.2 = Some tm ∧ m_runtime tm = entry.1.1.
Proof.
  unfold owns, GetRuntime. rewrite !andb_true_iff, Z.eqb_eq.
  destruct (objs !! entry.2) as [tm|].
  - rewrite Z.eqb_eq. split.
    + intros [[H1 H2] H3]. eauto.
    + intros (H1 & H2 & tm' & [= <-] & H3). auto.
  - split; [intros [_ H]; discriminate|].
    intros (_ & _ & tm & H & _). discriminate.
Qed.

Lemma well_formed_spec q :
  well_formed q = true ->
  sorted (m_timers q) = true
  ∧ Forall (fun entry => owns (objects q) entry = true) (m_timers q).
Proof.
  unfold well_formed. rewrite andb_true_iff, forallb_forall, Forall_forall.
  intros [Hs Ho]. split; [exact Hs|]. intros entry Hin.
  apply Ho, list_elem_of_In, Hin.
Qed.

Lemma sorted_NoDup objs m :
  sorted m = true ->
  Forall (fun entry => owns objs entry = true) m ->
  NoDup (key_ptrs m).
Proof.
  induction m as [|entry m IH]; intros Hs Ho; [constructor|].
  apply Forall_cons in Ho as [Hentry Ho].
  unfold key_ptrs. rewrite fmap_cons. apply NoDup_cons. split.
  - intros Hin. apply list_elem_of_fmap in Hin as (later & Heq & Hin).
    pose proof (sorted_head _ _ Hs) as Hlt. rewrite Forall_forall in Hlt, Ho.
    specialize (Hlt _ Hin). specialize (Ho _ Hin).
    apply owns_spec in Hentry as (He1 & _ & tm & Htm & Hrt).
    apply owns_spec in Ho as (Hl1 & _ & tm' & Htm' & Hrt').
    simpl in Heq. rewrite Hl1, <- Heq, <- He1, Htm in Htm'.
    injection Htm' as <-.
    assert (Hsame : entry.1 = later.1).
    { destruct entry as [[e p] v], later as [[e' p'] v']. simpl in *. congruence. }
    rewrite Hsame, key_ltb_irrefl in Hlt. discriminate.
  - apply IH; [exact (sorted_tail _ _ Hs) | exact Ho].
Qed.

Lemma GetTimeout_extracts (now : Timestamp) q :
  well_formed q = true ->
  ∃ before,
    m_timers q = before ++ m_timers (GetTimeout now q).2
    ∧ (GetTimeout now q).1 = before.*2
    ∧ objects (GetTimeout now q).2 = objects q
    ∧ settime (GetTimeout now q).2 = settime q
    ∧ Forall (fun entry => entry.1.1 <= now) before
    ∧ Forall (fun entry => now < entry.1.1) (m_timers (GetTimeout now q).2).
Proof.
  intros Hwf. apply well_formed_spec in Hwf as [Hs Ho].
  unfold GetTimeout.
  destruct (lower_bound_split (now, UINTPTR_MAX) (m_timers q))
    as (Happ & Hbefore & Hrest).
  destruct (lower_bound (now, UINTPTR_MAX) (m_timers q)) as [before rest].
  cbn [fst snd] in *. exists before. cbn [m_timers objects settime set_timers].
  repeat split; try assumption; try reflexivity.
  - eapply Forall_impl; [exact Hbefore|]. intros entry Hlt.
    apply key_ltb_lt in Hlt. simpl in Hlt. lia.
  - rewrite Happ in Hs, Ho. apply sorted_app_r in Hs.
    apply Forall_app in Ho as [_ Ho].
    destruct rest as [|first rest]; [constructor|].
    pose proof (sorted_head _ _ Hs) as Hlater.
    assert (Hnot : ∀ entry, entry ∈ first :: rest ->
              key_ltb entry.1 (now, UINTPTR_MAX) = false).
    { intros entry Hin. apply elem_of_cons in Hin as [->|Hin]; [exact Hrest|].
      rewrite Forall_forall in Hlater. specialize (Hlater _ Hin).
      destruct (key_ltb entry.1 (now, UINTPTR_MAX)) eqn:Hlt; [|reflexivity].
      rewrite (key_ltb_trans _ _ _ Hlater Hlt) in Hrest. discriminate. }
    rewrite Forall_forall in *. intros entry Hin.
    specialize (Hnot _ Hin). specialize (Ho _ Hin).
    apply owns_spec in Ho as (Hself & Hvalid & _).
    unfold valid_address in Hvalid. apply andb_true_iff in Hvalid as [_ Hmax].
    apply Z.ltb_lt in Hmax. rewrite Hself in Hmax.
    destruct (Z.lt_ge_cases now entry.1.1) as [|Hle]; [assumption|].
    exfalso. assert (Hlt : key_ltb entry.1 (now, UINTPTR_MAX) = true).
    { apply key_ltb_lt. simpl. lia. }
    congruence.
Qed.

Lemma GetTimeout_running (now : Timestamp) q :
  well_formed q = true ->
  callbacks_inv q now (GetTimeout now q).1
    (set_runningCallback true (GetTimeout now q).2)
  ∧ NoDup (GetTimeout now q).1.
Proof.
  intros Hwf.
  destruct (GetTimeout_extracts now q Hwf)
    as (before & Happ & Hto & Hobjs & Hset & Hdue & Hafter).
  apply well_formed_spec in Hwf as [Hs Ho].
  pose proof (sorted_NoDup _ _ Hs Ho) as Hnd.
  rewrite Happ in Hnd, Ho. unfold key_ptrs in Hnd. rewrite fmap_app in Hnd.
  apply NoDup_app in Hnd as (Hnd1 & Hdisj & Hnd2).
  apply Forall_app in Ho as [Ho1 Ho2].
  assert (Hvals : before.*2 = key_ptrs before).
  { unfold key_ptrs. apply Forall_fmap_ext.
    eapply Forall_impl; [exact Ho1|]. intros entry Hown.
    apply owns_spec in Hown. tauto. }
  rewrite Hto, Hvals. split; [|exact Hnd1].
  split; [reflexivity|]. cbn [objects settime m_timers set_runningCallback].
  rewrite Hobjs, Hset. split; [intros p Hp; exact Hp|]. split; [lia|]. split.
  - split; cbn [objects settime m_timers set_runningCallback].
    + exact Hnd2.
    + rewrite Hobjs. rewrite Forall_forall in *. intros entry Hin.
      specialize (Ho2 _ Hin). apply owns_spec in Ho2 as (H1 & H2 & tm & H3 & H4).
      split; [exact H1|]. split; [exact H2|]. exists tm.
      split; [exact H3|]. split; [exact H4|]. left. auto.
  - split; cbn [objects settime m_timers set_runningCallback].
    + rewrite Hobjs. unfold key_ptrs. rewrite Forall_forall in Ho1.
      rewrite Forall_forall. intros p Hp. apply list_elem_of_fmap in Hp as (entry & -> & Hin).
      specialize (Ho1 _ Hin). apply owns_spec in Ho1 as (H1 & H2 & tm & H3 & H4).
      rewrite <- H1. split; [exact H2|]. exists tm.
      split; [exact H3|]. split; [exact H3|]. split.
      * rewrite Happ. apply elem_of_app. left.
        destruct entry as [[e p] v]. simpl in *. subst. exact Hin.
      * rewrite H4. rewrite Forall_forall in Hdue. auto.
    + rewrite Forall_forall. intros p Hp. apply Hdisj, Hp.
Qed.

(** *** The expiry handler *)





(** *** A cancel issued from a callback of the batch *)

(** While the callbacks run, the map holds nothing at the address of a
    timer of the batch: a cancel for it finds nothing, whatever expiry the
    key it looks up carries. *)
Lemma cancel_in_batch_finds_nothing (q0 : t) (now : Timestamp)
    (timeout : list Z) q (item : Z) (e : Timestamp) :
  callbacks_inv q0 now timeout q ->
  item ∈ timeout ->
  find (e, item) (m_timers q) = None.
Proof.
  intros (_ & _ & _ & Hok & _ & Hdisj) Hin.
  rewrite Forall_forall in Hdisj. specialize (Hdisj _ Hin).
  destruct (find (e, item) (m_timers q)) as [owned|] eqn:Hfind; [|reflexivity].
  exfalso. apply Hdisj. apply find_Some in Hfind.
  unfold key_ptrs.
  apply (list_elem_of_fmap_2 (fun entry => entry.1.2)) in Hfind. exact Hfind.
Qed.

Lemma add_cancelledSoon (timer : Z) (callback : list Action)
    (when : Timestamp) (interval : Z) q q' :
  add timer callback when interval q = Some q' ->
  m_cancelledSoon q' = m_cancelledSoon q.
Proof.
  unfold add. destruct (valid_address timer); [|discriminate].
  destruct (objects q !! timer); [discriminate|].
  unfold AddInLoop, insert. cbn [objects set_timers m_timers].
  rewrite lookup_insert_eq. cbn [mbind option_bind].
  destruct (assign _ timer (m_timers q)) as [m' old].
  cbn [mbind option_bind].
  match goal with |- (if ?b then _ else _) = _ -> _ => destruct b end.
  - match goal with |- context [objects ?q1 !! timer] =>
      destruct (objects q1 !! timer) end; [|discriminate].
    cbn [mbind option_bind]. intros [= <-].
    unfold ResetTimerfd. cbn [settime set_timers].
    destruct (settime q); reflexivity.
  - intros [= <-]. reflexivity.
Qed.

Lemma perform_cancelled (q0 : t) (now : Timestamp) (timeout : list Z)
    (a : Action) q q' :
  callbacks_inv q0 now timeout q ->
  Forall (fun id => id ∉ timeout) (m_cancelledSoon q) ->
  perform a q = Some q' ->
  Forall (fun id => id ∉ timeout) (m_cancelledSoon q').
Proof.
  intros Hinv Hc. destruct a as [id|timer cb when interval]; cbn [perform cancel].
  - unfold cancel, CancelInLoop.
    destruct (TimerID_Key id q) as [key|]; [|discriminate].
    cbn [mbind option_bind].
    destruct (find key (m_timers q)) as [owned|] eqn:Hfind;
      [|intros [= <-]; exact Hc].
    destruct Hinv as (Hrun & _ & _ & Hok & _ & Hdisj). rewrite Hrun.
    cbn [negb]. intros [= <-]. cbn [m_cancelledSoon set_cancelledSoon].
    apply Forall_app. split; [exact Hc|]. constructor; [|constructor].
    intros Hin. rewrite Forall_forall in Hdisj. apply (Hdisj _ Hin).
    apply find_Some in Hfind.
    destruct (entry_ok_ptr _ _ _ _ _ _ (proj2 Hok) Hfind) as (Hp & _).
    exact Hp.
  - intros Hadd. rewrite (add_cancelledSoon _ _ _ _ _ _ Hadd). exact Hc.
Qed.

Lemma run_each_cancelled (q0 : t) (now : Timestamp) (timeout items : list Z)
    q q' :
  callbacks_inv q0 now timeout q ->
  Forall (fun id => id ∉ timeout) (m_cancelledSoon q) ->
  run_each items q = Some q' ->
  Forall (fun id => id ∉ timeout) (m_cancelledSoon q').
Proof.
  assert (Hall : ∀ callback q q',
            callbacks_inv q0 now timeout q ->
            Forall (fun id => id ∉ timeout) (m_cancelledSoon q) ->
            perform_all callback q = Some q' ->
            Forall (fun id => id ∉ timeout) (m_cancelledSoon q')).
  { induction callback as [|a callback IH]; intros q1 q1' Hinv Hc.
    - intros [= <-]. exact Hc.
    - cbn [perform_all]. destruct (perform a q1) as [q2|] eqn:Ha; [|discriminate].
      cbn [mbind option_bind]. apply IH.
      + eapply (perform_all_running _ _ _ [a]); [exact Hinv|].
        cbn [perform_all]. rewrite Ha. reflexivity.
      + eapply perform_cancelled; eassumption. }
  revert q. induction items as [|item items IH]; intros q Hinv Hc.
  - intros [= <-]. exact Hc.
  - cbn [run_each]. destruct (Timer_run item q) as [q1|] eqn:Hrun; [|discriminate].
    cbn [mbind option_bind]. apply IH.
    + eapply (run_each_running _ _ _ [item]); [exact Hinv|].
      cbn [run_each]. rewrite Hrun. reflexivity.
    + unfold Timer_run in Hrun.
      destruct (objects q !! item) as [tm|]; [|discriminate].
      cbn [mbind option_bind] in Hrun.
      eapply Hall; [| |exact Hrun]; [exact Hinv | exact Hc].
Qed.

Lemma reset_repeating_holds (q0 : t) (now : Timestamp) (timeout : list Z) :
  ∀ q timeout' q',
    map_ok q0 now 1 q ->
    timeout_ok q0 now timeout q ->
    NoDup timeout ->
    reset_repeating timeout q = Some (timeout', q') ->
    (∀ entry, entry ∈ m_timers q -> entry ∈ m_timers q')
    ∧ ∀ item tm0,
        item ∈ timeout -> objects q0 !! item = Some tm0 ->
        IsRepeat tm0 = true ->
        ((m_runtime tm0 + m_interval tm0, item), item) ∈ m_timers q'.
Proof.
  induction timeout as [|item timeout IH]; intros q timeout' q' Hok Hto Hnd.
  - intros [= <- <-]. split; [auto|]. intros item tm0 Hin.
    apply elem_of_nil in Hin. contradiction.
  - intros Hreset.
    assert (Hreset' := Hreset).
    destruct Hto as [Hpend Hdisj].
    apply Forall_cons in Hpend as [Hitem Hpend].
    apply Forall_cons in Hdisj as [Hnotin Hdisj].
    apply NoDup_cons in Hnd as [Hfirst Hnd].
    destruct Hitem as (Hvalid & tm0 & Hq0 & Hobj & Hheld & Hdue).
    cbn [reset_repeating] in Hreset. rewrite Hobj in Hreset.
    cbn [mbind option_bind] in Hreset.
    destruct (IsRepeat tm0) eqn:Hrep.
    + set (objs := <[item := restart tm0]> (objects q)) in *.
      destruct (assign (GetRuntime (restart tm0), item) item (m_timers q))
        as [m' old] eqn:Hassign.
      assert (Hsame : ∀ p', p' ∈ key_ptrs (m_timers q) ->
                objs !! p' = objects q !! p').
      { intros p' Hin. apply lookup_insert_ne. congruence. }
      assert (Hentry : entry_ok q0 now 1 objs
                         ((GetRuntime (restart tm0), item), item)).
      { split; [reflexivity|]. split; [exact Hvalid|]. exists (restart tm0).
        split; [apply lookup_insert_eq|]. split; [reflexivity|]. right. left.
        split.
        - exists tm0, 1. cbn [fst snd]. repeat split; try assumption; try lia.
          unfold GetRuntime, restart. cbn [m_runtime]. lia.
        - intros tm0' H'. cbn [snd] in H'. rewrite Hq0 in H'.
          injection H' as <-. reflexivity. }
      destruct (assign_fresh (GetRuntime (restart tm0), item) item (m_timers q)
                  Hnotin) as (m1 & m2 & Hm & Hshape).
      destruct (ok_assign _ _ _ _ _ _ _ _ _ _ Hok Hnotin Hsame Hentry Hassign)
        as (-> & Hok' & Hptrs).
      rewrite Hassign in Hshape. injection Hshape as ->.
      rewrite destroy_null in Hreset.
      destruct (reset_repeating timeout (set_timers (m1 ++ _ :: m2) objs q))
        as [[timeout'' q'']|] eqn:Hrest; [|discriminate].
      cbn [mbind option_bind] in Hreset. injection Hreset as <- <-.
      assert (Hto : timeout_ok q0 now timeout
                      (set_timers (m1 ++ ((GetRuntime (restart tm0), item), item)
                                      :: m2) objs q)).
      { split; cbn [objects m_timers set_timers].
        - rewrite Forall_forall in *. intros p Hp.
          destruct (Hpend _ Hp) as (Hv & tm1 & Ha & Hb & Hc).
          split; [exact Hv|]. exists tm1. split; [exact Ha|]. split; [|exact Hc].
          unfold objs. rewrite lookup_insert_ne; [exact Hb|]. congruence.
        - rewrite Forall_forall in *. intros p Hp Hin.
          apply Hptrs in Hin as [->|Hin]; [contradiction|].
          exact (Hdisj _ Hp Hin). }
      destruct (IH (set_timers _ objs q) _ _ Hok' Hto Hnd Hrest)
        as [Hkeep Hheld'].
      cbn [m_timers set_timers] in Hkeep.
      split.
      * intros entry Hin. apply Hkeep. rewrite Hm in Hin.
        apply elem_of_app in Hin. apply elem_of_app.
        rewrite elem_of_cons. tauto.
      * intros it tm1 Hin Hq1 Hrep1.
        apply elem_of_cons in Hin as [->|Hin]; [|eauto].
        rewrite Hq0 in Hq1. injection Hq1 as <-.
        apply Hkeep. apply elem_of_app. right. apply list_elem_of_here.
    + destruct (reset_repeating timeout q) as [[timeout'' q'']|] eqn:Hrest;
        [|discriminate].
      cbn [mbind option_bind] in Hreset. injection Hreset as <- <-.
      destruct (IH _ _ _ Hok (conj Hpend Hdisj) Hnd Hrest) as [Hkeep Hheld'].
      split; [exact Hkeep|].
      intros it tm1 Hin Hq1 Hrep1.
      apply elem_of_cons in Hin as [->|Hin]; [|eauto].
      rewrite Hq0 in Hq1. injection Hq1 as <-. congruence.
Qed.

Lemma reset_cancelled_keeps (ids : list Z) :
  ∀ q q' (entry : Z * Z * Z),
    reset_cancelled ids q = Some q' ->
    entry ∈ m_timers q -> entry.1.2 ∉ ids -> entry ∈ m_timers q'.
Proof.
  induction ids as [|it ids IH]; intros q q' entry.
  - intros [= <-]. auto.
  - cbn [reset_cancelled]. unfold TimerID_Key.
    destruct (objects q !! it) as [tm|]; [|discriminate].
    cbn [mbind option_bind].
    destruct (erase_cases (GetRuntime tm, it) (m_timers q))
      as [[Heq _]|(m1 & m2 & owned & Hm & Heq)]; rewrite Heq.
    + intros Hrest Hin Hnot. apply not_elem_of_cons in Hnot as [_ Hnot].
      exact (IH _ _ _ Hrest Hin Hnot).
    + intros Hrest Hin Hnot. apply not_elem_of_cons in Hnot as [Hne Hnot].
      apply (IH _ _ _ Hrest); [|exact Hnot]. cbn [m_timers set_timers].
      rewrite Hm in Hin. apply elem_of_app in Hin. apply elem_of_app.
      rewrite elem_of_cons in Hin. destruct Hin as [Hin|[->|Hin]]; auto.
      exfalso. apply Hne. reflexivity.
Qed.

Lemma reset_timerfd_accepted q q' :
  reset_timerfd [] q = Some q' -> m_timers q' = m_timers q.
Proof.
  cbn [reset_timerfd]. destruct (m_timers q) as [|[k owned] m] eqn:Hm.
  - intros [= <-]. exact Hm.
  - destruct (objects q !! owned); [|discriminate].
    cbn [mbind option_bind]. intros [= <-]. cbn [m_timers set_timerfd].
    exact Hm.
Qed.

(** A repeating timer that fires is held again after the handler, under
    its next expiry, whatever the callbacks of the batch did, a cancel of
    the timer included ([ResetTimerfd] returning 0). *)
Lemma firing_repeater_is_rearmed (now : Timestamp) q q' (p : Z) (tm : Timer) :
  well_formed q = true ->
  m_cancelledSoon q = [] ->
  settime q = [] ->
  HandleTimerfd now q = Some q' ->
  ((m_runtime tm, p), p) ∈ m_timers q ->
  objects q !! p = Some tm ->
  m_runtime tm <= now ->
  IsRepeat tm = true ->
  ((m_runtime tm + m_interval tm, p), p) ∈ m_timers q'.
Proof.
  intros Hwf Hnone Hquiet Hrun Hheld Hobj Hdue Hrep.
  destruct (GetTimeout_running now q Hwf) as [Hinv Hnd].
  destruct (GetTimeout_extracts now q Hwf)
    as (before & Happ & Hto & _ & _ & _ & Hafter).
  assert (Hbatch : p ∈ (GetTimeout now q).1).
  { rewrite Hto. rewrite Happ in Hheld. apply elem_of_app in Hheld as [Hin|Hin].
    - apply (list_elem_of_fmap_2 snd) in Hin. exact Hin.
    - rewrite Forall_forall in Hafter. specialize (Hafter _ Hin).
      simpl in Hafter. lia. }
  assert (Hcancelled : m_cancelledSoon (GetTimeout now q).2 = []).
  { unfold GetTimeout. destruct (lower_bound _ _). exact Hnone. }
  unfold HandleTimerfd in Hrun.
  destruct (GetTimeout now q) as [timeout q1]. cbn [fst snd] in *.
  destruct (run_each timeout (set_runningCallback true q1)) as [q2|] eqn:Hcb;
    [|discriminate].
  cbn [mbind option_bind] in Hrun.
  assert (Hc2 : Forall (fun id => id ∉ timeout) (m_cancelledSoon q2)).
  { eapply run_each_cancelled; [exact Hinv| |exact Hcb].
    cbn [m_cancelledSoon set_runningCallback]. rewrite Hcancelled. constructor. }
  apply (run_each_running _ _ _ _ _ _ Hinv) in Hcb.
  destruct Hcb as (_ & _ & Hlen & Hok & Hto2).
  destruct (reset timeout (set_runningCallback false q2)) as [[timeout' q3]|]
    eqn:Hreset; [|discriminate].
  cbn [mbind option_bind] in Hrun. injection Hrun as <-.
  cbn [m_timers set_timers]. unfold reset in Hreset.
  destruct (reset_repeating timeout (set_runningCallback false q2))
    as [[timeout'' qa]|] eqn:Ha; [|discriminate].
  cbn [mbind option_bind] in Hreset.
  destruct (reset_cancelled (m_cancelledSoon qa) qa) as [qb|] eqn:Hb;
    [|discriminate].
  cbn [mbind option_bind] in Hreset.
  destruct (reset_timerfd (settime (set_cancelledSoon [] qb))
              (set_cancelledSoon [] qb)) as [qc|] eqn:Hc; [|discriminate].
  cbn [mbind option_bind] in Hreset. injection Hreset as <- <-.
  assert (Hok1 : map_ok q now 1 (set_runningCallback false q2)).
  { destruct Hok as [H1 H2]. split; [exact H1|].
    eapply Forall_impl; [exact H2|]. intros entry. apply entry_ok_mono. lia. }
  destruct (reset_repeating_ok _ _ _ _ _ _ Hok1 Hto2 Hnd Ha)
    as (Hoka & Hseta & Hcsa).
  destruct (reset_repeating_holds _ _ _ _ _ _ Hok1 Hto2 Hnd Ha) as [_ Hheld'].
  destruct (reset_cancelled_ok _ _ _ _ _ _ Hoka Hb) as (_ & Hsetb).
  specialize (Hheld' p tm Hbatch Hobj Hrep).
  apply (reset_cancelled_keeps _ _ _ _ Hb) in Hheld'.
  - cbn [settime set_cancelledSoon] in Hc.
    rewrite Hsetb, Hseta in Hc. cbn [settime set_runningCallback] in Hc.
    assert (Hempty : settime q2 = []).
    { rewrite Hquiet in Hlen. destruct (settime q2); [reflexivity|].
      cbn [length] in Hlen. lia. }
    rewrite Hempty in Hc. rewrite (reset_timerfd_accepted _ _ Hc).
    exact Hheld'.
  - cbn [fst snd]. rewrite Hcsa. cbn [m_cancelledSoon set_runningCallback].
    rewrite Forall_forall in Hc2. intros Hin. exact (Hc2 _ Hin Hbatch).
Qed.

(** A cancel for a live timer that the map does not hold changes nothing:
    this is where the cancel of a timer that [GetTimeout] has taken out,
    issued from a callback, is lost. *)
Lemma CancelInLoop_not_held (id : Z) (tm : Timer) q :
  objects q !! id = Some tm ->
  find (GetRuntime tm, id) (m_timers q) = None ->
  CancelInLoop id q = Some q.
Proof.
  intros Hobj Hfind. unfold CancelInLoop, TimerID_Key. rewrite Hobj.
  cbn [mbind option_bind]. rewrite Hfind. reflexivity.
Qed.

(** C1 fails on the code. A repeating timer (expiry 10, interval 5) whose
    callback cancels the timer itself: the handler run at time 10 invokes
    the callback and puts the timer back under expiry 15, and the run at
    time 15 invokes the callback again. *)
Theorem C1_self_cancel_in_callback_is_lost :
  let q := mk false [] [] [((10, 100), 100)]
              {[100 := mkTimer [DoCancel 100] 10 5]} [] [] in
  well_formed q = true
  ∧ m_timers <$> HandleTimerfd 10 q = Some [((15, 100), 100)]
  ∧ invoked <$> HandleTimerfd 10 q = Some [100]
  ∧ invoked <$> (HandleTimerfd 10 q ≫= HandleTimerfd 15) = Some [100; 100].
Proof. vm_compute. repeat split. Qed.



End TimerQueueFacts.

(** * Further properties of the code *)

(** ** Channel and Poller: interest, and the calls of [epoll_ctl] *)

Lemma UpdateChannel_cases {W : Type} (channel : Z) (c : Channel.t W)
    (p : Poller.t) :
  let issued op :=
    Poller.m_epollfd p
    ++ [Poller.mk_call op (Channel.m_fd c) (Channel.m_events c) channel] in
  (Channel.m_status c = Poller.k_New ->
   Poller.UpdateChannel channel c p
   = (Poller.mk (<[Channel.m_fd c := channel]> (Poller.m_channels p))
        (issued EPOLL_CTL_ADD),
      Channel.SetStatus Poller.k_Added c))
  ∧ (Channel.m_status c = Poller.k_Deleted ->
     Poller.UpdateChannel channel c p
     = (Poller.mk (Poller.m_channels p) (issued EPOLL_CTL_ADD),
        Channel.SetStatus Poller.k_Added c))
  ∧ (Channel.m_status c = Poller.k_Added -> Channel.m_events c = 0 ->
     Poller.UpdateChannel channel c p
     = (Poller.mk (Poller.m_channels p) (issued EPOLL_CTL_DEL),
        Channel.SetStatus Poller.k_Deleted c))
  ∧ (Channel.m_status c = Poller.k_Added -> Channel.m_events c <> 0 ->
     Poller.UpdateChannel channel c p
     = (Poller.mk (Poller.m_channels p) (issued EPOLL_CTL_MOD), c)).
Proof.
  intros issued. subst issued.
  unfold Poller.UpdateChannel, Poller.update, Channel.GetStatus,
    Channel.IsNoneEvent, Channel.fd, Channel.GetEvents, Channel.k_NoneEvent.
  split; [|split; [|split]].
  - intros ->. reflexivity.
  - intros ->. reflexivity.
  - intros -> ->. reflexivity.
  - intros -> Hne. cbn [Z.eqb orb Poller.k_Added Poller.k_New Poller.k_Deleted].
    destruct (Z.eqb_spec (Channel.m_events c) 0); [contradiction|reflexivity].
Qed.

Lemma UpdateChannel_events {W : Type} (channel : Z) (c : Channel.t W)
    (p : Poller.t) :
  Channel.m_events (Poller.UpdateChannel channel c p).2 = Channel.m_events c
  ∧ Channel.m_fd (Poller.UpdateChannel channel c p).2 = Channel.m_fd c.
Proof.
  unfold Poller.UpdateChannel.
  destruct (_ || _); [split; reflexivity|].
  destruct (Channel.IsNoneEvent c); split; reflexivity.
Qed.

Lemma testbit_read_mask (e : Z) :
  truthy (Z.land e Channel.k_ReadEvent) = Z.testbit e 0 || Z.testbit e 1.
Proof.
  unfold Channel.k_ReadEvent.
  rewrite truthy_land_lor, truthy_EPOLLIN, truthy_EPOLLPRI. reflexivity.
Qed.

Lemma testbit_write_mask (e : Z) :
  truthy (Z.land e Channel.k_WriteEvent) = Z.testbit e 2.
Proof. apply truthy_EPOLLOUT. Qed.

(** X1. The five registration operations act on the interest as on two
    independent flags: [OnReading] and [OffReading] set and clear the read
    interest and leave the write interest as it is, [OnWriting] and
    [OffWriting] set and clear the write interest and leave the read
    interest as it is, and after [OffAll] the channel has no interest; none
    of them changes the fd. *)
Theorem X1_registration_sets_interest_flags {W : Type} (channel : Z)
    (c : Channel.t W) (p : Poller.t) :
  let after op := (op channel c p).2 in
  (Channel.IsReading (after Registration.OnReading) = true
   ∧ Channel.IsWriting (after Registration.OnReading) = Channel.IsWriting c)
  ∧ (Channel.IsReading (after Registration.OffReading) = false
     ∧ Channel.IsWriting (after Registration.OffReading) = Channel.IsWriting c)
  ∧ (Channel.IsWriting (after Registration.OnWriting) = true
     ∧ Channel.IsReading (after Registration.OnWriting) = Channel.IsReading c)
  ∧ (Channel.IsWriting (after Registration.OffWriting) = false
     ∧ Channel.IsReading (after Registration.OffWriting) = Channel.IsReading c)
  ∧ (Channel.IsNoneEvent (after Registration.OffAll) = true
     ∧ Channel.IsReading (after Registration.OffAll) = false
     ∧ Channel.IsWriting (after Registration.OffAll) = false)
  ∧ ∀ o : Registration.Op,
      Channel.fd (after (Registration.method o)) = Channel.fd c.
Proof.
  intros after. subst after. cbn beta.
  unfold Registration.OnReading, Registration.OffReading,
    Registration.OnWriting, Registration.OffWriting, Registration.OffAll,
    Registration.update, Channel.IsReading, Channel.IsWriting,
    Channel.IsNoneEvent.
  rewrite !(proj1 (UpdateChannel_events _ _ _)).
  cbn [Channel.m_events Channel.set_events Channel.set_inLoop].
  rewrite !testbit_read_mask, !testbit_write_mask.
  unfold Channel.k_ReadEvent, Channel.k_WriteEvent, EPOLLIN, EPOLLPRI, EPOLLOUT.
  rewrite !Z.lor_spec, !Z.land_spec, !Z.lnot_spec by lia.
  cbn [Z.lor Z.testbit Pos.lor Pos.testbit Z.of_N Pos.pred_N negb orb andb
       Channel.k_NoneEvent Z.eqb].
  rewrite !orb_true_r, !orb_false_r, !andb_false_r, !andb_true_r.
  repeat split.
  intros o.
  destruct o; cbn [Registration.method];
    unfold Registration.OnReading, Registration.OffReading,
      Registration.OnWriting, Registration.OffWriting, Registration.OffAll,
      Registration.update, Registration.remove, Poller.RemoveChannel,
      Channel.fd;
    rewrite ?(proj2 (UpdateChannel_events _ _ _)); reflexivity.
Qed.

(** *** The interest list of the epoll instance *)

Lemma interest_list_snoc (watchable : Z -> bool)
    (calls : list Poller.epoll_call) (call : Poller.epoll_call) :
  Poller.interest_list watchable (calls ++ [call])
  = Poller.interest_list watchable calls ≫= Poller.epoll_ctl watchable call.
Proof. unfold Poller.interest_list. rewrite fold_left_app. reflexivity. Qed.

(** The calls before a call that succeeded have succeeded. *)
Lemma interest_list_prefix (watchable : Z -> bool)
    (calls more : list Poller.epoll_call) (interest : gmap Z (Z * Z)) :
  Poller.interest_list watchable (calls ++ more) = Some interest ->
  is_Some (Poller.interest_list watchable calls).
Proof.
  unfold Poller.interest_list. rewrite fold_left_app.
  destruct (fold_left _ calls (Some ∅)) as [i|]; [eauto|].
  intros H. exfalso. induction more as [|call more IH]; [discriminate|].
  cbn [fold_left mbind option_bind] in H. exact (IH H).
Qed.

(** The kernel holds no fd in the interest list that is not a descriptor
    that epoll can watch. *)
Lemma interest_list_descriptors (watchable : Z -> bool)
    (calls : list Poller.epoll_call) (interest : gmap Z (Z * Z)) (fd : Z) :
  Poller.interest_list watchable calls = Some interest ->
  is_Some (interest !! fd) ->
  Poller.is_descriptor watchable fd = true.
Proof.
  revert interest. induction calls as [|call calls IH] using rev_ind;
    intros interest Hlist [x Hx].
  - injection Hlist as <-. rewrite lookup_empty in Hx. discriminate.
  - rewrite interest_list_snoc in Hlist.
    destruct (Poller.interest_list watchable calls) as [i|]; [|discriminate].
    cbn [mbind option_bind] in Hlist. unfold Poller.epoll_ctl in Hlist.
    destruct (Poller.is_descriptor watchable (Poller.ctl_fd call)) eqn:Hd;
      [|discriminate].
    cbn [negb] in Hlist.
    destruct (decide (fd = Poller.ctl_fd call)) as [->|Hne]; [exact Hd|].
    apply (IH i eq_refl).
    destruct (Poller.ctl_op call =? EPOLL_CTL_ADD).
    { destruct (i !! Poller.ctl_fd call); [discriminate|].
      injection Hlist as <-. rewrite lookup_insert_ne in Hx by congruence.
      eauto. }
    destruct (Poller.ctl_op call =? EPOLL_CTL_MOD).
    { destruct (i !! Poller.ctl_fd call); [|discriminate].
      injection Hlist as <-. rewrite lookup_insert_ne in Hx by congruence.
      eauto. }
    destruct (Poller.ctl_op call =? EPOLL_CTL_DEL); [|discriminate].
    destruct (i !! Poller.ctl_fd call); [|discriminate].
    injection Hlist as <-. rewrite lookup_delete_ne in Hx by congruence.
    eauto.
Qed.

(** The call that a registration operation or [remove] issues, if any, and
    the state it leaves the channel in. *)
Lemma method_calls {W : Type} (o : Registration.Op) (channel : Z)
    (c c' : Channel.t W) (p p' : Poller.t) :
  Channel.m_status c = Poller.k_New ∨ Channel.m_status c = Poller.k_Added
  ∨ Channel.m_status c = Poller.k_Deleted ->
  Registration.method o channel c p = (p', c') ->
  let call op :=
    Poller.mk_call op (Channel.m_fd c) (Channel.m_events c') channel in
  (Channel.m_status c <> Poller.k_Added
   ∧ Channel.m_status c' = Poller.k_Added
   ∧ Poller.m_epollfd p' = Poller.m_epollfd p ++ [call EPOLL_CTL_ADD])
  ∨ (Channel.m_status c = Poller.k_Added
     ∧ Channel.m_status c' = Poller.k_Added
     ∧ Poller.m_epollfd p' = Poller.m_epollfd p ++ [call EPOLL_CTL_MOD])
  ∨ (Channel.m_status c = Poller.k_Added
     ∧ Channel.m_status c' <> Poller.k_Added
     ∧ Poller.m_epollfd p' = Poller.m_epollfd p ++ [call EPOLL_CTL_DEL])
  ∨ (Channel.m_status c <> Poller.k_Added
     ∧ Channel.m_status c' <> Poller.k_Added
     ∧ Poller.m_epollfd p' = Poller.m_epollfd p).
Proof.
  intros Hst Hm call. subst call.
  assert (Hupd : ∀ e,
    Registration.update channel (Channel.set_events e c) p = (p', c') ->
    let call op :=
      Poller.mk_call op (Channel.m_fd c) (Channel.m_events c') channel in
    (Channel.m_status c <> Poller.k_Added
     ∧ Channel.m_status c' = Poller.k_Added
     ∧ Poller.m_epollfd p' = Poller.m_epollfd p ++ [call EPOLL_CTL_ADD])
    ∨ (Channel.m_status c = Poller.k_Added
       ∧ Channel.m_status c' = Poller.k_Added
       ∧ Poller.m_epollfd p' = Poller.m_epollfd p ++ [call EPOLL_CTL_MOD])
    ∨ (Channel.m_status c = Poller.k_Added
       ∧ Channel.m_status c' <> Poller.k_Added
       ∧ Poller.m_epollfd p' = Poller.m_epollfd p ++ [call EPOLL_CTL_DEL])
    ∨ (Channel.m_status c <> Poller.k_Added
       ∧ Channel.m_status c' <> Poller.k_Added
       ∧ Poller.m_epollfd p' = Poller.m_epollfd p)).
  { intros e He call. subst call. unfold Registration.update in He.
    set (c0 := Channel.set_inLoop true (Channel.set_events e c)) in He.
    destruct (UpdateChannel_cases channel c0 p) as (Hnew & Hdel & Hnone & Hmod).
    change (Channel.m_status c0) with (Channel.m_status c) in *.
    change (Channel.m_fd c0) with (Channel.m_fd c) in *.
    unfold Poller.k_New, Poller.k_Added, Poller.k_Deleted in *.
    destruct Hst as [Hs|[Hs|Hs]].
    - rewrite (Hnew Hs) in He. injection He as <- <-. left.
      split; [lia|]. split; reflexivity.
    - destruct (Z.eq_dec (Channel.m_events c0) 0) as [Hz|Hnz].
      + rewrite (Hnone Hs Hz) in He. injection He as <- <-. right. right. left.
        split; [exact Hs|]. split; [cbn; lia | reflexivity].
      + rewrite (Hmod Hs Hnz) in He. injection He as <- <-. right. left.
        split; [exact Hs|]. split; [exact Hs | reflexivity].
    - rewrite (Hdel Hs) in He. injection He as <- <-. left.
      split; [lia|]. split; reflexivity. }
  destruct o; cbn [Registration.method] in Hm;
    try (unfold Registration.OnReading, Registration.OffReading,
           Registration.OnWriting, Registration.OffWriting,
           Registration.OffAll in Hm;
         exact (Hupd _ Hm)).
  unfold Registration.remove, Poller.RemoveChannel in Hm.
  cbn [Channel.GetStatus Channel.fd Channel.set_inLoop Channel.m_status
       Channel.m_fd] in Hm.
  unfold Poller.k_New, Poller.k_Added, Poller.k_Deleted in *.
  destruct (Z.eqb_spec (Channel.m_status c) 1) as [Hs|Hs];
    injection Hm as <- <-.
  - right. right. left. split; [exact Hs|]. split; [cbn; lia | reflexivity].
  - right. right. right. split; [exact Hs|]. split; [cbn; lia | reflexivity].
Qed.

(** The interest list after a registration operation or [remove] on a
    channel whose fd is in the list exactly when the channel is Added. The
    one call that can fail is the [ADD] for a channel that is New or
    Deleted, on an fd that is not a descriptor that epoll can watch. *)
Lemma method_interest {W : Type} (watchable : Z -> bool)
    (o : Registration.Op) (channel : Z) (c c' : Channel.t W)
    (p p' : Poller.t) (interest : gmap Z (Z * Z)) :
  Channel.m_status c = Poller.k_New ∨ Channel.m_status c = Poller.k_Added
  ∨ Channel.m_status c = Poller.k_Deleted ->
  Registration.method o channel c p = (p', c') ->
  Poller.interest_list watchable (Poller.m_epollfd p) = Some interest ->
  (is_Some (interest !! Channel.m_fd c)
   <-> Channel.m_status c = Poller.k_Added) ->
  Poller.interest_list watchable (Poller.m_epollfd p')
  = Some (if Channel.m_status c' =? Poller.k_Added
          then <[Channel.m_fd c := (Channel.m_events c', channel)]> interest
          else delete (Channel.m_fd c) interest)
  ∨ (Poller.is_descriptor watchable (Channel.m_fd c) = false
     ∧ Poller.interest_list watchable (Poller.m_epollfd p') = None).
Proof.
  intros Hst Hm Hlist Hin.
  assert (Hout : Channel.m_status c <> Poller.k_Added ->
                 interest !! Channel.m_fd c = None).
  { intros Hne. destruct (interest !! Channel.m_fd c) eqn:Hl; [|reflexivity].
    exfalso. apply Hne, Hin. eauto. }
  assert (Hdesc : Channel.m_status c = Poller.k_Added ->
                  Poller.is_descriptor watchable (Channel.m_fd c) = true).
  { intros Hs. apply (interest_list_descriptors _ _ _ _ Hlist), Hin, Hs. }
  destruct (method_calls o channel c c' p p' Hst Hm)
    as [(Hs & Hs' & Hlog)|[(Hs & Hs' & Hlog)|[(Hs & Hs' & Hlog)|(Hs & Hs' & Hlog)]]];
    rewrite Hlog, ?interest_list_snoc, ?Hlist; cbn [mbind option_bind];
    unfold Poller.epoll_ctl;
    cbn [Poller.ctl_op Poller.ctl_fd Poller.ctl_events Poller.ctl_ptr Z.eqb
         EPOLL_CTL_ADD EPOLL_CTL_MOD EPOLL_CTL_DEL Pos.eqb].
  - destruct (Poller.is_descriptor watchable (Channel.m_fd c));
      cbn [negb]; [|right; split; reflexivity].
    left. rewrite (Hout Hs), Hs'. reflexivity.
  - rewrite (Hdesc Hs). cbn [negb]. left.
    apply Hin in Hs as [x Hx]. rewrite Hx, Hs'. reflexivity.
  - rewrite (Hdesc Hs). cbn [negb]. left.
    apply Hin in Hs as [x Hx]. rewrite Hx.
    destruct (Z.eqb_spec (Channel.m_status c') Poller.k_Added);
      [contradiction|reflexivity].
  - left. destruct (Z.eqb_spec (Channel.m_status c') Poller.k_Added);
      [contradiction|]. rewrite delete_id by exact (Hout Hs). reflexivity.
Qed.

(** One operation, made while the interest list holds the channels in
    state Added: afterwards the list [after] does, which is the list of the
    kernel unless the call failed, for a channel on no descriptor. *)
Lemma perform_interest {W : Type} (watchable : Z -> bool)
    (o : Registration.Op) (r : Registration.Reactor W)
    (interest : gmap Z (Z * Z)) :
  Registration.table_matches r ->
  Registration.fd_is_own o r = true ->
  Poller.interest_list watchable (Poller.m_epollfd (Registration.poller r))
  = Some interest ->
  Registration.holds_added r interest ->
  let r' := Registration.perform o r in
  ∃ after,
    Registration.holds_added r' after
    ∧ (Poller.interest_list watchable
         (Poller.m_epollfd (Registration.poller r')) = Some after
       ∨ (Poller.interest_list watchable
            (Poller.m_epollfd (Registration.poller r')) = None
          ∧ ∃ c, Registration.channels r !! Registration.target o = Some c
                 ∧ Poller.is_descriptor watchable (Channel.m_fd c) = false)).
Proof.
  intros Htab Hown Hlist Hcorr r'. subst r'. unfold Registration.perform.
  unfold Registration.fd_is_own, Channel.fd in Hown.
  destruct (Registration.channels r !! Registration.target o) as [c|] eqn:Hc;
    [|exists interest; auto].
  destruct (Htab _ _ Hc) as [Hst Htbl]. unfold Channel.fd in Htbl.
  destruct (Registration.method o (Registration.target o) c
              (Registration.poller r)) as [p' c'] eqn:Hm.
  destruct (method_effect o _ c c' _ p' Hst Hm) as [Hfd _].
  (* another channel in state Added is on another fd *)
  assert (Hother : ∀ y cy, y <> Registration.target o ->
            Registration.channels r !! y = Some cy ->
            Channel.m_status cy = Poller.k_Added ->
            Channel.m_fd cy <> Channel.m_fd c).
  { intros y cy Hy Hcy Hadded Hsame.
    destruct (Htab _ _ Hcy) as [_ Htbly]. unfold Channel.fd in Htbly.
    assert (Hreg : Poller.m_channels (Registration.poller r) !! Channel.m_fd cy
                   = Some y).
    { apply Htbly. unfold Poller.k_New, Poller.k_Added in *. lia. }
    rewrite Hsame in Hreg. rewrite Hreg in Hown. apply Z.eqb_eq in Hown.
    contradiction. }
  assert (Hin : is_Some (interest !! Channel.m_fd c)
                <-> Channel.m_status c = Poller.k_Added).
  { split.
    - intros [[events y] Hl]. apply Hcorr in Hl as (cy & Hcy & Hfdy & Hsy & _).
      destruct (decide (y = Registration.target o)) as [->|Hne].
      + rewrite Hc in Hcy. injection Hcy as <-. exact Hsy.
      + exfalso. exact (Hother y cy Hne Hcy Hsy Hfdy).
    - intros Hs. exists (Channel.m_events c, Registration.target o).
      apply Hcorr. eauto. }
  eexists. split; cycle 1.
  { destruct (method_interest watchable o _ c c' _ p' interest Hst Hm Hlist Hin)
      as [Hlist'|[Hd Hnone]].
    - left. exact Hlist'.
    - right. split; [exact Hnone|]. exists c. auto. }
  unfold Registration.holds_added.
  cbn [Registration.channels Registration.poller].
  intros fd events channel. split.
  - intros Hl.
    assert (Hold : fd <> Channel.m_fd c ->
              interest !! fd = Some (events, channel) ->
              ∃ c0, <[Registration.target o := c']> (Registration.channels r)
                      !! channel = Some c0
                    ∧ Channel.m_fd c0 = fd
                    ∧ Channel.m_status c0 = Poller.k_Added
                    ∧ Channel.m_events c0 = events).
    { intros Hne Hi. apply Hcorr in Hi as (c0 & Hc0 & Hfd0 & Hs0 & He0).
      exists c0. split; [|auto].
      rewrite lookup_insert_ne; [exact Hc0|]. intros <-.
      rewrite Hc in Hc0. injection Hc0 as <-. congruence. }
    destruct (Z.eqb_spec (Channel.m_status c') Poller.k_Added) as [Hs'|Hs'].
    + destruct (decide (fd = Channel.m_fd c)) as [->|Hne].
      * rewrite lookup_insert_eq in Hl. injection Hl as <- <-.
        exists c'. rewrite lookup_insert_eq. auto.
      * rewrite lookup_insert_ne in Hl by congruence. auto.
    + destruct (decide (fd = Channel.m_fd c)) as [->|Hne].
      * rewrite lookup_delete_eq in Hl. discriminate.
      * rewrite lookup_delete_ne in Hl by congruence. auto.
  - intros (c0 & Hc0 & Hfd0 & Hs0 & He0).
    destruct (decide (channel = Registration.target o)) as [->|Hne].
    + rewrite lookup_insert_eq in Hc0. injection Hc0 as <-.
      rewrite Hs0, Z.eqb_refl, <- Hfd0, Hfd, He0. apply lookup_insert_eq.
    + rewrite lookup_insert_ne in Hc0 by congruence.
      pose proof (Hother _ _ Hne Hc0 Hs0) as Hdiff. rewrite Hfd0 in Hdiff.
      assert (Hi : interest !! fd = Some (events, channel))
        by (apply Hcorr; eauto).
      destruct (Channel.m_status c' =? Poller.k_Added).
      * rewrite lookup_insert_ne by congruence. exact Hi.
      * rewrite lookup_delete_ne by congruence. exact Hi.
Qed.

(** An operation adds to the calls issued on the epoll instance. *)
Lemma perform_log {W : Type} (o : Registration.Op)
    (r : Registration.Reactor W) :
  Registration.table_matches r ->
  ∃ more,
    Poller.m_epollfd (Registration.poller (Registration.perform o r))
    = Poller.m_epollfd (Registration.poller r) ++ more.
Proof.
  intros Htab. unfold Registration.perform.
  destruct (Registration.channels r !! Registration.target o) as [c|] eqn:Hc;
    [|exists []; rewrite app_nil_r; reflexivity].
  destruct (Htab _ _ Hc) as [Hst _].
  destruct (Registration.method o (Registration.target o) c
              (Registration.poller r)) as [p' c'] eqn:Hm.
  cbn [Registration.poller].
  destruct (method_calls o _ c c' _ p' Hst Hm)
    as [(_ & _ & Hlog)|[(_ & _ & Hlog)|[(_ & _ & Hlog)|(_ & _ & Hlog)]]];
    rewrite Hlog; try (eexists; reflexivity).
  exists []. rewrite app_nil_r. reflexivity.
Qed.

(** The operations leave every channel on its fd. *)
Lemma perform_on_descriptors {W : Type} (watchable : Z -> bool)
    (o : Registration.Op) (r : Registration.Reactor W) :
  Registration.table_matches r ->
  Registration.on_descriptors watchable (Registration.channels r) ->
  Registration.on_descriptors watchable
    (Registration.channels (Registration.perform o r)).
Proof.
  intros Htab Hon. unfold Registration.perform.
  destruct (Registration.channels r !! Registration.target o) as [c|] eqn:Hc;
    [|exact Hon].
  destruct (Htab _ _ Hc) as [Hst _].
  destruct (Registration.method o (Registration.target o) c
              (Registration.poller r)) as [p' c'] eqn:Hm.
  destruct (method_effect o _ c c' _ p' Hst Hm) as [Hfd _].
  cbn [Registration.channels]. intros channel c0 Hc0.
  destruct (decide (channel = Registration.target o)) as [->|Hne].
  - rewrite lookup_insert_eq in Hc0. injection Hc0 as <-. rewrite Hfd.
    exact (Hon _ _ Hc).
  - rewrite lookup_insert_ne in Hc0 by congruence. exact (Hon _ _ Hc0).
Qed.

Lemma perform_all_in_step {W : Type} (watchable : Z -> bool)
    (ops : list Registration.Op) (r : Registration.Reactor W) :
  Registration.table_matches r ->
  Registration.on_descriptors watchable (Registration.channels r) ->
  Registration.in_step watchable r ->
  Registration.exclusive ops r = true ->
  Registration.in_step watchable (Registration.perform_all ops r).
Proof.
  revert r. induction ops as [|o ops IH]; intros r Htab Hon Hstep Hex.
  - exact Hstep.
  - cbn [Registration.exclusive] in Hex. apply andb_true_iff in Hex as [Ho Hex].
    unfold Registration.perform_all. cbn [fold_left].
    apply IH; [apply perform_table_matches; assumption
              | apply perform_on_descriptors; assumption | | exact Hex].
    destruct Hstep as (interest & Hlist & Hcorr).
    destruct (perform_interest watchable o r interest Htab Ho Hlist Hcorr)
      as (after & Hafter & [Hlist'|(_ & c & Hc & Hd)]).
    + exists after. auto.
    + rewrite (Hon _ _ Hc) in Hd. discriminate.
Qed.

(** Without a word on the descriptors: when no call has failed, the
    interest list holds the channels in state Added. *)
Lemma perform_all_holds_added {W : Type} (watchable : Z -> bool)
    (ops : list Registration.Op) (r : Registration.Reactor W) :
  Registration.table_matches r ->
  Registration.exclusive ops r = true ->
  (∀ interest,
     Poller.interest_list watchable (Poller.m_epollfd (Registration.poller r))
     = Some interest ->
     Registration.holds_added r interest) ->
  ∀ interest,
    Poller.interest_list watchable
      (Poller.m_epollfd (Registration.poller (Registration.perform_all ops r)))
    = Some interest ->
    Registration.holds_added (Registration.perform_all ops r) interest.
Proof.
  revert r. induction ops as [|o ops IH]; intros r Htab Hex Hr.
  - exact Hr.
  - cbn [Registration.exclusive] in Hex. apply andb_true_iff in Hex as [Ho Hex].
    unfold Registration.perform_all. cbn [fold_left].
    apply IH; [apply perform_table_matches; assumption | exact Hex |].
    intros interest' Hlist'.
    destruct (perform_log o r Htab) as [more Hmore].
    pose proof Hlist' as Hpre. rewrite Hmore in Hpre.
    apply interest_list_prefix in Hpre as [interest Hlist].
    destruct (perform_interest watchable o r interest Htab Ho Hlist
                (Hr _ Hlist)) as (after & Hafter & [Hl|[Hl _]]).
    + rewrite Hl in Hlist'. injection Hlist' as <-. exact Hafter.
    + rewrite Hl in Hlist'. discriminate.
Qed.

Lemma fresh_table_matches {W : Type} (cs : gmap Z (Channel.t W)) :
  Registration.fresh cs ->
  Registration.table_matches (Registration.mkReactor Poller.new cs).
Proof.
  intros Hfresh channel c Hc. cbn [Registration.channels Registration.poller] in *.
  rewrite (Hfresh _ _ Hc). split; [tauto|].
  cbn [Poller.new Poller.m_channels]. rewrite lookup_empty.
  split; congruence.
Qed.

(** A new poller has issued no call, and no new channel is Added. *)
Lemma fresh_holds_added {W : Type} (cs : gmap Z (Channel.t W)) :
  Registration.fresh cs ->
  Registration.holds_added (Registration.mkReactor Poller.new cs) ∅.
Proof.
  intros Hfresh fd events channel.
  cbn [Registration.channels Registration.poller].
  rewrite lookup_empty. split; [discriminate|].
  intros (c & Hc & _ & Hs & _). rewrite (Hfresh _ _ Hc) in Hs. discriminate.
Qed.

(** X2. From a loop whose poller is new and whose channels were just
    constructed, each on a descriptor that epoll can watch, after any
    sequence of registration and remove operations in which no channel is
    operated on while another holds its fd in the table: no call of
    [epoll_ctl] that the poller issued has failed on its descriptor, or
    for an fd that was in the interest list already ([EEXIST]) or was not
    in it ([ENOENT]); and the interest list of the epoll instance holds
    exactly the channels in state Added, each under its fd, with its
    present interest and its own address. *)
Theorem X2_epoll_interest_follows_added_channels {W : Type}
    (watchable : Z -> bool) (cs : gmap Z (Channel.t W))
    (ops : list Registration.Op) :
  Registration.fresh cs ->
  Registration.on_descriptors watchable cs ->
  Registration.exclusive ops (Registration.mkReactor Poller.new cs) = true ->
  let r := Registration.perform_all ops (Registration.mkReactor Poller.new cs) in
  ∃ interest,
    Poller.interest_list watchable (Poller.m_epollfd (Registration.poller r))
    = Some interest
    ∧ ∀ fd events channel,
        interest !! fd = Some (events, channel)
        <-> ∃ c, Registration.channels r !! channel = Some c
                 ∧ Channel.m_fd c = fd
                 ∧ Channel.m_status c = Poller.k_Added
                 ∧ Channel.m_events c = events.
Proof.
  intros Hfresh Hon Hex r.
  apply (perform_all_in_step watchable ops);
    [apply fresh_table_matches, Hfresh | exact Hon | | exact Hex].
  exists ∅. split; [reflexivity | apply fresh_holds_added, Hfresh].
Qed.

Lemma X2_epoll_interest_witness :
  let watchable := fun fd => (fd =? 5) || (fd =? 6) in
  let cs : gmap Z (Channel.t unit) :=
    <[10 := Channel.new 1 5]> (<[20 := Channel.new 1 6]> ∅) in
  let ops :=
    [Registration.DoOnReading 10; Registration.DoOnWriting 20;
     Registration.DoOffAll 10; Registration.DoOnWriting 10;
     Registration.DoRemove 20] in
  let r := Registration.perform_all ops (Registration.mkReactor Poller.new cs) in
  (Poller.ctl_op <$> Poller.m_epollfd (Registration.poller r))
  = [EPOLL_CTL_ADD; EPOLL_CTL_ADD; EPOLL_CTL_DEL; EPOLL_CTL_ADD; EPOLL_CTL_DEL]
  ∧ ∃ interest,
      Poller.interest_list watchable
        (Poller.m_epollfd (Registration.poller r)) = Some interest
      ∧ ∀ fd events channel,
          interest !! fd = Some (events, channel)
          <-> ∃ c, Registration.channels r !! channel = Some c
                   ∧ Channel.m_fd c = fd
                   ∧ Channel.m_status c = Poller.k_Added
                   ∧ Channel.m_events c = events.
Proof.
  intros watchable cs ops r.
  assert (Hfresh : Registration.fresh cs).
  { change (map_Forall (fun _ c => Channel.m_status c = Poller.k_New) cs).
    repeat apply map_Forall_insert_2; try reflexivity. apply map_Forall_empty. }
  assert (Hon : Registration.on_descriptors watchable cs).
  { change (map_Forall
              (fun _ c => Poller.is_descriptor watchable (Channel.m_fd c) = true)
              cs).
    repeat apply map_Forall_insert_2; try reflexivity. apply map_Forall_empty. }
  assert (Hex : Registration.exclusive ops
                  (Registration.mkReactor Poller.new cs) = true).
  { vm_compute. reflexivity. }
  split; [vm_compute; reflexivity|].
  exact (X2_epoll_interest_follows_added_channels watchable cs ops
           Hfresh Hon Hex).
Defined.

(** X3. [Poller::UpdateChannel] is not idempotent on a channel without
    interest: for a channel in state Added, a first [OffAll] issues [DEL]
    and leaves it Deleted, and a second [OffAll] issues [ADD] with the empty
    mask and leaves it Added again, so that the fd is back in the interest
    list of the epoll instance, with no event asked for. The table of the
    poller is the same throughout. *)
Theorem X3_second_off_all_adds_the_fd_again {W : Type}
    (watchable : Z -> bool) (channel : Z) (c : Channel.t W) (p : Poller.t) :
  Channel.m_status c = Poller.k_Added ->
  let '(p1, c1) := Registration.OffAll channel c p in
  let '(p2, c2) := Registration.OffAll channel c1 p1 in
  Channel.m_status c1 = Poller.k_Deleted
  ∧ Channel.m_status c2 = Poller.k_Added
  ∧ Channel.IsNoneEvent c2 = true
  ∧ Poller.m_epollfd p2
    = Poller.m_epollfd p
      ++ [Poller.mk_call EPOLL_CTL_DEL (Channel.m_fd c) 0 channel;
          Poller.mk_call EPOLL_CTL_ADD (Channel.m_fd c) 0 channel]
  ∧ Poller.m_channels p2 = Poller.m_channels p
  ∧ ∀ interest,
      Poller.interest_list watchable (Poller.m_epollfd p) = Some interest ->
      is_Some (interest !! Channel.m_fd c) ->
      Poller.interest_list watchable (Poller.m_epollfd p2)
      = Some (<[Channel.m_fd c := (0, channel)]> interest).
Proof.
  intros Hs.
  unfold Registration.OffAll, Registration.update.
  set (c0 := Channel.set_inLoop true (Channel.set_events Channel.k_NoneEvent c)).
  destruct (UpdateChannel_cases channel c0 p) as (_ & _ & Hnone & _).
  rewrite (Hnone Hs eq_refl).
  set (c1 := Channel.SetStatus Poller.k_Deleted c0).
  set (c1' := Channel.set_inLoop true
                (Channel.set_events Channel.k_NoneEvent c1)).
  match goal with |- context [Poller.UpdateChannel channel c1' ?q] =>
    destruct (UpdateChannel_cases channel c1' q) as (_ & Hdel & _ & _) end.
  rewrite (Hdel eq_refl).
  cbn [Poller.m_epollfd Poller.m_channels Channel.m_status Channel.SetStatus
       Channel.m_fd Channel.m_events Channel.set_inLoop Channel.set_events
       Channel.k_NoneEvent c0 c1 c1'].
  split; [reflexivity|]. split; [reflexivity|]. split; [reflexivity|].
  split; [rewrite <- app_assoc; reflexivity|]. split; [reflexivity|].
  intros interest Hlist Hheld.
  pose proof (interest_list_descriptors _ _ _ _ Hlist Hheld) as Hd.
  destruct Hheld as [x Hx].
  rewrite !interest_list_snoc, Hlist. cbn [mbind option_bind].
  unfold Poller.epoll_ctl at 2.
  cbn [Poller.ctl_op Poller.ctl_fd Poller.ctl_events Poller.ctl_ptr Z.eqb
       EPOLL_CTL_ADD EPOLL_CTL_MOD EPOLL_CTL_DEL Pos.eqb].
  rewrite Hd, Hx. cbn [negb mbind option_bind]. unfold Poller.epoll_ctl.
  cbn [Poller.ctl_op Poller.ctl_fd Poller.ctl_events Poller.ctl_ptr Z.eqb
       EPOLL_CTL_ADD EPOLL_CTL_MOD EPOLL_CTL_DEL Pos.eqb].
  rewrite Hd, lookup_delete_eq, insert_delete_eq. reflexivity.
Qed.

Lemma X3_second_off_all_witness :
  let watchable := fun fd => fd =? 5 in
  let c := Channel.SetStatus Poller.k_Added
             (Channel.set_events 3 (@Channel.new unit 1 5)) in
  let p := Poller.mk {[5 := 77]} [Poller.mk_call EPOLL_CTL_ADD 5 3 77] in
  let '(p1, c1) := Registration.OffAll 77 c p in
  let '(p2, c2) := Registration.OffAll 77 c1 p1 in
  Poller.interest_list watchable (Poller.m_epollfd p1) = Some ∅
  ∧ Poller.interest_list watchable (Poller.m_epollfd p2)
    = Some {[5 := (0, 77)]}
  ∧ Channel.m_status c2 = Poller.k_Added.
Proof.
  intros watchable c p.
  pose proof (X3_second_off_all_adds_the_fd_again watchable 77 c p eq_refl)
    as H.
  destruct (Registration.OffAll 77 c p) as [p1 c1] eqn:H1.
  destruct (Registration.OffAll 77 c1 p1) as [p2 c2] eqn:H2.
  split; [|split].
  - vm_compute in H1. injection H1 as <- <-. reflexivity.
  - vm_compute in H1. injection H1 as <- <-.
    vm_compute in H2. injection H2 as <- <-. reflexivity.
  - exact (proj1 (proj2 H)).
Defined.

(** X4. [OffAll] followed by [remove], as the destructors of [EventLoop]
    and [TimerQueue] do for their channels, leaves no trace of the channel,
    whatever state it was in: the channel is New and without interest, the
    table has no entry for its fd, and the fd is out of the interest list of
    the epoll instance. For a channel in state Added one [DEL] is issued;
    for a channel that was New or Deleted, [OffAll] first issues an [ADD]
    with the empty mask, and [remove] the [DEL]; that [ADD] fails when the
    fd is not a descriptor that epoll can watch. *)
Theorem X4_off_all_then_remove_leaves_no_trace {W : Type}
    (watchable : Z -> bool) (channel : Z) (c : Channel.t W) (p : Poller.t)
    (interest : gmap Z (Z * Z)) :
  Channel.m_status c = Poller.k_New ∨ Channel.m_status c = Poller.k_Added
  ∨ Channel.m_status c = Poller.k_Deleted ->
  Poller.interest_list watchable (Poller.m_epollfd p) = Some interest ->
  (is_Some (interest !! Channel.m_fd c)
   <-> Channel.m_status c = Poller.k_Added) ->
  let '(p1, c1) := Registration.OffAll channel c p in
  let '(p2, c2) := Registration.remove channel c1 p1 in
  Channel.m_status c2 = Poller.k_New
  ∧ Channel.IsNoneEvent c2 = true
  ∧ Poller.HasChannel channel c2 p2 = false
  ∧ Poller.m_channels p2 = delete (Channel.m_fd c) (Poller.m_channels p)
  ∧ Poller.interest_list watchable (Poller.m_epollfd p2)
    = (if (Channel.m_status c =? Poller.k_Added)
          || Poller.is_descriptor watchable (Channel.m_fd c)
       then Some (delete (Channel.m_fd c) interest)
       else None)
  ∧ Poller.m_epollfd p2
    = Poller.m_epollfd p
      ++ (if Channel.m_status c =? Poller.k_Added then []
          else [Poller.mk_call EPOLL_CTL_ADD (Channel.m_fd c) 0 channel])
      ++ [Poller.mk_call EPOLL_CTL_DEL (Channel.m_fd c) 0 channel].
Proof.
  intros Hst Hlist Hin.
  assert (Hout : Channel.m_status c <> Poller.k_Added ->
                 interest !! Channel.m_fd c = None).
  { intros Hne. destruct (interest !! Channel.m_fd c) eqn:Hl; [|reflexivity].
    exfalso. apply Hne, Hin. eauto. }
  assert (Hdesc : Channel.m_status c = Poller.k_Added ->
                  Poller.is_descriptor watchable (Channel.m_fd c) = true).
  { intros Hs. apply (interest_list_descriptors _ _ _ _ Hlist), Hin, Hs. }
  unfold Registration.OffAll, Registration.remove, Registration.update,
    Poller.UpdateChannel, Poller.RemoveChannel, Poller.HasChannel,
    Poller.update, Channel.GetStatus, Channel.IsNoneEvent, Channel.fd,
    Channel.GetEvents.
  cbn [Channel.m_status Channel.m_fd Channel.m_events Channel.set_inLoop
       Channel.set_events Channel.SetStatus].
  unfold Poller.k_New, Poller.k_Added, Poller.k_Deleted, Channel.k_NoneEvent
    in *.
  destruct Hst as [Hs|[Hs|Hs]]; rewrite Hs;
    cbn [Z.eqb Pos.eqb orb Channel.m_status Channel.m_fd Channel.m_events
         Channel.set_inLoop Channel.set_events Channel.SetStatus
         Poller.m_channels Poller.m_epollfd app];
    rewrite lookup_delete_eq, ?delete_insert_eq, <- ?app_assoc;
    (do 4 (split; [reflexivity|])); (split; [|reflexivity]);
    rewrite ?app_assoc, !interest_list_snoc, Hlist; cbn [mbind option_bind];
    unfold Poller.epoll_ctl;
    cbn [Poller.ctl_op Poller.ctl_fd Poller.ctl_events Poller.ctl_ptr Z.eqb
         EPOLL_CTL_ADD EPOLL_CTL_MOD EPOLL_CTL_DEL Pos.eqb].
  - destruct (Poller.is_descriptor watchable (Channel.m_fd c));
      cbn [negb]; [|reflexivity].
    rewrite Hout by lia. cbn [mbind option_bind].
    rewrite lookup_insert_eq, delete_insert_eq. reflexivity.
  - rewrite (Hdesc Hs). cbn [negb].
    destruct (proj2 Hin Hs) as [x Hx]. rewrite Hx. reflexivity.
  - destruct (Poller.is_descriptor watchable (Channel.m_fd c));
      cbn [negb]; [|reflexivity].
    rewrite Hout by lia. cbn [mbind option_bind].
    rewrite lookup_insert_eq, delete_insert_eq. reflexivity.
Qed.

Lemma X4_off_all_then_remove_witness :
  let watchable := fun fd => fd =? 5 in
  let c := Channel.SetStatus Poller.k_Added
             (Channel.set_events 3 (@Channel.new unit 1 5)) in
  let p := Poller.mk {[5 := 77]} [Poller.mk_call EPOLL_CTL_ADD 5 3 77] in
  let '(p1, c1) := Registration.OffAll 77 c p in
  let '(p2, c2) := Registration.remove 77 c1 p1 in
  Poller.m_epollfd p2
  = [Poller.mk_call EPOLL_CTL_ADD 5 3 77; Poller.mk_call EPOLL_CTL_DEL 5 0 77]
  ∧ Poller.interest_list watchable (Poller.m_epollfd p2) = Some ∅
  ∧ Channel.m_status c2 = Poller.k_New
  ∧ Poller.HasChannel 77 c2 p2 = false.
Proof.
  intros watchable c p.
  assert (Hlist : Poller.interest_list watchable (Poller.m_epollfd p)
                  = Some {[5 := (3, 77)]}) by reflexivity.
  assert (Hin : is_Some (({[5 := (3, 77)]} : gmap Z (Z * Z)) !! Channel.m_fd c)
                <-> Channel.m_status c = Poller.k_Added).
  { split; [reflexivity|]. intros _. exists (3, 77). reflexivity. }
  pose proof (X4_off_all_then_remove_leaves_no_trace watchable 77 c p _
                (or_intror (or_introl eq_refl)) Hlist Hin) as H.
  destruct (Registration.OffAll 77 c p) as [p1 c1] eqn:H1.
  destruct (Registration.remove 77 c1 p1) as [p2 c2] eqn:H2.
  destruct H as (Hnew & _ & Hhas & _ & Hgone & Hlog).
  split; [|split; [|split; assumption]].
  - vm_compute in H1. injection H1 as <- <-.
    vm_compute in H2. injection H2 as <- <-. reflexivity.
  - rewrite Hgone. reflexivity.
Defined.

(** *** [poll] *)

Lemma collect_spec {W : Type} (ready : list Poller.epoll_event) :
  ∀ (i : nat) (m_events : list Poller.epoll_event) (activeChannels : list Z)
    (channels : gmap Z (Channel.t W)),
    (∀ j event, ready !! j = Some event ->
                m_events !! (i + j)%nat = Some event) ->
    NoDup (Poller.ev_ptr <$> ready) ->
    (∀ event, event ∈ ready -> is_Some (channels !! Poller.ev_ptr event)) ->
    ∃ channels',
      Poller.collect (length ready) i m_events activeChannels channels
      = Some (activeChannels ++ (Poller.ev_ptr <$> ready), channels')
      ∧ (∀ event c, event ∈ ready ->
           channels !! Poller.ev_ptr event = Some c ->
           channels' !! Poller.ev_ptr event
           = Some (Channel.SetRevents (Poller.ev_events event) c))
      ∧ (∀ ptr, ptr ∉ (Poller.ev_ptr <$> ready) ->
                channels' !! ptr = channels !! ptr).
Proof.
  induction ready as [|event ready IH];
    intros i m_events activeChannels channels Hat Hnd Hlive.
  - exists channels. cbn [length Poller.collect fmap list_fmap].
    rewrite app_nil_r. split; [reflexivity|]. split; [|auto].
    intros event c Hin. apply elem_of_nil in Hin. contradiction.
  - rewrite fmap_cons in Hnd. apply NoDup_cons in Hnd as [Hfirst Hnd].
    cbn [length Poller.collect].
    pose proof (Hat 0%nat event eq_refl) as Hhere.
    rewrite Nat.add_0_r in Hhere. rewrite Hhere.
    cbn [mbind option_bind].
    destruct (Hlive event ltac:(apply list_elem_of_here)) as [c Hc].
    rewrite Hc. cbn [mbind option_bind].
    set (channels1 := <[Poller.ev_ptr event
                        := Channel.SetRevents (Poller.ev_events event) c]>
                        channels).
    assert (Hne : ∀ other, other ∈ ready ->
                  Poller.ev_ptr other <> Poller.ev_ptr event).
    { intros other Hin Heq. apply Hfirst. rewrite <- Heq.
      apply list_elem_of_fmap_2, Hin. }
    destruct (IH (S i) m_events (activeChannels ++ [Poller.ev_ptr event])
                channels1) as (channels' & Hrun & Hset & Hrest).
    + intros j other Hj. specialize (Hat (S j) other Hj).
      rewrite Nat.add_succ_r in Hat. exact Hat.
    + exact Hnd.
    + intros other Hin. unfold channels1.
      rewrite lookup_insert_ne by (apply not_eq_sym, Hne, Hin).
      apply Hlive, list_elem_of_further, Hin.
    + exists channels'. rewrite Hrun, <- app_assoc. split; [reflexivity|].
      split.
      * intros other c' Hin Hc'. apply elem_of_cons in Hin as [->|Hin].
        -- rewrite Hrest by exact Hfirst. unfold channels1.
           rewrite lookup_insert_eq. congruence.
        -- apply Hset; [exact Hin|]. unfold channels1.
           rewrite lookup_insert_ne by (apply not_eq_sym, Hne, Hin). exact Hc'.
      * intros ptr Hptr. rewrite fmap_cons, not_elem_of_cons in Hptr.
        rewrite Hrest by tauto. unfold channels1.
        apply lookup_insert_ne. intros Heq. apply (proj1 Hptr). symmetry.
        exact Heq.
Qed.

(** X5. [poll], when [epoll_wait] has written the ready events at the
    start of the vector (no more of them than the vector holds, each for a
    live channel, no channel twice) and returned their number: the channels
    of the events are appended to the list of active channels in the order
    of the events, each with its ready mask set to the mask reported and
    nothing else changed, and the other channels are as they were; the
    vector doubles in length when it was filled completely and keeps its
    length otherwise. When [epoll_wait] fails, the list and the channels
    are as they were. *)
Theorem X5_poll_hands_over_ready_channels {W : Type} (waited : Poller.Waited)
    (now : Timestamp) (m_events : list Poller.epoll_event)
    (activeChannels : list Z) (channels : gmap Z (Channel.t W)) :
  let ready := Poller.written waited in
  (length ready <= length m_events)%nat ->
  NoDup (Poller.ev_ptr <$> ready) ->
  (∀ event, event ∈ ready -> is_Some (channels !! Poller.ev_ptr event)) ->
  (Poller.numEvents waited = Z.of_nat (length ready) ->
   ∃ m_events' channels',
     Poller.poll waited now m_events activeChannels channels
     = Some (now, m_events', activeChannels ++ (Poller.ev_ptr <$> ready),
             channels')
     ∧ (∀ event c, event ∈ ready ->
          channels !! Poller.ev_ptr event = Some c ->
          channels' !! Poller.ev_ptr event
          = Some (Channel.SetRevents (Poller.ev_events event) c))
     ∧ (∀ ptr, ptr ∉ (Poller.ev_ptr <$> ready) ->
               channels' !! ptr = channels !! ptr)
     ∧ length m_events'
       = (if decide (ready <> [] ∧ length ready = length m_events)
          then 2 * length m_events else length m_events)%nat)
  ∧ (Poller.numEvents waited < 0 -> ready = [] ->
     Poller.poll waited now m_events activeChannels channels
     = Some (now, m_events, activeChannels, channels)).
Proof.
  intros ready Hfit Hnd Hlive. unfold Poller.poll. fold ready. split.
  - intros Hnum.
    set (filled := ready ++ drop (length ready) m_events).
    assert (Hlen : length filled = length m_events).
    { unfold filled. rewrite length_app, length_drop. lia. }
    destruct (Z.ltb_spec 0 (Poller.numEvents waited)) as [Hpos|Hzero].
    + unfold Poller.CollectActiveChannels. rewrite Hnum, Nat2Z.id.
      destruct (collect_spec ready 0 filled activeChannels channels)
        as (channels' & Hrun & Hset & Hrest); [|exact Hnd|exact Hlive|].
      { intros j event Hj. cbn [Nat.add]. unfold filled.
        rewrite lookup_app_l by (apply lookup_lt_Some in Hj; exact Hj).
        exact Hj. }
      rewrite Hrun. cbn [mbind option_bind].
      eexists _, channels'. split; [reflexivity|].
      split; [exact Hset|]. split; [exact Hrest|].
      rewrite Hlen.
      destruct (Z.eqb_spec (Z.of_nat (length ready)) (Z.of_nat (length m_events)))
        as [Heq|Hne].
      * rewrite length_app, length_replicate, Hlen.
        destruct (decide _) as [_|Hno]; [lia|].
        exfalso. apply Hno. split; [|lia]. intros Hnil. rewrite Hnil in Hnum.
        cbn in Hnum. lia.
      * rewrite Hlen. destruct (decide _) as [[_ Heq]|_]; [lia|reflexivity].
    + assert (Hnil : ready = []).
      { destruct ready; [reflexivity|]. cbn [length] in Hnum. lia. }
      unfold filled. rewrite Hnil. cbn [app length drop fmap list_fmap].
      eexists _, channels. rewrite app_nil_r. split; [reflexivity|].
      split; [intros event c Hin; apply elem_of_nil in Hin; contradiction|].
      split; [reflexivity|].
      destruct (decide _) as [[Hno _]|_]; [contradiction|reflexivity].
  - intros Hneg Hnil. rewrite Hnil. cbn [app length drop].
    destruct (Z.ltb_spec 0 (Poller.numEvents waited)); [lia|reflexivity].
Qed.

Lemma X5_poll_witness :
  let channels : gmap Z (Channel.t unit) :=
    <[10 := Channel.new 1 5]> (<[20 := Channel.new 1 6]> ∅) in
  let waited :=
    Poller.mkWaited 2 [Poller.mk_event 4 20; Poller.mk_event 1 10] in
  let m_events := replicate 2 (Poller.mk_event 0 0) in
  match Poller.poll waited 100 m_events [] channels with
  | Some (now, m_events', activeChannels, channels') =>
      activeChannels = [20; 10]
      ∧ length m_events' = 4%nat
      ∧ Channel.m_revents <$> channels' !! 20 = Some 4
  | None => False
  end.
Proof.
  intros channels waited m_events.
  assert (Hnd : NoDup (Poller.ev_ptr <$> Poller.written waited)).
  { cbn. apply NoDup_cons. split.
    - intros Hin. apply elem_of_cons in Hin as [Hin|Hin]; [discriminate|].
      apply elem_of_nil in Hin. exact Hin.
    - apply NoDup_singleton. }
  assert (Hlive : ∀ event, event ∈ Poller.written waited ->
                           is_Some (channels !! Poller.ev_ptr event)).
  { intros event Hin. cbn in Hin.
    apply elem_of_cons in Hin as [->|Hin]; [eexists; reflexivity|].
    apply elem_of_cons in Hin as [->|Hin]; [eexists; reflexivity|].
    apply elem_of_nil in Hin. contradiction. }
  destruct (proj1 (X5_poll_hands_over_ready_channels waited 100 m_events []
                     channels ltac:(cbn; lia) Hnd Hlive) eq_refl)
    as (m_events' & channels' & Hrun & Hset & _ & Hlen).
  rewrite Hrun. split; [reflexivity|]. split.
  - rewrite Hlen. reflexivity.
  - pose proof (Hset (Poller.mk_event 4 20) (Channel.new 1 6)
                  ltac:(apply list_elem_of_here) eq_refl) as H20.
    cbn [Poller.ev_ptr Poller.ev_events] in H20. rewrite H20. reflexivity.
Defined.

(** X6. The poller does not guard the rule that two channels are not on the
    same fd at the same time. After any sequence of operations that keeps
    the rule, when a channel in state Added holds an fd, the first
    registration operation on a New channel with the same fd overwrites
    the entry of the table, so that [HasChannel] is false for the channel
    that is registered with the kernel, and issues an [ADD] that fails, the
    fd being in the interest list already (for the channel that holds it,
    when the calls before have succeeded). *)
Theorem X6_second_channel_on_a_registered_fd_fails {W : Type}
    (watchable : Z -> bool) (cs : gmap Z (Channel.t W))
    (ops : list Registration.Op) (a b : Z) (ca cb : Channel.t W)
    (o : Registration.Op) :
  Registration.fresh cs ->
  Registration.exclusive ops (Registration.mkReactor Poller.new cs) = true ->
  let r := Registration.perform_all ops (Registration.mkReactor Poller.new cs) in
  Registration.channels r !! a = Some ca ->
  Registration.channels r !! b = Some cb ->
  a <> b ->
  Channel.m_fd ca = Channel.m_fd cb ->
  Channel.m_status ca = Poller.k_Added ->
  Channel.m_status cb = Poller.k_New ->
  Registration.target o = b ->
  o <> Registration.DoRemove b ->
  let r' := Registration.perform o r in
  Registration.fd_is_own o r = false
  ∧ (∀ interest,
       Poller.interest_list watchable
         (Poller.m_epollfd (Registration.poller r)) = Some interest ->
       interest !! Channel.m_fd cb = Some (Channel.m_events ca, a))
  ∧ Poller.interest_list watchable
      (Poller.m_epollfd (Registration.poller r')) = None
  ∧ Poller.m_channels (Registration.poller r') !! Channel.m_fd ca = Some b
  ∧ Registration.channels r' !! a = Some ca
  ∧ Poller.HasChannel a ca (Registration.poller r') = false.
Proof.
  intros Hfresh Hex r Ha Hb Hab Hfd Hsa Hsb Ho Hnot r'.
  assert (Htab : Registration.table_matches r).
  { apply perform_all_table_matches; [apply fresh_table_matches, Hfresh|exact Hex]. }
  assert (Hheld : ∀ interest,
            Poller.interest_list watchable
              (Poller.m_epollfd (Registration.poller r)) = Some interest ->
            interest !! Channel.m_fd cb = Some (Channel.m_events ca, a)).
  { intros interest Hlist.
    apply (perform_all_holds_added watchable ops _
             (fresh_table_matches cs Hfresh) Hex) in Hlist.
    - apply Hlist. exists ca. auto.
    - intros i Hi. injection Hi as <-. apply fresh_holds_added, Hfresh. }
  assert (Htable : Poller.m_channels (Registration.poller r) !! Channel.m_fd cb
                   = Some a).
  { rewrite <- Hfd. apply (proj2 (Htab a ca Ha)). rewrite Hsa. discriminate. }
  split.
  { unfold Registration.fd_is_own, Channel.fd. rewrite Ho, Hb, Htable.
    apply Z.eqb_neq, Hab. }
  split; [exact Hheld|].
  subst r'. unfold Registration.perform. rewrite Ho, Hb.
  assert (Hupd : ∃ e,
    Registration.method o b cb (Registration.poller r)
    = Registration.update b (Channel.set_events e cb) (Registration.poller r)).
  { destruct o; cbn [Registration.target] in Ho; subst channel;
      cbn [Registration.method]; try (eexists; reflexivity). contradiction. }
  destruct Hupd as [e ->]. unfold Registration.update.
  set (c0 := Channel.set_inLoop true (Channel.set_events e cb)).
  destruct (UpdateChannel_cases b c0 (Registration.poller r)) as (Hnew & _).
  rewrite (Hnew Hsb).
  cbn [Registration.poller Registration.channels Poller.m_epollfd
       Poller.m_channels Channel.m_fd Channel.m_events c0 Channel.set_inLoop
       Channel.set_events].
  split; [|split; [|split]].
  - rewrite interest_list_snoc.
    destruct (Poller.interest_list watchable
                (Poller.m_epollfd (Registration.poller r)))
      as [interest|] eqn:Hlist; [|reflexivity].
    cbn [mbind option_bind]. unfold Poller.epoll_ctl.
    cbn [Poller.ctl_op Poller.ctl_fd Poller.ctl_events Poller.ctl_ptr Z.eqb
         EPOLL_CTL_ADD Pos.eqb].
    rewrite (Hheld _ eq_refl). destruct (negb _); reflexivity.
  - rewrite Hfd. apply lookup_insert_eq.
  - rewrite lookup_insert_ne by congruence. exact Ha.
  - unfold Poller.HasChannel, Channel.fd. cbn [Poller.m_channels].
    rewrite Hfd, lookup_insert_eq. apply Z.eqb_neq. congruence.
Qed.

Lemma X6_second_channel_witness :
  let watchable := fun fd => fd =? 5 in
  let cs : gmap Z (Channel.t unit) :=
    <[10 := Channel.new 1 5]> (<[20 := Channel.new 1 5]> ∅) in
  let r :=
    Registration.perform_all [Registration.DoOnReading 10]
      (Registration.mkReactor Poller.new cs) in
  let r' := Registration.perform (Registration.DoOnWriting 20) r in
  (Poller.ctl_op <$> Poller.m_epollfd (Registration.poller r'))
  = [EPOLL_CTL_ADD; EPOLL_CTL_ADD]
  ∧ Poller.interest_list watchable
      (Poller.m_epollfd (Registration.poller r))
    = Some {[5 := (3, 10)]}
  ∧ Poller.interest_list watchable
      (Poller.m_epollfd (Registration.poller r')) = None
  ∧ match Registration.channels r !! 10 with
    | Some ca => Poller.HasChannel 10 ca (Registration.poller r') = false
    | None => False
    end.
Proof.
  intros watchable cs r r'.
  assert (Hfresh : Registration.fresh cs).
  { change (map_Forall (fun _ c => Channel.m_status c = Poller.k_New) cs).
    repeat apply map_Forall_insert_2; try reflexivity. apply map_Forall_empty. }
  destruct (Registration.channels r !! 10) as [ca|] eqn:Ha;
    [|vm_compute in Ha; discriminate].
  destruct (Registration.channels r !! 20) as [cb|] eqn:Hb;
    [|vm_compute in Hb; discriminate].
  assert (Hca : ca = Channel.SetStatus Poller.k_Added
                       (Channel.set_inLoop true
                          (Channel.set_events 3 (Channel.new 1 5)))).
  { vm_compute in Ha. injection Ha as <-. reflexivity. }
  assert (Hcb : cb = Channel.new 1 5).
  { vm_compute in Hb. injection Hb as <-. reflexivity. }
  pose proof (X6_second_channel_on_a_registered_fd_fails watchable cs
                [Registration.DoOnReading 10] 10 20 ca cb
                (Registration.DoOnWriting 20) Hfresh eq_refl Ha Hb
                ltac:(discriminate) ltac:(subst; reflexivity)
                ltac:(subst; reflexivity) ltac:(subst; reflexivity) eq_refl
                ltac:(discriminate)) as (_ & _ & Hfail & _ & _ & Hhas).
  split; [vm_compute; reflexivity|]. split; [vm_compute; reflexivity|].
  split; [exact Hfail | exact Hhas].
Defined.

(** ** EventLoop: the pass over the extra tasks, and [quit] *)

Lemma invoke_jobs_running (jobs : list EventLoop.Job)
    (l : EventLoop.t EventLoop.Job) :
  EventLoop.m_runningExtraFunc l = true ->
  let l' := fold_left (fun l func => EventLoop.invoke_job func l) jobs l in
  EventLoop.m_ExtraFuncs l'
  = EventLoop.m_ExtraFuncs l ++ omap EventLoop.handed_in jobs
  ∧ EventLoop.m_wakeUpfd l'
    = EventLoop.m_wakeUpfd l
      + Z.of_nat (length (omap EventLoop.handed_in jobs))
  ∧ EventLoop.m_quit l' = EventLoop.m_quit l || existsb EventLoop.quits jobs
  ∧ EventLoop.m_runningExtraFunc l' = true
  ∧ EventLoop.m_threadID l' = EventLoop.m_threadID l
  ∧ EventLoop.m_loopNum l' = EventLoop.m_loopNum l
  ∧ EventLoop.m_returnTime l' = EventLoop.m_returnTime l.
Proof.
  revert l. induction jobs as [|job jobs IH]; intros l Hrun; cbn zeta.
  - cbn [fold_left omap list_omap existsb length]. rewrite app_nil_r, orb_false_r.
    repeat split; try assumption; lia.
  - cbn [fold_left].
    assert (Hstep :
      EventLoop.m_ExtraFuncs (EventLoop.invoke_job job l)
      = EventLoop.m_ExtraFuncs l
        ++ match EventLoop.handed_in job with Some next => [next] | None => [] end
      ∧ EventLoop.m_wakeUpfd (EventLoop.invoke_job job l)
        = EventLoop.m_wakeUpfd l
          + match EventLoop.handed_in job with Some _ => 1 | None => 0 end
      ∧ EventLoop.m_quit (EventLoop.invoke_job job l)
        = EventLoop.m_quit l || EventLoop.quits job
      ∧ EventLoop.m_runningExtraFunc (EventLoop.invoke_job job l) = true
      ∧ EventLoop.m_threadID (EventLoop.invoke_job job l)
        = EventLoop.m_threadID l
      ∧ EventLoop.m_loopNum (EventLoop.invoke_job job l)
        = EventLoop.m_loopNum l
      ∧ EventLoop.m_returnTime (EventLoop.invoke_job job l)
        = EventLoop.m_returnTime l).
    { destruct job as [| |next];
        cbn [EventLoop.invoke_job EventLoop.handed_in EventLoop.quits].
      - rewrite app_nil_r, orb_false_r, Z.add_0_r. repeat split. exact Hrun.
      - unfold EventLoop.quit, EventLoop.InLoopThread.
        cbn [EventLoop.m_threadID EventLoop.set_quit].
        rewrite Z.eqb_refl. cbn [negb EventLoop.set_quit EventLoop.m_ExtraFuncs
          EventLoop.m_wakeUpfd EventLoop.m_quit EventLoop.m_runningExtraFunc
          EventLoop.m_threadID EventLoop.m_loopNum EventLoop.m_returnTime].
        rewrite app_nil_r, orb_true_r, Z.add_0_r. repeat split. exact Hrun.
      - unfold EventLoop.AddExtraFunc, EventLoop.InLoopThread.
        cbn [EventLoop.m_threadID EventLoop.set_ExtraFuncs
             EventLoop.m_runningExtraFunc].
        rewrite Z.eqb_refl, Hrun. cbn [negb orb].
        unfold EventLoop.wakeup.
        cbn [EventLoop.set_wakeUpfd EventLoop.set_ExtraFuncs
             EventLoop.m_ExtraFuncs EventLoop.m_wakeUpfd EventLoop.m_quit
             EventLoop.m_runningExtraFunc EventLoop.m_threadID
             EventLoop.m_loopNum EventLoop.m_returnTime].
        rewrite orb_false_r. repeat split. exact Hrun. }
    destruct Hstep as (S1 & S2 & S3 & S4 & S5 & S6 & S7).
    destruct (IH _ S4) as (I1 & I2 & I3 & I4 & I5 & I6 & I7).
    cbn zeta in I1, I2, I3, I4, I5, I6, I7.
    rewrite I1, I2, I3, I4, I5, I6, I7, S1, S2, S3, S5, S6, S7.
    cbn [omap list_omap existsb].
    destruct (EventLoop.handed_in job) as [next|];
      cbn [length]; rewrite <- ?app_assoc, ?app_nil_r, <- ?orb_assoc;
      repeat split; lia.
Qed.

(** X7. [RunExtraFunc] invokes the tasks that are queued when it starts,
    and no other: a task that a task of the pass hands to [AddExtraFunc] is
    not invoked in the pass; it is in the queue when the pass ends, in the
    order of the calls, and for each of them the event-fd was written, so
    that the next [poll] returns at once. A task of the pass that calls
    [quit] sets the flag, and does not write the event-fd. *)
Theorem X7_tasks_handed_in_by_tasks_wait_for_the_next_pass
    (l : EventLoop.t EventLoop.Job) :
  let l' := EventLoop.RunExtraFunc EventLoop.invoke_job l in
  let handed := omap EventLoop.handed_in (EventLoop.m_ExtraFuncs l) in
  EventLoop.m_ExtraFuncs l' = handed
  ∧ EventLoop.GetExtraFuncsNum l' = Z.of_nat (length handed)
  ∧ EventLoop.m_wakeUpfd l' = EventLoop.m_wakeUpfd l + Z.of_nat (length handed)
  ∧ EventLoop.m_quit l'
    = EventLoop.m_quit l || existsb EventLoop.quits (EventLoop.m_ExtraFuncs l)
  ∧ EventLoop.m_runningExtraFunc l' = false
  ∧ EventLoop.m_loopNum l' = EventLoop.m_loopNum l.
Proof.
  intros l' handed. subst l' handed. unfold EventLoop.RunExtraFunc.
  cbn [EventLoop.m_ExtraFuncs EventLoop.set_runningExtraFunc].
  set (l0 := EventLoop.set_ExtraFuncs []
               (EventLoop.set_runningExtraFunc true l)).
  destruct (invoke_jobs_running (EventLoop.m_ExtraFuncs l) l0 eq_refl)
    as (H1 & H2 & H3 & _ & _ & H6 & _).
  cbn zeta in H1, H2, H3, H6. unfold EventLoop.GetExtraFuncsNum.
  cbn [EventLoop.m_ExtraFuncs EventLoop.m_wakeUpfd EventLoop.m_quit
       EventLoop.m_runningExtraFunc EventLoop.m_loopNum
       EventLoop.set_runningExtraFunc].
  rewrite H1, H2, H3, H6. repeat split.
Qed.

(** *** [quit] during an iteration *)







(** ** EventLoopThreadPool *)

Lemma lookup_spawned (spawn : nat -> Z) (N i : nat) :
  (i < N)%nat -> (spawn <$> seq 0 N) !! i = Some (spawn i).
Proof.
  intros Hi. rewrite list_lookup_fmap, lookup_seq_lt by exact Hi. reflexivity.
Qed.

(** X9. In a pool started with [threadNum] threads, after any number of
    calls of [GetNextLoop]: [GetAllLoops] returns a list that is not empty
    (the loops of the threads, or the base loop alone when there is no
    thread), the next call of [GetNextLoop] returns a loop of that list,
    and leaves the list as it is. *)
Theorem X9_next_loop_is_one_of_all_loops (spawn : nat -> Z)
    (base threadNum : Z) (n : nat) :
  0 <= threadNum < 2 ^ 31 ->
  let started :=
    EventLoopThreadPool.start spawn
      (EventLoopThreadPool.SetThreadNum threadNum
         (EventLoopThreadPool.new base)) in
  ∃ returned p all loop p',
    EventLoopThreadPool.calls n started = Some (returned, p)
    ∧ EventLoopThreadPool.GetAllLoops true p = Some all
    ∧ all = (if threadNum =? 0 then [base]
             else spawn <$> seq 0 (Z.to_nat threadNum))
    ∧ all <> []
    ∧ EventLoopThreadPool.GetNextLoop true p = Some (loop, p')
    ∧ loop ∈ all
    ∧ EventLoopThreadPool.GetAllLoops true p' = Some all.
Proof.
  intros Hrange started. subst started.
  unfold EventLoopThreadPool.start, EventLoopThreadPool.SetThreadNum,
    EventLoopThreadPool.new.
  cbn [EventLoopThreadPool.m_loops EventLoopThreadPool.m_next
       EventLoopThreadPool.m_loop EventLoopThreadPool.m_started
       EventLoopThreadPool.m_thrdNum app].
  destruct (Z.eqb_spec threadNum 0) as [->|Hne].
  - cbn [Z.to_nat seq fmap list_fmap].
    assert (Hbase : ∀ p, EventLoopThreadPool.m_loops p = [] ->
              EventLoopThreadPool.calls n p
              = Some (replicate n (EventLoopThreadPool.m_loop p), p)).
    { intros p Hp. induction n as [|n IH]; [reflexivity|].
      cbn [EventLoopThreadPool.calls]. unfold EventLoopThreadPool.GetNextLoop.
      rewrite Hp. cbn [mbind option_bind]. rewrite IH.
      reflexivity. }
    rewrite Hbase by reflexivity.
    eexists _, _, [base], base, _. split; [reflexivity|].
    split; [reflexivity|]. split; [reflexivity|]. split; [discriminate|].
    split; [reflexivity|]. split; [apply list_elem_of_here | reflexivity].
  - set (N := Z.to_nat threadNum).
    assert (HN : (0 < N)%nat) by lia.
    assert (HN' : Z.of_nat N < 2 ^ 31) by lia.
    pose proof (calls_started spawn base threadNum true N n HN' 0%nat HN)
      as Hcalls.
    change (Z.of_nat 0) with 0 in Hcalls.
    assert (Hi : ((0 + n) mod N < N)%nat) by (apply Nat.mod_upper_bound; lia).
    pose proof (GetNextLoop_started spawn base threadNum true N _ Hi HN')
      as Hnext.
    assert (Hall : ∀ next,
      EventLoopThreadPool.GetAllLoops true
        (EventLoopThreadPool.mk base true threadNum next (spawn <$> seq 0 N))
      = Some (spawn <$> seq 0 N)).
    { intros next. unfold EventLoopThreadPool.GetAllLoops.
      cbn [EventLoopThreadPool.m_loops].
      destruct (spawn <$> seq 0 N) eqn:Hl; [|reflexivity].
      destruct N; [lia|discriminate]. }
    eexists _, _, (spawn <$> seq 0 N), _, _. split; [exact Hcalls|].
    split; [apply Hall|]. split; [reflexivity|]. split.
    { intros Hnil. destruct N; [lia|discriminate]. }
    split; [exact Hnext|]. split; [|apply Hall].
    apply list_elem_of_lookup. exists ((0 + n) mod N)%nat.
    apply lookup_spawned, Hi.
Qed.

Lemma X9_next_loop_witness :
  let started :=
    EventLoopThreadPool.start (fun i => 100 + Z.of_nat i)
      (EventLoopThreadPool.SetThreadNum 3 (EventLoopThreadPool.new 99)) in
  ∃ returned p all loop p',
    EventLoopThreadPool.calls 4 started = Some (returned, p)
    ∧ EventLoopThreadPool.GetAllLoops true p = Some all
    ∧ all = [100; 101; 102]
    ∧ all <> []
    ∧ EventLoopThreadPool.GetNextLoop true p = Some (loop, p')
    ∧ loop ∈ all
    ∧ EventLoopThreadPool.GetAllLoops true p' = Some all.
Proof.
  exact (X9_next_loop_is_one_of_all_loops (fun i => 100 + Z.of_nat i) 99 3 4
           ltac:(lia)).
Defined.

(** X10. [GetLoopRandom] in a pool started with [threadNum] threads: with
    at least one thread it returns the loop of one of the threads, whatever
    [rand()] returns; with no thread it has no value to return, where
    [GetNextLoop] returns the base loop and [GetAllLoops] the list of the
    base loop alone. *)
Theorem X10_random_loop_is_a_thread_loop_if_any (spawn : nat -> Z)
    (base threadNum rand : Z) :
  0 <= threadNum < 2 ^ 31 ->
  let started :=
    EventLoopThreadPool.start spawn
      (EventLoopThreadPool.SetThreadNum threadNum
         (EventLoopThreadPool.new base)) in
  (threadNum = 0 ->
   EventLoopThreadPool.GetLoopRandom true rand started = None
   ∧ fst <$> EventLoopThreadPool.GetNextLoop true started = Some base
   ∧ EventLoopThreadPool.GetAllLoops true started = Some [base])
  ∧ (0 < threadNum ->
     ∃ i all,
       (i < Z.to_nat threadNum)%nat
       ∧ Z.of_nat i = (rand mod 2 ^ 64) mod threadNum
       ∧ EventLoopThreadPool.GetLoopRandom true rand started = Some (spawn i)
       ∧ EventLoopThreadPool.GetAllLoops true started = Some all
       ∧ spawn i ∈ all).
Proof.
  intros Hrange started. subst started.
  unfold EventLoopThreadPool.start, EventLoopThreadPool.SetThreadNum,
    EventLoopThreadPool.new, EventLoopThreadPool.GetLoopRandom,
    EventLoopThreadPool.GetNextLoop, EventLoopThreadPool.GetAllLoops.
  cbn [EventLoopThreadPool.m_loops EventLoopThreadPool.m_next
       EventLoopThreadPool.m_loop EventLoopThreadPool.m_started
       EventLoopThreadPool.m_thrdNum app].
  split.
  - intros ->. cbn [Z.to_nat seq fmap list_fmap option_fmap option_map fst].
    repeat split.
  - intros Hpos. set (N := Z.to_nat threadNum).
    assert (Hlen : Z.of_nat (length (spawn <$> seq 0 N)) = threadNum).
    { rewrite length_fmap, length_seq. lia. }
    destruct (spawn <$> seq 0 N) as [|x xs] eqn:Hl.
    { cbn [length] in Hlen. lia. }
    rewrite <- Hl in *. clear x xs Hl. rewrite Hlen.
    pose proof (Z.mod_pos_bound (rand mod 2 ^ 64) threadNum Hpos) as Hmod.
    set (i := Z.to_nat ((rand mod 2 ^ 64) mod threadNum)).
    assert (Hi : (i < N)%nat) by lia.
    exists i, (spawn <$> seq 0 N). split; [exact Hi|]. split; [lia|].
    split; [apply lookup_spawned, Hi|]. split; [reflexivity|].
    apply list_elem_of_lookup. exists i. apply lookup_spawned, Hi.
Qed.

Lemma X10_random_loop_witness :
  let started :=
    EventLoopThreadPool.start (fun i => 100 + Z.of_nat i)
      (EventLoopThreadPool.SetThreadNum 3 (EventLoopThreadPool.new 99)) in
  EventLoopThreadPool.GetLoopRandom true 1804289383 started = Some 101
  ∧ EventLoopThreadPool.GetLoopRandom true 1804289383
      (EventLoopThreadPool.start (fun i => 100 + Z.of_nat i)
         (EventLoopThreadPool.new 99)) = None.
Proof.
  intros started. split.
  - destruct (proj2 (X10_random_loop_is_a_thread_loop_if_any
                       (fun i => 100 + Z.of_nat i) 99 3 1804289383 ltac:(lia))
                ltac:(lia)) as (i & all & _ & Hi & Hrun & _).
    fold started in Hrun. rewrite Hrun, Hi. reflexivity.
  - exact (proj1 (proj1 (X10_random_loop_is_a_thread_loop_if_any
                           (fun i => 100 + Z.of_nat i) 99 0 1804289383
                           ltac:(lia)) eq_refl)).
Defined.

(** ** TimerQueue: the queue between two polls *)

Section TimerQueueLife.

Import TimerQueue.

Implicit Types (k : Key) (m : TimerMap) (q : t) (objs : gmap Z Timer).

(** *** Well-formed queues as maps of added timers *)

Lemma entry_ok_nothing (now : Timestamp) (n : Z) objs (entry : Z * Z * Z) :
  entry_ok nothing now n objs entry <-> owns objs entry = true.
Proof.
  rewrite owns_spec. unfold entry_ok, added, nothing. cbn [objects].
  split.
  - intros (H1 & H2 & tm & H3 & H4 & _). eauto.
  - intros (H1 & H2 & tm & H3 & H4). split; [exact H1|]. split; [exact H2|].
    exists tm. split; [exact H3|]. split; [exact H4|]. right. right.
    apply lookup_empty.
Qed.

Lemma well_formed_ok (now : Timestamp) (n : Z) q :
  well_formed q = true
  <-> sorted (m_timers q) = true ∧ map_ok nothing now n q.
Proof.
  split.
  - intros Hwf. apply well_formed_spec in Hwf as [Hs Ho]. split; [exact Hs|].
    split; [exact (sorted_NoDup _ _ Hs Ho)|].
    eapply Forall_impl; [exact Ho|]. intros entry. apply entry_ok_nothing.
  - intros [Hs [_ Hall]]. unfold well_formed. rewrite Hs. cbn [andb].
    apply forallb_forall. intros entry Hin. apply list_elem_of_In in Hin.
    rewrite Forall_forall in Hall. apply entry_ok_nothing with now n, Hall, Hin.
Qed.

Lemma well_formed_fields q q' :
  m_timers q' = m_timers q -> objects q' = objects q ->
  well_formed q = true -> well_formed q' = true.
Proof. unfold well_formed. intros -> ->. auto. Qed.

(** *** Looking up *)

Lemma find_app k m1 m2 :
  find k (m1 ++ m2)
  = match find k m1 with Some owned => Some owned | None => find k m2 end.
Proof.
  induction m1 as [|[k' owned] m1 IH]; [reflexivity|].
  cbn [app find]. destruct (key_eqb k' k); [reflexivity | exact IH].
Qed.

Lemma find_None_ptr k m : k.2 ∉ key_ptrs m -> find k m = None.
Proof.
  induction m as [|[k' owned] m IH]; [reflexivity|].
  unfold key_ptrs. rewrite fmap_cons, not_elem_of_cons. cbn [fst snd find].
  intros [Hne Hnot]. destruct (key_eqb k' k) eqn:Heq.
  - apply key_eqb_eq in Heq. subst k'. contradiction.
  - apply IH, Hnot.
Qed.

Lemma find_held k (owned : Z) m :
  NoDup (key_ptrs m) -> (k, owned) ∈ m -> find k m = Some owned.
Proof.
  induction m as [|[k' owned'] m IH]; intros Hnd Hin.
  - apply elem_of_nil in Hin. contradiction.
  - unfold key_ptrs in Hnd. rewrite fmap_cons in Hnd.
    apply NoDup_cons in Hnd as [Hnot Hnd]. cbn [find].
    apply elem_of_cons in Hin as [[= <- <-]|Hin].
    + rewrite key_eqb_refl. reflexivity.
    + destruct (key_eqb k' k) eqn:Heq.
      * apply key_eqb_eq in Heq. subst k'. exfalso. apply Hnot.
        cbn [fst snd]. change (k.2) with ((k, owned).1.2).
        apply (list_elem_of_fmap_2 (fun e : Z * Z * Z => e.1.2)), Hin.
      * apply IH; assumption.
Qed.

Lemma key_ptrs_elem (p : Z) m :
  p ∈ key_ptrs m <-> ∃ entry, entry ∈ m ∧ entry.1.2 = p.
Proof.
  unfold key_ptrs. rewrite list_elem_of_fmap. split.
  - intros (entry & -> & Hin). eauto.
  - intros (entry & Hin & <-). eauto.
Qed.

Lemma head_least (first : Z * Z * Z) m (entry : Z * Z * Z) :
  sorted (first :: m) = true -> entry ∈ first :: m -> first.1.1 <= entry.1.1.
Proof. intros Hs Hin. exact (sorted_first _ _ Hs _ Hin). Qed.

Lemma earliest_forallb (when : Timestamp) m :
  sorted m = true ->
  match m with
  | [] => true
  | (first, _) :: _ => when <? first.1
  end = forallb (fun entry : Z * Z * Z => when <? entry.1.1) m.
Proof.
  destruct m as [|[first owned] m]; [reflexivity|]. intros Hs.
  destruct (Z.ltb_spec when first.1) as [Hlt|Hge].
  - symmetry. apply forallb_forall. intros entry Hin.
    apply list_elem_of_In in Hin. apply Z.ltb_lt.
    pose proof (head_least _ _ _ Hs Hin) as Hle. cbn [fst] in Hle. lia.
  - cbn [forallb fst]. destruct (Z.ltb_spec when first.1); [lia|reflexivity].
Qed.

(** *** [insert] *)

Lemma insert_spec (timer : Z) (tm : Timer) q :
  well_formed q = true ->
  valid_address timer = true ->
  objects q !! timer = Some tm ->
  timer ∉ key_ptrs (m_timers q) ->
  ∃ m',
    insert timer q
    = Some (forallb (fun entry : Z * Z * Z => m_runtime tm <? entry.1.1)
              (m_timers q),
            set_timers m' (objects q) q)
    ∧ find (m_runtime tm, timer) m' = Some timer
    ∧ (∀ entry, entry ∈ m'
         <-> entry = ((m_runtime tm, timer), timer) ∨ entry ∈ m_timers q)
    ∧ well_formed (set_timers m' (objects q) q) = true.
Proof.
  intros Hwf Hvalid Htm Hfresh.
  pose proof (proj1 (well_formed_ok 0 0 q) Hwf) as [Hs Hok].
  unfold insert. rewrite Htm. cbn [mbind option_bind]. unfold GetRuntime.
  rewrite (earliest_forallb (m_runtime tm) (m_timers q) Hs).
  destruct (assign_fresh (m_runtime tm, timer) timer (m_timers q) Hfresh)
    as (m1 & m2 & Hsplit & Hassign).
  pose proof (sorted_assign (m_runtime tm, timer) timer (m_timers q) Hs) as Hs'.
  assert (Hentry : entry_ok nothing 0 0 (objects q)
                     ((m_runtime tm, timer), timer)).
  { apply entry_ok_nothing, owns_spec. cbn [fst snd]. eauto. }
  destruct (ok_assign nothing 0 0 _ _ (objects q) (objects q) _ _ _ Hok Hfresh
              ltac:(auto) Hentry Hassign) as (_ & Hok' & _).
  rewrite Hassign in Hs' |- *. cbn [fst] in Hs'. rewrite destroy_null.
  exists (m1 ++ ((m_runtime tm, timer), timer) :: m2).
  split; [reflexivity|]. split; [|split].
  - rewrite find_app, find_None_ptr.
    + cbn [find]. rewrite key_eqb_refl. reflexivity.
    + cbn [snd]. intros Hin. apply Hfresh. rewrite Hsplit. unfold key_ptrs in *.
      rewrite fmap_app, elem_of_app. auto.
  - intros entry. rewrite Hsplit, !elem_of_app, elem_of_cons. tauto.
  - apply (well_formed_ok 0 0). split; [exact Hs' | exact Hok'].
Qed.

(** *** [add] and [cancel] between two polls *)

Lemma well_formed_alloc (timer : Z) (tm : Timer) q :
  well_formed q = true ->
  objects q !! timer = None ->
  well_formed (set_timers (m_timers q) (<[timer := tm]> (objects q)) q) = true
  ∧ timer ∉ key_ptrs (m_timers q).
Proof.
  intros Hwf Hfree.
  pose proof (proj1 (well_formed_ok 0 0 q) Hwf) as [Hs [Hnd Hall]].
  assert (Hnotin : timer ∉ key_ptrs (m_timers q)).
  { intros Hin. destruct (key_ptrs_alive _ _ _ _ _ _ Hall Hin) as [x Hx].
    congruence. }
  split; [|exact Hnotin].
  apply (well_formed_ok 0 0). cbn [m_timers set_timers]. split; [exact Hs|].
  split; [exact Hnd|]. cbn [m_timers objects set_timers].
  rewrite Forall_forall in *. intros entry Hin.
  apply entry_ok_objs with (objects q); [|auto].
  apply lookup_insert_ne. intros Heq.
  destruct (entry_ok_ptr _ _ _ _ _ _ (proj2 (Forall_forall _ _) Hall) Hin)
    as (Hp & _). rewrite <- Heq in Hp. contradiction.
Qed.

Lemma add_spec (timer : Z) (callback : list Action) (when : Timestamp)
    (interval : Z) q :
  well_formed q = true ->
  valid_address timer = true ->
  objects q !! timer = None ->
  ∃ m',
    add timer callback when interval q
    = Some
        (let q1 :=
           set_timers m' (<[timer := mkTimer callback when interval]> (objects q))
             q in
         if forallb (fun entry : Z * Z * Z => when <? entry.1.1) (m_timers q)
         then (ResetTimerfd when q1).2 else q1)
    ∧ find (when, timer) m' = Some timer
    ∧ (∀ entry, entry ∈ m'
         <-> entry = ((when, timer), timer) ∨ entry ∈ m_timers q)
    ∧ well_formed
        (set_timers m' (<[timer := mkTimer callback when interval]> (objects q))
           q) = true.
Proof.
  intros Hwf Hvalid Hfree. unfold add. rewrite Hvalid, Hfree.
  set (tm := mkTimer callback when interval).
  destruct (well_formed_alloc timer tm q Hwf Hfree) as [Hwf1 Hnotin].
  set (q1 := set_timers (m_timers q) (<[timer := tm]> (objects q)) q) in *.
  assert (Htm : objects q1 !! timer = Some tm) by apply lookup_insert_eq.
  destruct (insert_spec timer tm q1 Hwf1 Hvalid Htm Hnotin)
    as (m' & Hins & Hfind & Hin & Hwf').
  exists m'. unfold AddInLoop. rewrite Hins. cbn [mbind option_bind].
  cbn [m_runtime tm m_timers objects set_timers q1] in *.
  split; [|split; [exact Hfind|split; [exact Hin|exact Hwf']]].
  destruct (forallb _ _); [|reflexivity].
  rewrite lookup_insert_eq. reflexivity.
Qed.

Lemma ResetTimerfd_log (runtime : Timestamp) q :
  m_timerfd (ResetTimerfd runtime q).2
  = m_timerfd q ++ [(runtime, hd 0 (settime q))]
  ∧ m_cancelledSoon (ResetTimerfd runtime q).2 = m_cancelledSoon q
  ∧ invoked (ResetTimerfd runtime q).2 = invoked q.
Proof. unfold ResetTimerfd. destruct (settime q); repeat split. Qed.

Lemma well_formed_sorted q : well_formed q = true -> sorted (m_timers q) = true.
Proof. intros Hwf. apply well_formed_spec in Hwf. tauto. Qed.

(** A timer added between two polls is held under its expiry and its
    address next to the timers held before; the timer-fd is asked for the
    expiry exactly when it is before every expiry held. *)
Lemma add_at_rest (timer : Z) (callback : list Action) (when : Timestamp)
    (interval : Z) q :
  well_formed q = true ->
  valid_address timer = true ->
  objects q !! timer = None ->
  ∃ q',
    add timer callback when interval q = Some q'
    ∧ find (when, timer) (m_timers q') = Some timer
    ∧ (∀ entry, entry ∈ m_timers q'
         <-> entry = ((when, timer), timer) ∨ entry ∈ m_timers q)
    ∧ objects q' = <[timer := mkTimer callback when interval]> (objects q)
    ∧ well_formed q' = true
    ∧ calls_since q q'
      = (if forallb (fun entry : Z * Z * Z => when <? entry.1.1) (m_timers q)
         then [(when, hd 0 (settime q))] else [])
    ∧ runningCallback q' = runningCallback q
    ∧ m_cancelledSoon q' = m_cancelledSoon q
    ∧ invoked q' = invoked q
    ∧ (asked_in_time q -> asked_in_time q').
Proof.
  intros Hwf Hvalid Hfree.
  destruct (add_spec timer callback when interval q Hwf Hvalid Hfree)
    as (m' & Hadd & Hfind & Hin & Hwf').
  set (q1 := set_timers m'
               (<[timer := mkTimer callback when interval]> (objects q)) q) in *.
  eexists. split; [exact Hadd|]. cbn zeta.
  pose proof (well_formed_sorted _ Hwf) as Hs.
  pose proof (well_formed_sorted _ Hwf') as Hs'. cbn [m_timers set_timers q1] in Hs'.
  destruct (forallb (fun entry : Z * Z * Z => when <? entry.1.1) (m_timers q))
    eqn:Hearly.
  - destruct (ResetTimerfd_fields when q1) as (F1 & F2 & F3 & _).
    destruct (ResetTimerfd_log when q1) as (L1 & L2 & L3).
    cbn zeta in F1, F2, F3.
    split; [rewrite F2; exact Hfind|]. split; [rewrite F2; exact Hin|].
    split; [rewrite F3; reflexivity|].
    split; [eapply well_formed_fields; [| |exact Hwf']; assumption|].
    split; [unfold calls_since; rewrite L1;
            cbn [m_timerfd set_timers q1 settime]; apply drop_app_length|].
    split; [rewrite F1; reflexivity|]. split; [rewrite L2; reflexivity|].
    split; [rewrite L3; reflexivity|].
    intros _. unfold asked_in_time. rewrite F2, L1. cbn [m_timers set_timers q1].
    destruct m' as [|[first owned] rest] eqn:Hm'; [exact I|].
    eexists _, _. rewrite last_snoc. split; [reflexivity|].
    assert (Hfirst : (first, owned) ∈ (first, owned) :: rest)
      by apply list_elem_of_here.
    apply Hin in Hfirst as [[= -> ->]|Hold]; [cbn [fst]; lia|].
    rewrite forallb_forall in Hearly. apply list_elem_of_In, Hearly in Hold.
    apply Z.ltb_lt in Hold. cbn [fst] in Hold. lia.
  - cbn [m_timers objects set_timers q1 runningCallback m_cancelledSoon
         invoked m_timerfd].
    split; [exact Hfind|]. split; [exact Hin|]. split; [reflexivity|].
    split; [exact Hwf'|].
    split; [unfold calls_since; cbn [m_timerfd set_timers q1];
            apply drop_all|].
    repeat (split; [reflexivity|]).
    unfold asked_in_time. cbn [m_timers m_timerfd set_timers q1].
    destruct (m_timers q) as [|[k0 owned0] rest0] eqn:Hm; [discriminate|].
    intros (runtime & r & Hlast & Hle).
    destruct m' as [|[first owned] rest] eqn:Hm'; [exact I|].
    exists runtime, r. split; [exact Hlast|].
    assert (Hnot : ¬ when < k0.1).
    { cbn [forallb fst] in Hearly. apply andb_false_iff in Hearly as [H|H].
      - apply Z.ltb_ge in H. lia.
      - intros Hlt. apply not_true_iff_false in H. apply H.
        apply forallb_forall. intros entry Hentry.
        apply list_elem_of_In in Hentry. apply Z.ltb_lt.
        assert (Hmem : entry ∈ (k0, owned0) :: rest0)
          by (apply list_elem_of_further; exact Hentry).
        pose proof (head_least _ _ _ Hs Hmem) as Hle'. cbn [fst] in Hle'. lia. }
    assert (Hfirst : (first, owned) ∈ (first, owned) :: rest)
      by apply list_elem_of_here.
    apply Hin in Hfirst as [[= -> ->]|Hold]; [cbn [fst]; lia|].
    pose proof (head_least _ _ _ Hs Hold) as Hle'. cbn [fst] in Hle'. lia.
Qed.

Lemma asked_in_time_sub q q' :
  sorted (m_timers q) = true ->
  (∀ entry, entry ∈ m_timers q' -> entry ∈ m_timers q) ->
  m_timerfd q' = m_timerfd q ->
  asked_in_time q -> asked_in_time q'.
Proof.
  intros Hs Hsub Hlog. unfold asked_in_time. rewrite Hlog.
  destruct (m_timers q') as [|[first' owned'] rest']; [auto|].
  assert (Hin : (first', owned') ∈ m_timers q)
    by (apply Hsub, list_elem_of_here).
  destruct (m_timers q) as [|[first owned] rest].
  { apply elem_of_nil in Hin. contradiction. }
  intros (runtime & r & Hlast & Hle). exists runtime, r. split; [exact Hlast|].
  pose proof (head_least _ _ _ Hs Hin) as Hle'. cbn [fst] in *. lia.
Qed.

Lemma valid_address_nonzero (p : Z) : valid_address p = true -> p <> 0.
Proof. unfold valid_address. rewrite andb_true_iff, Z.ltb_lt. lia. Qed.

Lemma held_entry (p : Z) (tm : Timer) q :
  well_formed q = true ->
  objects q !! p = Some tm ->
  p ∈ key_ptrs (m_timers q) ->
  ((m_runtime tm, p), p) ∈ m_timers q ∧ valid_address p = true.
Proof.
  intros Hwf Htm Hin. apply well_formed_spec in Hwf as [_ Ho].
  apply key_ptrs_elem in Hin as (entry & Hin & Hp).
  rewrite Forall_forall in Ho. specialize (Ho _ Hin).
  apply owns_spec in Ho as (Hself & Hvalid & tm' & Htm' & Hrt).
  rewrite Hself, Hp in Htm', Hvalid. rewrite Htm in Htm'. injection Htm' as <-.
  destruct entry as [[e p'] owned]. cbn [fst snd] in *. subst. auto.
Qed.

(** A cancel made between two polls takes the timer out of the map and
    destroys it, and leaves the other timers and the timer-fd as they
    are. *)
Lemma cancel_at_rest (id : Z) (tm : Timer) q :
  well_formed q = true ->
  runningCallback q = false ->
  objects q !! id = Some tm ->
  ∃ q',
    cancel id q = Some q'
    ∧ (∀ entry, entry ∈ m_timers q' <-> entry ∈ m_timers q ∧ entry.1.2 <> id)
    ∧ objects q'
      = (if decide (id ∈ key_ptrs (m_timers q)) then delete id (objects q)
         else objects q)
    ∧ well_formed q' = true
    ∧ m_timerfd q' = m_timerfd q
    ∧ runningCallback q' = false
    ∧ m_cancelledSoon q' = m_cancelledSoon q
    ∧ invoked q' = invoked q
    ∧ (asked_in_time q -> asked_in_time q').
Proof.
  intros Hwf Hrun Htm.
  pose proof (proj1 (well_formed_ok 0 0 q) Hwf) as [Hs Hok].
  unfold cancel, CancelInLoop, TimerID_Key. rewrite Htm.
  cbn [mbind option_bind]. unfold GetRuntime.
  destruct (decide (id ∈ key_ptrs (m_timers q))) as [Hin|Hnotin].
  - destruct (held_entry id tm q Hwf Htm Hin) as [Hheld Hvalid].
    rewrite (find_held _ _ _ (proj1 Hok) Hheld), Hrun. cbn [negb].
    destruct (erase_cases (m_runtime tm, id) (m_timers q))
      as [[_ Hnot]|(m1 & m2 & owned & Hsplit & Herase)].
    { exfalso. apply Hnot.
      change (m_runtime tm, id) with ((m_runtime tm, id, id).1).
      apply (list_elem_of_fmap_2 fst), Hheld. }
    assert (Howned : owned = id).
    { destruct Hok as [_ Hall]. rewrite Hsplit in Hall.
      apply Forall_app in Hall as [_ Hall].
      apply Forall_cons in Hall as [(Hself & _) _]. exact Hself. }
    subst owned. rewrite Herase.
    pose proof (sorted_erase (m_runtime tm, id) (m_timers q) Hs) as Hs'.
    rewrite Herase in Hs'. cbn [fst] in Hs'.
    unfold map_ok in Hok. rewrite Hsplit in Hok.
    destruct (ok_remove nothing 0 0 m1 m2 (objects q) ((m_runtime tm, id), id)
                Hok) as [Hok' _]. cbn [snd] in Hok'.
    assert (Hchar : ∀ entry, entry ∈ m1 ++ m2
                             <-> entry ∈ m_timers q ∧ entry.1.2 <> id).
    { intros entry. rewrite Hsplit, !elem_of_app, elem_of_cons.
      destruct Hok as [Hnd _]. unfold key_ptrs in Hnd.
      rewrite fmap_app, fmap_cons in Hnd.
      apply NoDup_app in Hnd as (_ & Hdisj & Hnd2).
      apply NoDup_cons in Hnd2 as [Hnot2 _]. cbn [fst snd] in *.
      split.
      - intros [H1|H2].
        + split; [auto|]. intros Heq.
          apply (list_elem_of_fmap_2 (fun e : Z * Z * Z => e.1.2)) in H1.
          apply (Hdisj _ H1). rewrite Heq. apply list_elem_of_here.
        + split; [auto|]. intros Heq. apply Hnot2. rewrite <- Heq.
          apply (list_elem_of_fmap_2 (fun e : Z * Z * Z => e.1.2)), H2.
      - intros [[H1|[->|H2]] Hne]; [auto| |auto]. cbn [fst snd] in Hne.
        contradiction. }
    eexists. split; [reflexivity|].
    cbn [m_timers objects set_timers m_timerfd runningCallback
         m_cancelledSoon invoked].
    split; [exact Hchar|].
    split; [unfold destroy;
            destruct (Z.eqb_spec id 0) as [Hz|_];
            [apply valid_address_nonzero in Hvalid; contradiction|reflexivity]|].
    split; [apply (well_formed_ok 0 0); split; [exact Hs' | exact Hok']|].
    split; [reflexivity|]. split; [exact Hrun|]. split; [reflexivity|].
    split; [reflexivity|].
    apply asked_in_time_sub; [exact Hs| |reflexivity].
    cbn [m_timers set_timers]. intros entry Hentry. apply Hchar in Hentry. tauto.
  - rewrite find_None_ptr by exact Hnotin. eexists. split; [reflexivity|].
    split; [|repeat (split; [first [reflexivity|assumption]|]); auto].
    intros entry. split; [|tauto]. intros Hentry. split; [exact Hentry|].
    intros Heq. apply Hnotin, key_ptrs_elem. eauto.
Qed.

(** *** What the callbacks leave alone *)

Lemma add_inv (timer : Z) (callback : list Action) (when : Timestamp)
    (interval : Z) q q' :
  add timer callback when interval q = Some q' ->
  valid_address timer = true ∧ objects q !! timer = None.
Proof.
  unfold add. destruct (valid_address timer); [|discriminate].
  destruct (objects q !! timer); [discriminate|]. auto.
Qed.

Lemma add_invoked (timer : Z) (callback : list Action) (when : Timestamp)
    (interval : Z) q q' :
  add timer callback when interval q = Some q' -> invoked q' = invoked q.
Proof.
  unfold add. destruct (valid_address timer); [|discriminate].
  destruct (objects q !! timer); [discriminate|].
  unfold AddInLoop, insert. cbn [objects set_timers].
  rewrite lookup_insert_eq. cbn [mbind option_bind].
  destruct (assign _ _ _) as [m' old]. cbn [mbind option_bind].
  match goal with |- (if ?b then _ else _) = _ -> _ => destruct b end.
  - match goal with |- context [objects ?q1 !! timer] =>
      destruct (objects q1 !! timer) as [tm|]; [|discriminate] end.
    cbn [mbind option_bind]. intros [= <-].
    rewrite (proj2 (proj2 (ResetTimerfd_log _ _))). reflexivity.
  - intros [= <-]. reflexivity.
Qed.

Lemma CancelInLoop_invoked (id : Z) q q' :
  CancelInLoop id q = Some q' -> invoked q' = invoked q.
Proof.
  unfold CancelInLoop. destruct (TimerID_Key id q) as [key|]; [|discriminate].
  cbn [mbind option_bind]. destruct (find key (m_timers q)).
  - destruct (negb (runningCallback q)).
    + destruct (erase key (m_timers q)). intros [= <-]. reflexivity.
    + intros [= <-]. reflexivity.
  - intros [= <-]. reflexivity.
Qed.

Lemma perform_all_invoked (callback : list Action) q q' :
  perform_all callback q = Some q' -> invoked q' = invoked q.
Proof.
  revert q. induction callback as [|a callback IH]; intros q.
  - intros [= <-]. reflexivity.
  - cbn [perform_all]. destruct (perform a q) as [q1|] eqn:Ha; [|discriminate].
    cbn [mbind option_bind]. intros Hrest. rewrite (IH _ Hrest).
    destruct a as [id|timer cb when interval]; cbn [perform cancel] in Ha.
    + exact (CancelInLoop_invoked _ _ _ Ha).
    + exact (add_invoked _ _ _ _ _ _ Ha).
Qed.

Lemma run_each_invoked (items : list Z) q q' :
  run_each items q = Some q' -> invoked q' = invoked q ++ items.
Proof.
  revert q. induction items as [|item items IH]; intros q.
  - intros [= <-]. rewrite app_nil_r. reflexivity.
  - cbn [run_each]. destruct (Timer_run item q) as [q1|] eqn:Hrun; [|discriminate].
    cbn [mbind option_bind]. intros Hrest. rewrite (IH _ Hrest).
    unfold Timer_run in Hrun.
    destruct (objects q !! item) as [tm|]; [|discriminate].
    cbn [mbind option_bind] in Hrun.
    rewrite (perform_all_invoked _ _ _ Hrun). cbn [invoked set_invoked].
    rewrite <- app_assoc. reflexivity.
Qed.

(** *** The three loops of [reset], and what they leave alone *)

Lemma spent_null m : spent m 0.
Proof. left. reflexivity. Qed.

Lemma spent_sub m m' (p : Z) :
  (∀ x, x ∈ key_ptrs m' -> x ∈ key_ptrs m) -> spent m p -> spent m' p.
Proof. intros Hsub [Hz|Hnot]; [left; exact Hz | right; auto]. Qed.

Lemma reset_repeating_spent (q0 : t) (now : Timestamp) (timeout : list Z) :
  ∀ q timeout' q',
    map_ok q0 now 1 q ->
    timeout_ok q0 now timeout q ->
    NoDup timeout ->
    reset_repeating timeout q = Some (timeout', q') ->
    Forall (spent (m_timers q')) timeout'
    ∧ (∀ p tm0, p ∈ timeout -> objects q0 !! p = Some tm0 ->
                IsRepeat tm0 = false -> p ∈ timeout')
    ∧ (∀ x, x ∈ key_ptrs (m_timers q') ->
            x ∈ key_ptrs (m_timers q) ∨ x ∈ timeout)
    ∧ (∀ x, x ∉ timeout -> objects q' !! x = objects q !! x)
    ∧ runningCallback q' = runningCallback q
    ∧ invoked q' = invoked q
    ∧ m_timerfd q' = m_timerfd q.
Proof.
  induction timeout as [|item timeout IH]; intros q timeout' q' Hok Hto Hnd.
  - intros [= <- <-]. repeat split; auto.
  - destruct Hto as [Hpend Hdisj].
    apply Forall_cons in Hpend as [Hitem Hpend].
    apply Forall_cons in Hdisj as [Hnotin Hdisj].
    apply NoDup_cons in Hnd as [Hfirst Hnd].
    destruct Hitem as (Hvalid & tm0 & Hq0 & Hobj & Hheld & Hdue).
    cbn [reset_repeating]. rewrite Hobj. cbn [mbind option_bind].
    destruct (IsRepeat tm0) eqn:Hrep.
    + set (objs := <[item := restart tm0]> (objects q)).
      destruct (assign (GetRuntime (restart tm0), item) item (m_timers q))
        as [m' old] eqn:Hassign.
      assert (Hsame : ∀ p', p' ∈ key_ptrs (m_timers q) ->
                objs !! p' = objects q !! p').
      { intros p' Hin. apply lookup_insert_ne. congruence. }
      assert (Hentry : entry_ok q0 now 1 objs
                         ((GetRuntime (restart tm0), item), item)).
      { split; [reflexivity|]. split; [exact Hvalid|]. exists (restart tm0).
        split; [apply lookup_insert_eq|]. split; [reflexivity|]. right. left.
        split.
        - exists tm0, 1. cbn [fst snd]. repeat split; try assumption; try lia.
          unfold GetRuntime, restart. cbn [m_runtime]. lia.
        - intros tm0' H'. cbn [snd] in H'. rewrite Hq0 in H'.
          injection H' as <-. reflexivity. }
      destruct (ok_assign _ _ _ _ _ _ _ _ _ _ Hok Hnotin Hsame Hentry Hassign)
        as (-> & Hok' & Hptrs).
      rewrite destroy_null.
      destruct (reset_repeating timeout (set_timers m' objs q))
        as [[timeout'' q'']|] eqn:Hrest; [|discriminate].
      cbn [mbind option_bind]. intros [= <- <-].
      assert (Hto : timeout_ok q0 now timeout (set_timers m' objs q)).
      { split; cbn [objects m_timers set_timers].
        - rewrite Forall_forall in *. intros p Hp.
          destruct (Hpend _ Hp) as (Hv & tm1 & Ha & Hb & Hc).
          split; [exact Hv|]. exists tm1. split; [exact Ha|]. split; [|exact Hc].
          unfold objs. rewrite lookup_insert_ne; [exact Hb|]. congruence.
        - rewrite Forall_forall in *. intros p Hp Hin.
          apply Hptrs in Hin as [->|Hin]; [contradiction|].
          exact (Hdisj _ Hp Hin). }
      destruct (IH (set_timers m' objs q) _ _ Hok' Hto Hnd Hrest)
        as (I1 & I2 & I3 & I4 & I5 & I6 & I7).
      cbn [m_timers objects set_timers runningCallback invoked m_timerfd] in *.
      split; [apply Forall_cons; split; [apply spent_null | exact I1]|].
      split; [|split; [|split; [|auto]]].
      * intros p tm1 Hp Htm1 Hno. apply elem_of_cons in Hp as [->|Hp].
        -- congruence.
        -- apply list_elem_of_further. eauto.
      * intros x Hx. apply I3 in Hx as [Hx|Hx].
        -- apply Hptrs in Hx as [->|Hx]; [right; apply list_elem_of_here|auto].
        -- right. apply list_elem_of_further, Hx.
      * intros x Hx. apply not_elem_of_cons in Hx as [Hne Hx].
        rewrite (I4 _ Hx). unfold objs. apply lookup_insert_ne. congruence.
    + destruct (reset_repeating timeout q) as [[timeout'' q'']|] eqn:Hrest;
        [|discriminate].
      cbn [mbind option_bind]. intros [= <- <-].
      destruct (IH _ _ _ Hok (conj Hpend Hdisj) Hnd Hrest)
        as (I1 & I2 & I3 & I4 & I5 & I6 & I7).
      split; [apply Forall_cons; split; [|exact I1]|].
      { right. intros Hin. apply I3 in Hin as [Hin|Hin]; contradiction. }
      split; [|split; [|split; [|auto]]].
      * intros p tm1 Hp Htm1 Hno. apply elem_of_cons in Hp as [->|Hp].
        -- apply list_elem_of_here.
        -- apply list_elem_of_further. eauto.
      * intros x Hx. apply I3 in Hx as [Hx|Hx]; [auto|].
        right. apply list_elem_of_further, Hx.
      * intros x Hx. apply not_elem_of_cons in Hx as [Hne Hx]. auto.
Qed.

Lemma erase_keeps_ptr k m (x : Z) :
  x ∈ key_ptrs m -> x <> k.2 -> x ∈ key_ptrs (erase k m).1.
Proof.
  intros Hin Hne.
  destruct (erase_cases k m) as [[-> _]|(m1 & m2 & owned & -> & ->)];
    [exact Hin|].
  cbn [fst]. unfold key_ptrs in *. rewrite fmap_app in *.
  rewrite fmap_cons in Hin. rewrite elem_of_app in *. rewrite elem_of_cons in Hin.
  cbn [fst snd] in Hin. destruct Hin as [H|[H|H]]; [auto|congruence|auto].
Qed.

Lemma reset_cancelled_dead (ids : list Z) q q' (x : Z) :
  reset_cancelled ids q = Some q' ->
  objects q !! x = None -> objects q' !! x = None.
Proof.
  revert q. induction ids as [|it ids IH]; intros q.
  - intros [= <-]. auto.
  - cbn [reset_cancelled].
    destruct (TimerID_Key it q) as [key|]; [|discriminate].
    cbn [mbind option_bind].
    destruct (erase key (m_timers q)) as [m' old].
    intros Hrest Hnone. apply (IH _ Hrest). cbn [objects set_timers].
    unfold destroy. destruct (old =? 0); [exact Hnone|].
    destruct (decide (old = x)) as [->|Hne].
    + apply lookup_delete_eq.
    + rewrite lookup_delete_ne by exact Hne. exact Hnone.
Qed.

Lemma reset_cancelled_rest (q0 : t) (now : Timestamp) (n : Z) (ids : list Z) :
  ∀ q q',
    map_ok q0 now n q ->
    reset_cancelled ids q = Some q' ->
    (∀ x, x ∈ key_ptrs (m_timers q') -> x ∈ key_ptrs (m_timers q))
    ∧ (∀ x, x ∉ key_ptrs (m_timers q) -> objects q' !! x = objects q !! x)
    ∧ (∀ id, id ∈ ids -> id ∈ key_ptrs (m_timers q) ->
             objects q' !! id = None ∧ id ∉ key_ptrs (m_timers q'))
    ∧ runningCallback q' = runningCallback q
    ∧ invoked q' = invoked q
    ∧ m_timerfd q' = m_timerfd q.
Proof.
  induction ids as [|it ids IH]; intros q q' Hok.
  - intros [= <-]. split; [auto|]. split; [auto|]. split; [|auto].
    intros id Hid. apply elem_of_nil in Hid. contradiction.
  - cbn [reset_cancelled]. unfold TimerID_Key.
    destruct (objects q !! it) as [tm|] eqn:Htm; [|discriminate].
    cbn [mbind option_bind].
    destruct (erase (GetRuntime tm, it) (m_timers q)) as [m' old] eqn:Herase.
    intros Hrest.
    destruct (ok_erase _ _ _ _ _ _ _ _ Hok Herase) as [Hok1 Hsub1].
    set (q1 := set_timers m' (destroy old (objects q)) q) in *.
    destruct (IH q1 q' Hok1 Hrest) as (I1 & I2 & I3 & I4 & I5 & I6).
    cbn [m_timers objects set_timers runningCallback invoked m_timerfd q1] in *.
    assert (Hold : old = 0 ∨ old ∈ key_ptrs (m_timers q)).
    { destruct (erase_cases (GetRuntime tm, it) (m_timers q))
        as [[Heq _]|(m1 & m2 & owned & Hsplit & Heq)];
        rewrite Heq in Herase; injection Herase as <- <-; [auto|].
      right. destruct Hok as [_ Hall]. rewrite Hsplit in Hall |- *.
      apply Forall_app in Hall as [_ Hall].
      apply Forall_cons in Hall as [(Hself & _) _]. cbn [fst snd] in Hself.
      rewrite Hself. unfold key_ptrs. rewrite fmap_app, fmap_cons, elem_of_app.
      right. apply list_elem_of_here. }
    assert (Hit : it ∈ key_ptrs (m_timers q) ->
                  destroy old (objects q) !! it = None ∧ it ∉ key_ptrs m').
    { intros Hin. apply key_ptrs_elem in Hin as (entry & Hin & Hp).
      destruct Hok as [Hnd Hall].
      pose proof (proj1 (Forall_forall _ _) Hall _ Hin)
        as (Hself & Hvalid & tm' & Htm' & Hrt & _).
      rewrite Hself, Hp in Htm', Hvalid. rewrite Htm in Htm'.
      injection Htm' as <-.
      assert (Hentry : entry = ((GetRuntime tm, it), it)).
      { destruct entry as [[e p'] owned]. cbn [fst snd] in *.
        unfold GetRuntime. subst. reflexivity. }
      subst entry.
      destruct (erase_cases (GetRuntime tm, it) (m_timers q))
        as [[_ Hnot]|(m1 & m2 & owned & Hsplit & Heq)].
      { exfalso. apply Hnot.
        change (GetRuntime tm, it) with ((GetRuntime tm, it, it).1).
        apply (list_elem_of_fmap_2 fst), Hin. }
      rewrite Heq in Herase. injection Herase as <- <-.
      rewrite Hsplit in Hall, Hnd.
      pose proof (proj1 (Forall_app _ _ _) Hall) as [_ Hall2].
      apply Forall_cons in Hall2 as [(Hself2 & _) _]. cbn [fst snd] in Hself2.
      subst owned. split.
      - unfold destroy. destruct (Z.eqb_spec it 0) as [Hz|_].
        + apply valid_address_nonzero in Hvalid. contradiction.
        + apply lookup_delete_eq.
      - unfold key_ptrs in *. rewrite fmap_app, fmap_cons in Hnd.
        apply NoDup_app in Hnd as (_ & Hdisj & Hnd2).
        apply NoDup_cons in Hnd2 as [Hnot2 _]. cbn [fst snd] in *.
        rewrite fmap_app, elem_of_app. intros [H|H]; [|contradiction].
        apply (Hdisj _ H), list_elem_of_here. }
    split; [auto|]. split; [|split; [|auto]].
    + intros x Hx. rewrite I2 by auto.
      destruct Hold as [->|Hold]; [reflexivity|].
      apply destroy_lookup_ne. congruence.
    + intros id Hid Hheld.
      destruct (decide (id = it)) as [->|Hne].
      * destruct (Hit Hheld) as [Hdead Hgone]. split.
        -- exact (reset_cancelled_dead _ _ _ _ Hrest Hdead).
        -- intros Hin. apply Hgone, I1, Hin.
      * apply elem_of_cons in Hid as [Heq|Hid]; [contradiction|].
        apply I3; [exact Hid|].
        pose proof (erase_keeps_ptr (GetRuntime tm, it) (m_timers q) id Hheld)
          as Hkeep. rewrite Herase in Hkeep. apply Hkeep. cbn [snd]. exact Hne.
Qed.

Lemma reset_timerfd_rest (q0 : t) (now : Timestamp) (results : list Z) :
  ∀ (n : Z) q q',
    map_ok q0 now n q ->
    sorted (m_timers q) = true ->
    reset_timerfd results q = Some q' ->
    (∀ x, x ∈ key_ptrs (m_timers q') -> x ∈ key_ptrs (m_timers q))
    ∧ (∀ x, x ∉ key_ptrs (m_timers q) -> objects q' !! x = objects q !! x)
    ∧ runningCallback q' = runningCallback q
    ∧ m_cancelledSoon q' = m_cancelledSoon q
    ∧ invoked q' = invoked q
    ∧ match m_timers q' with
      | [] => True
      | entry :: _ => last (m_timerfd q') = Some (entry.1.1, 0)
      end.
Proof.
  induction results as [|r results IH]; intros n q q' Hok Hs.
  - cbn [reset_timerfd].
    destruct (m_timers q) as [|[k owned] m] eqn:Hm.
    + intros [= <-]. rewrite Hm. repeat split; auto.
    + destruct (objects q !! owned) as [tm|] eqn:Htm; [|discriminate].
      cbn [mbind option_bind]. intros [= <-].
      cbn [set_timerfd m_timers m_timerfd objects runningCallback
           m_cancelledSoon invoked]. rewrite Hm.
      split; [auto|]. split; [auto|]. do 3 (split; [reflexivity|]).
      rewrite last_snoc. destruct Hok as [_ Hall]. rewrite Hm in Hall.
      apply Forall_cons in Hall as [(Hself & _ & tm' & Htm' & Hrt & _) _].
      cbn [fst snd] in *. rewrite Htm in Htm'. injection Htm' as <-.
      unfold GetRuntime. rewrite Hrt. reflexivity.
  - cbn [reset_timerfd].
    destruct (m_timers q) as [|[k owned] m] eqn:Hm.
    { intros [= <-]. rewrite Hm. repeat split; auto. }
    destruct (objects q !! owned) as [tm|] eqn:Htm; [|discriminate].
    cbn [mbind option_bind].
    cbn [set_timerfd m_timers objects]. rewrite Hm.
    unfold map_ok in Hok. rewrite Hm in Hok.
    assert (Hhead : entry_ok q0 now n (objects q) (k, owned)).
    { destruct Hok as [_ Hall]. apply Forall_cons in Hall. tauto. }
    destruct Hhead as (Hself & Hvalid & tm' & Htm' & Hrt & Hclass).
    cbn [fst snd] in *. rewrite Htm in Htm'. injection Htm' as <-.
    destruct k as [e p]. cbn [fst snd] in *. subst owned.
    destruct (Z.eqb_spec r 0) as [->|Hr].
    { intros [= <-].
      cbn [set_timerfd m_timers m_timerfd objects runningCallback
           m_cancelledSoon invoked]. rewrite Hm.
      split; [auto|]. split; [auto|]. do 3 (split; [reflexivity|]).
      rewrite last_snoc. unfold GetRuntime. rewrite Hrt. reflexivity. }
    destruct (ok_remove q0 now n [] m (objects q) ((e, p), p) Hok)
      as [Htail _]. cbn [app snd] in Htail.
    apply sorted_cons in Hs as [Hfirst Hs].
    set (qr := set_timerfd (GetRuntime tm) r results q).
    assert (Hstep : ∀ m1 objs1,
              ok q0 now (n + 1) m1 objs1 ->
              sorted m1 = true ->
              (∀ x, x ∈ key_ptrs m1 -> x ∈ key_ptrs (((e, p), p) :: m)) ->
              (∀ x, x ∉ key_ptrs (((e, p), p) :: m) ->
                    objs1 !! x = objects q !! x) ->
              reset_timerfd results (set_timers m1 objs1 qr) = Some q' ->
              (∀ x, x ∈ key_ptrs (m_timers q') ->
                    x ∈ key_ptrs (((e, p), p) :: m))
              ∧ (∀ x, x ∉ key_ptrs (((e, p), p) :: m) ->
                      objects q' !! x = objects q !! x)
              ∧ runningCallback q' = runningCallback q
              ∧ m_cancelledSoon q' = m_cancelledSoon q
              ∧ invoked q' = invoked q
              ∧ match m_timers q' with
                | [] => True
                | entry :: _ => last (m_timerfd q') = Some (entry.1.1, 0)
                end).
    { intros m1 objs1 Hok1 Hs1 Hsub Hobjs Hrest.
      apply (IH (n + 1)) in Hrest; [|exact Hok1|exact Hs1].
      destruct Hrest as (I1 & I2 & I3 & I4 & I5 & I6).
      cbn [m_timers objects set_timers runningCallback m_cancelledSoon invoked
           set_timerfd qr] in *.
      split; [auto|]. split; [|auto].
      intros x Hx. rewrite I2; [auto|]. intros Hin. apply Hx, Hsub, Hin. }
    destruct (IsRepeat tm) eqn:Hrep.
    + unfold IsRepeat in Hrep. apply Z.ltb_lt in Hrep.
      unfold GetRuntime, restart. cbn [m_runtime]. rewrite Hrt.
      destruct (key_ltb_advance e (m_interval tm) p Hrep) as (Hlt & Hgt & Hne).
      rewrite Hne. cbn [assign]. rewrite Hgt, Hlt.
      pose proof (sorted_assign (e + m_interval tm, p) p m Hs) as Hs'.
      destruct (assign (e + m_interval tm, p) p m) as [m' old] eqn:Hassign.
      set (objs := <[p := mkTimer (m_callback tm) (e + m_interval tm)
                            (m_interval tm)]> (objects q)).
      assert (Hnotin : p ∉ key_ptrs m).
      { destruct Hok as [Hnd _]. unfold key_ptrs in Hnd.
        rewrite fmap_cons in Hnd. apply NoDup_cons in Hnd. tauto. }
      assert (Hok1 : ok q0 now (n + 1) m (objects q)).
      { destruct Hok as [Hnd Hall]. split.
        - unfold key_ptrs in *. rewrite fmap_cons in Hnd.
          apply NoDup_cons in Hnd. tauto.
        - apply Forall_cons in Hall as [_ Hall].
          eapply Forall_impl; [exact Hall|]. intros entry.
          apply entry_ok_mono. lia. }
      assert (Hsame : ∀ p', p' ∈ key_ptrs m -> objs !! p' = objects q !! p').
      { intros p' Hin. apply lookup_insert_ne. congruence. }
      assert (Hentry : entry_ok q0 now (n + 1) objs
                         ((e + m_interval tm, p), p)).
      { split; [reflexivity|]. split; [exact Hvalid|].
        eexists. split; [apply lookup_insert_eq|]. split; [reflexivity|].
        cbn [fst snd m_interval].
        destruct Hclass as [Hafter|[[Hre Hitv]|Hadded]].
        - left. lia.
        - right. left. split; [|exact Hitv].
          destruct Hre as (tm0 & j & H1 & H2 & H3 & H4 & H5 & H6).
          cbn [fst snd] in *. exists tm0, (j + 1).
          repeat split; try assumption; try lia.
          cbn [fst]. rewrite (Hitv tm0 H1). lia.
        - right. right. exact Hadded. }
      destruct (ok_assign _ _ _ _ _ _ _ _ _ _ Hok1 Hnotin Hsame Hentry Hassign)
        as (-> & Hok' & Hptrs).
      cbn [release]. rewrite key_eqb_refl. rewrite !destroy_null.
      apply Hstep; [exact Hok' | exact Hs' | |].
      * intros x Hx. unfold key_ptrs. rewrite fmap_cons, elem_of_cons.
        apply Hptrs in Hx. exact Hx.
      * intros x Hx. unfold key_ptrs in Hx.
        rewrite fmap_cons, not_elem_of_cons in Hx. cbn [fst snd] in Hx.
        unfold objs. apply lookup_insert_ne. intros Heq. apply (proj1 Hx).
        symmetry. exact Heq.
    + apply Hstep; [|exact Hs| |].
      * destruct Htail as [Hnd Hall]. split; [exact Hnd|].
        eapply Forall_impl; [exact Hall|]. intros entry. apply entry_ok_mono. lia.
      * intros x Hx. unfold key_ptrs. rewrite fmap_cons. apply list_elem_of_further, Hx.
      * intros x Hx. unfold key_ptrs in Hx.
        rewrite fmap_cons, not_elem_of_cons in Hx. cbn [fst snd] in Hx.
        apply destroy_lookup_ne. intros Heq. apply (proj1 Hx).
        symmetry. exact Heq.
Qed.

(** *** What the callbacks keep: the timers held, and the cancels asked *)

Lemma held_entry_ok (q0 : t) (now : Timestamp) (n : Z) m objs (p : Z)
    (tm : Timer) :
  ok q0 now n m objs -> objs !! p = Some tm -> p ∈ key_ptrs m ->
  ((m_runtime tm, p), p) ∈ m.
Proof.
  intros [_ Hall] Htm Hin. apply key_ptrs_elem in Hin as (entry & Hin & Hp).
  rewrite Forall_forall in Hall.
  destruct (Hall _ Hin) as (Hself & _ & tm' & Htm' & Hrt & _).
  rewrite Hself, Hp, Htm in Htm'. injection Htm' as <-.
  destruct entry as [[e p'] owned]. cbn [fst snd] in *. subst. exact Hin.
Qed.

Lemma perform_running (q0 : t) (now : Timestamp) (timeout : list Z)
    (a : Action) q q' :
  callbacks_inv q0 now timeout q ->
  perform a q = Some q' ->
  callbacks_inv q0 now timeout q'.
Proof.
  intros Hinv Ha. destruct a as [id|timer cb when interval];
    cbn [perform cancel] in Ha.
  - eapply CancelInLoop_running; eassumption.
  - eapply add_running; eassumption.
Qed.

Lemma perform_keeps (q0 : t) (now : Timestamp) (timeout : list Z)
    (a : Action) q q' :
  callbacks_inv q0 now timeout q ->
  perform a q = Some q' ->
  (∀ entry, entry ∈ m_timers q -> entry ∈ m_timers q')
  ∧ (∀ x tm, objects q !! x = Some tm -> objects q' !! x = Some tm)
  ∧ (∀ id, id ∈ m_cancelledSoon q -> id ∈ m_cancelledSoon q')
  ∧ (∀ id, a = DoCancel id -> id ∈ key_ptrs (m_timers q) ->
           id ∈ m_cancelledSoon q').
Proof.
  intros (Hrun & _ & _ & Hok & _) Ha.
  destruct a as [id|timer cb when interval]; cbn [perform cancel] in Ha.
  - unfold cancel, CancelInLoop, TimerID_Key in Ha.
    destruct (objects q !! id) as [tm|] eqn:Htm; [|discriminate].
    cbn [mbind option_bind] in Ha. rewrite Hrun in Ha. cbn [negb] in Ha.
    unfold GetRuntime in Ha.
    destruct (find (m_runtime tm, id) (m_timers q)) as [owned|] eqn:Hfind;
      injection Ha as <-; cbn [m_timers objects m_cancelledSoon set_cancelledSoon].
    + split; [auto|]. split; [auto|]. split.
      * intros x Hx. apply elem_of_app. auto.
      * intros id' [= <-] Hheld.
        pose proof (held_entry_ok _ _ _ _ _ _ _ Hok Htm Hheld) as Hentry.
        rewrite (find_held _ _ _ (proj1 Hok) Hentry) in Hfind.
        injection Hfind as <-. apply elem_of_app. right. apply list_elem_of_here.
    + split; [auto|]. split; [auto|]. split; [auto|].
      intros id' [= <-] Hheld.
      pose proof (held_entry_ok _ _ _ _ _ _ _ Hok Htm Hheld) as Hentry.
      rewrite (find_held _ _ _ (proj1 Hok) Hentry) in Hfind. discriminate.
  - pose proof (add_cancelledSoon _ _ _ _ _ _ Ha) as Hsoon.
    destruct (add_inv _ _ _ _ _ _ Ha) as [Hvalid Hfree].
    unfold add in Ha. rewrite Hvalid, Hfree in Ha.
    unfold AddInLoop, insert in Ha. cbn [objects set_timers m_timers] in Ha.
    rewrite lookup_insert_eq in Ha. cbn [mbind option_bind GetRuntime m_runtime] in Ha.
    assert (Hnotin : timer ∉ key_ptrs (m_timers q)).
    { intros Hin. destruct (key_ptrs_alive _ _ _ _ _ _ (proj2 Hok) Hin) as [x Hx].
      congruence. }
    destruct (assign_fresh (when, timer) timer (m_timers q) Hnotin)
      as (m1 & m2 & Hsplit & Hassign).
    rewrite Hassign in Ha. cbn [mbind option_bind] in Ha.
    rewrite destroy_null in Ha.
    assert (Hfields :
      m_timers q' = m1 ++ ((when, timer), timer) :: m2
      ∧ objects q' = <[timer := mkTimer cb when interval]> (objects q)).
    { match type of Ha with (if ?b then _ else _) = _ => destruct b end.
      - cbn [objects set_timers] in Ha. rewrite lookup_insert_eq in Ha.
        cbn [mbind option_bind] in Ha. injection Ha as <-.
        match goal with |- context [ResetTimerfd ?r ?q1] =>
          destruct (ResetTimerfd_fields r q1) as (_ & F2 & F3 & _) end.
        cbn zeta in F2, F3. rewrite F2, F3. auto.
      - injection Ha as <-. auto. }
    destruct Hfields as [Hm Hobjs]. rewrite Hm, Hobjs, Hsoon.
    split; [|split; [|split; [auto|discriminate]]].
    + intros entry. rewrite Hsplit, !elem_of_app, elem_of_cons. tauto.
    + intros x tm Hx. rewrite lookup_insert_ne; [exact Hx|]. congruence.
Qed.

Lemma perform_all_keeps (q0 : t) (now : Timestamp) (timeout : list Z)
    (callback : list Action) :
  ∀ q q',
    callbacks_inv q0 now timeout q ->
    perform_all callback q = Some q' ->
    (∀ entry, entry ∈ m_timers q -> entry ∈ m_timers q')
    ∧ (∀ x tm, objects q !! x = Some tm -> objects q' !! x = Some tm)
    ∧ (∀ id, id ∈ m_cancelledSoon q -> id ∈ m_cancelledSoon q')
    ∧ (∀ id, DoCancel id ∈ callback -> id ∈ key_ptrs (m_timers q) ->
             id ∈ m_cancelledSoon q').
Proof.
  induction callback as [|a callback IH]; intros q q' Hinv.
  - intros [= <-]. split; [auto|]. split; [auto|]. split; [auto|].
    intros id Hin. apply elem_of_nil in Hin. contradiction.
  - cbn [perform_all]. destruct (perform a q) as [q1|] eqn:Ha; [|discriminate].
    cbn [mbind option_bind]. intros Hrest.
    destruct (perform_keeps _ _ _ _ _ _ Hinv Ha) as (P1 & P2 & P3 & P4).
    destruct (IH _ _ (perform_running _ _ _ _ _ _ Hinv Ha) Hrest)
      as (I1 & I2 & I3 & I4).
    split; [auto|]. split; [auto|]. split; [auto|].
    intros id Hin Hheld. apply elem_of_cons in Hin as [<-|Hin].
    + apply I3, (P4 id); [reflexivity | exact Hheld].
    + apply I4; [exact Hin|]. apply key_ptrs_elem in Hheld as (entry & He & Hp).
      apply key_ptrs_elem. eauto.
Qed.

Lemma run_each_keeps (q0 : t) (now : Timestamp) (timeout items : list Z) :
  ∀ q q',
    callbacks_inv q0 now timeout q ->
    run_each items q = Some q' ->
    (∀ entry, entry ∈ m_timers q -> entry ∈ m_timers q')
    ∧ (∀ x tm, objects q !! x = Some tm -> objects q' !! x = Some tm)
    ∧ (∀ id, id ∈ m_cancelledSoon q -> id ∈ m_cancelledSoon q')
    ∧ (∀ item tm id, item ∈ items -> objects q !! item = Some tm ->
             DoCancel id ∈ m_callback tm -> id ∈ key_ptrs (m_timers q) ->
             id ∈ m_cancelledSoon q').
Proof.
  induction items as [|item items IH]; intros q q' Hinv.
  - intros [= <-]. split; [auto|]. split; [auto|]. split; [auto|].
    intros item tm id Hin. apply elem_of_nil in Hin. contradiction.
  - cbn [run_each]. destruct (Timer_run item q) as [q1|] eqn:Hrun; [|discriminate].
    cbn [mbind option_bind]. intros Hrest.
    unfold Timer_run in Hrun.
    destruct (objects q !! item) as [tm|] eqn:Htm; [|discriminate].
    cbn [mbind option_bind] in Hrun.
    assert (Hinv' : callbacks_inv q0 now timeout
                      (set_invoked (invoked q ++ [item]) q)) by exact Hinv.
    destruct (perform_all_keeps _ _ _ _ _ _ Hinv' Hrun) as (P1 & P2 & P3 & P4).
    cbn [m_timers objects m_cancelledSoon set_invoked] in *.
    destruct (IH _ _ (perform_all_running _ _ _ _ _ _ Hinv' Hrun) Hrest)
      as (I1 & I2 & I3 & I4).
    split; [auto|]. split; [auto|]. split; [auto|].
    intros item' tm' id Hin Htm' Hcancel Hheld.
    apply elem_of_cons in Hin as [->|Hin].
    + rewrite Htm in Htm'. injection Htm' as <-. apply I3, P4; assumption.
    + apply (I4 item' tm' id); [exact Hin | auto | exact Hcancel |].
      apply key_ptrs_elem in Hheld as (entry & He & Hp).
      apply key_ptrs_elem. eauto.
Qed.

(** *** The handler, from rest to rest *)

Lemma foldr_destroy_keep m (l : list Z) objs (x : Z) :
  Forall (spent m) l -> x ∈ key_ptrs m ->
  foldr destroy objs l !! x = objs !! x.
Proof.
  intros Hall Hx. induction Hall as [|p l Hp Hall IH]; [reflexivity|].
  cbn [foldr]. destruct Hp as [->|Hp]; [rewrite destroy_null; exact IH|].
  rewrite destroy_lookup_ne; [exact IH|]. congruence.
Qed.

Lemma destroy_dead (p x : Z) objs : objs !! x = None -> destroy p objs !! x = None.
Proof.
  intros Hnone. unfold destroy. destruct (p =? 0); [exact Hnone|].
  destruct (decide (p = x)) as [->|Hne].
  - apply lookup_delete_eq.
  - rewrite lookup_delete_ne by exact Hne. exact Hnone.
Qed.

Lemma foldr_destroy_dead (l : list Z) objs (p : Z) :
  p ∈ l -> p <> 0 -> foldr destroy objs l !! p = None.
Proof.
  intros Hin Hnz. induction l as [|p' l IH].
  - apply elem_of_nil in Hin. contradiction.
  - cbn [foldr]. apply elem_of_cons in Hin as [<-|Hin].
    + unfold destroy. destruct (Z.eqb_spec p 0); [contradiction|].
      apply lookup_delete_eq.
    + apply destroy_dead, IH, Hin.
Qed.

Lemma foldr_destroy_stays_dead (l : list Z) objs (x : Z) :
  objs !! x = None -> foldr destroy objs l !! x = None.
Proof.
  intros Hnone. induction l as [|p l IH]; [exact Hnone|].
  cbn [foldr]. apply destroy_dead, IH.
Qed.

Lemma entry_ok_owns (q0 : t) (now : Timestamp) (n : Z) objs
    (entry : Z * Z * Z) :
  entry_ok q0 now n objs entry -> owns objs entry = true.
Proof.
  intros (H1 & H2 & tm & H3 & H4 & _). apply owns_spec. eauto.
Qed.

Lemma HandleTimerfd_rest (now : Timestamp) q q' :
  well_formed q = true ->
  HandleTimerfd now q = Some q' ->
  well_formed q' = true
  ∧ runningCallback q' = false
  ∧ m_cancelledSoon q' = []
  ∧ match m_timers q' with
    | [] => True
    | entry :: _ => last (m_timerfd q') = Some (entry.1.1, 0)
    end
  ∧ invoked q' = invoked q ++ (GetTimeout now q).1
  ∧ (∀ p tm, p ∈ (GetTimeout now q).1 -> objects q !! p = Some tm ->
             IsRepeat tm = false ->
             objects q' !! p = None ∧ p ∉ key_ptrs (m_timers q'))
  ∧ (∀ a tm b, a ∈ (GetTimeout now q).1 -> objects q !! a = Some tm ->
               DoCancel b ∈ m_callback tm ->
               b ∈ key_ptrs (m_timers (GetTimeout now q).2) ->
               objects q' !! b = None ∧ b ∉ key_ptrs (m_timers q')).
Proof.
  intros Hwf Hrun.
  destruct (GetTimeout_running now q Hwf) as [Hinv Hnd].
  destruct (GetTimeout_extracts now q Hwf) as (before & Happ & _ & Hobjs1 & _).
  assert (Hsorted : sorted (m_timers (GetTimeout now q).2) = true).
  { apply well_formed_spec in Hwf as [Hs _]. rewrite Happ in Hs.
    exact (sorted_app_r _ _ Hs). }
  assert (Hinvoked : invoked (GetTimeout now q).2 = invoked q).
  { unfold GetTimeout. destruct (lower_bound _ _). reflexivity. }
  unfold HandleTimerfd in Hrun.
  destruct (GetTimeout now q) as [timeout q1]. cbn [fst snd] in *.
  destruct (run_each timeout (set_runningCallback true q1)) as [q2|] eqn:Hcb;
    [|discriminate].
  cbn [mbind option_bind] in Hrun.
  destruct (run_each_follows _ _ _ Hcb) as [Hs2 _].
  pose proof (run_each_invoked _ _ _ Hcb) as Hinv2.
  destruct (run_each_keeps _ _ _ _ _ _ Hinv Hcb) as (K1 & _ & _ & K4).
  apply (run_each_running _ _ _ _ _ _ Hinv) in Hcb.
  destruct Hcb as (_ & _ & _ & Hok & Hto).
  destruct (reset timeout (set_runningCallback false q2)) as [[timeout' q3]|]
    eqn:Hreset; [|discriminate].
  cbn [mbind option_bind] in Hrun. injection Hrun as <-.
  unfold reset in Hreset.
  destruct (reset_repeating timeout (set_runningCallback false q2))
    as [[timeout'' qa]|] eqn:Ha; [|discriminate].
  cbn [mbind option_bind] in Hreset.
  destruct (reset_cancelled (m_cancelledSoon qa) qa) as [qb|] eqn:Hb;
    [|discriminate].
  cbn [mbind option_bind] in Hreset.
  destruct (reset_timerfd (settime (set_cancelledSoon [] qb))
              (set_cancelledSoon [] qb)) as [qc|] eqn:Hc; [|discriminate].
  cbn [mbind option_bind] in Hreset. injection Hreset as <- <-.
  assert (Hok1 : map_ok q now 1 (set_runningCallback false q2)).
  { destruct Hok as [H1 H2]. split; [exact H1|].
    eapply Forall_impl; [exact H2|]. intros entry. apply entry_ok_mono. lia. }
  destruct (reset_repeating_ok _ _ _ _ _ _ Hok1 Hto Hnd Ha) as (Hoka & _ & Hsoon).
  destruct (reset_repeating_spent _ _ _ _ _ _ Hok1 Hto Hnd Ha)
    as (A1 & A2 & _ & _ & A5 & A6 & _).
  destruct (reset_repeating_holds _ _ _ _ _ _ Hok1 Hto Hnd Ha) as (A8 & _).
  destruct (reset_repeating_follows _ _ _ _ Ha) as [Hsa _].
  destruct (reset_cancelled_ok _ _ _ _ _ _ Hoka Hb) as (Hokb & _).
  destruct (reset_cancelled_rest _ _ _ _ _ _ Hoka Hb)
    as (B1 & _ & B3 & B4 & B5 & _).
  destruct (reset_cancelled_follows _ _ _ Hb) as [Hsb _].
  assert (Hokb' : map_ok q now 1 (set_cancelledSoon [] qb)) by exact Hokb.
  cbn [m_timers m_timerfd set_runningCallback] in *.
  assert (Hsortb : sorted (m_timers (set_cancelledSoon [] qb)) = true)
    by (cbn [m_timers set_cancelledSoon]; auto).
  destruct (reset_timerfd_ok q now _ 1 _ _ Hokb' Hsortb Hc) as (Hokc & Hsc & _).
  destruct (reset_timerfd_rest q now _ 1 _ _ Hokb' Hsortb Hc)
    as (C1 & C2 & C3 & C4 & C5 & C6).
  cbn [m_timers objects runningCallback m_cancelledSoon invoked
       set_cancelledSoon set_runningCallback set_timers] in *.
  assert (Hspent : Forall (spent (m_timers qc)) timeout'').
  { eapply Forall_impl; [exact A1|]. intros p. apply spent_sub. auto. }
  split; [|split; [congruence|split; [exact C4|split; [exact C6|split;
    [|split]]]]].
  - unfold well_formed. cbn [m_timers objects set_timers]. rewrite Hsc.
    cbn [andb]. apply forallb_forall. intros entry Hin.
    apply list_elem_of_In in Hin. destruct Hokc as [_ Hall].
    rewrite Forall_forall in Hall. pose proof (Hall _ Hin) as Hentry.
    apply entry_ok_owns in Hentry. unfold owns in *.
    rewrite (foldr_destroy_keep (m_timers qc)); [exact Hentry|exact Hspent|].
    apply andb_true_iff in Hentry as [Hentry _].
    apply andb_true_iff in Hentry as [Hself _]. apply Z.eqb_eq in Hself.
    rewrite Hself. apply key_ptrs_elem. eauto.
  - rewrite C5, B5, A6, Hinv2. cbn [invoked set_runningCallback].
    rewrite Hinvoked. reflexivity.
  - intros p tm Hp Htm Hone.
    destruct Hto as [Hpend _]. rewrite Forall_forall in Hpend.
    destruct (Hpend _ Hp) as (Hvalid & _).
    apply valid_address_nonzero in Hvalid.
    pose proof (A2 p tm Hp Htm Hone) as Hleft. split.
    + apply foldr_destroy_dead; assumption.
    + rewrite Forall_forall in Hspent.
      destruct (Hspent _ Hleft) as [Hz|Hnot]; [contradiction|exact Hnot].
  - intros a tm b Hin Htm Hcancel Hheld.
    assert (Hasked : b ∈ m_cancelledSoon qa).
    { rewrite Hsoon. cbn [m_cancelledSoon set_runningCallback].
      apply (K4 a tm b Hin); [rewrite Hobjs1; exact Htm|exact Hcancel|exact Hheld]. }
    assert (Hheld' : b ∈ key_ptrs (m_timers qa)).
    { apply key_ptrs_elem in Hheld as (entry & He & Hp).
      apply key_ptrs_elem. exists entry. split; [|exact Hp].
      apply A8, K1, He. }
    destruct (B3 b Hasked Hheld') as [Hdead Hgone].
    split.
    + apply foldr_destroy_stays_dead. rewrite C2; [exact Hdead|exact Hgone].
    + intros Hc'. apply Hgone, C1, Hc'.
Qed.

Lemma due_in_batch (now : Timestamp) q (p : Z) (tm : Timer) :
  well_formed q = true ->
  ((m_runtime tm, p), p) ∈ m_timers q ->
  (m_runtime tm <= now -> p ∈ (GetTimeout now q).1)
  ∧ (now < m_runtime tm ->
     (p ∉ (GetTimeout now q).1)
     ∧ ((m_runtime tm, p), p) ∈ m_timers (GetTimeout now q).2).
Proof.
  intros Hwf Hheld.
  destruct (GetTimeout_extracts now q Hwf)
    as (before & Happ & Hto & _ & _ & Hdue & Hafter).
  rewrite Happ in Hheld. rewrite Hto. rewrite Forall_forall in Hdue, Hafter.
  apply elem_of_app in Hheld as [Hin|Hin].
  - split.
    + intros _. change p with (((m_runtime tm, p), p).2).
      apply (list_elem_of_fmap_2 snd), Hin.
    + intros Hlt. specialize (Hdue _ Hin). cbn [fst] in Hdue. lia.
  - split.
    + intros Hle. specialize (Hafter _ Hin). cbn [fst] in Hafter. lia.
    + intros _. split; [|exact Hin].
      intros Hp. apply list_elem_of_fmap in Hp as (entry & Hsnd & Hentry).
      apply well_formed_spec in Hwf as [Hs Ho].
      pose proof (sorted_NoDup _ _ Hs Ho) as Hnd. rewrite Happ in Hnd, Ho.
      unfold key_ptrs in Hnd. rewrite fmap_app in Hnd.
      apply NoDup_app in Hnd as (_ & Hdisj & _).
      apply Forall_app in Ho as [Ho _]. rewrite Forall_forall in Ho.
      specialize (Ho _ Hentry). apply owns_spec in Ho as (Hself & _).
      apply (Hdisj p).
      * rewrite Hsnd, Hself.
        apply (list_elem_of_fmap_2 (fun e : Z * Z * Z => e.1.2)), Hentry.
      * change p with (((m_runtime tm, p), p).1.2).
        apply (list_elem_of_fmap_2 (fun e : Z * Z * Z => e.1.2)), Hin.
Qed.

(** X11. [insert] on a well-formed queue, for a live timer that the map
    does not hold: the timer is then held under its expiry and its address,
    where [find] returns it, next to the entries held before, and the map is
    well formed; the value returned (the earliest expiry changed) is true
    exactly when the expiry is before every expiry held, so also when the
    map was empty. *)
Theorem X11_insert_holds_timer_and_tells_earliest (timer : Z) (tm : Timer) q :
  well_formed q = true ->
  valid_address timer = true ->
  objects q !! timer = Some tm ->
  timer ∉ key_ptrs (m_timers q) ->
  ∃ earliestChanged q',
    insert timer q = Some (earliestChanged, q')
    ∧ find (m_runtime tm, timer) (m_timers q') = Some timer
    ∧ (∀ entry, entry ∈ m_timers q'
         <-> entry = ((m_runtime tm, timer), timer) ∨ entry ∈ m_timers q)
    ∧ objects q' = objects q
    ∧ well_formed q' = true
    ∧ (earliestChanged = true
       <-> ∀ entry, entry ∈ m_timers q -> m_runtime tm < entry.1.1).
Proof.
  intros Hwf Hvalid Htm Hfresh.
  destruct (insert_spec timer tm q Hwf Hvalid Htm Hfresh)
    as (m' & Hins & Hfind & Hin & Hwf').
  eexists _, _. split; [exact Hins|].
  cbn [m_timers objects set_timers].
  split; [exact Hfind|]. split; [exact Hin|]. split; [reflexivity|].
  split; [exact Hwf'|].
  rewrite forallb_forall. split.
  - intros Hall entry Hentry. apply Z.ltb_lt, Hall, list_elem_of_In, Hentry.
  - intros Hall entry Hentry. apply Z.ltb_lt, Hall, list_elem_of_In, Hentry.
Qed.

Lemma X11_insert_witness :
  let q := mk false [] [] [((10, 100), 100)]
              (<[200 := mkTimer [] 5 0]> (<[100 := mkTimer [] 10 0]> ∅)) [] [] in
  well_formed q = true
  ∧ ∃ earliestChanged q',
      insert 200 q = Some (earliestChanged, q')
      ∧ find (5, 200) (m_timers q') = Some 200
      ∧ (∀ entry, entry ∈ m_timers q'
           <-> entry = ((5, 200), 200) ∨ entry ∈ m_timers q)
      ∧ objects q' = objects q
      ∧ well_formed q' = true
      ∧ (earliestChanged = true
         <-> ∀ entry, entry ∈ m_timers q -> 5 < entry.1.1).
Proof.
  intros q.
  assert (Hwf : well_formed q = true) by reflexivity.
  split; [exact Hwf|].
  apply (X11_insert_holds_timer_and_tells_earliest 200 (mkTimer [] 5 0) q Hwf).
  - reflexivity.
  - reflexivity.
  - cbn. intros Hin. apply elem_of_cons in Hin as [Hin|Hin]; [discriminate|].
    apply elem_of_nil in Hin. exact Hin.
Defined.

(** X12. [add] called between two polls on a well-formed queue, with the
    address of the new timer: the timer is held under its expiry and its
    address next to the timers held before, and the queue stays well formed.
    [ResetTimerfd] is called, once and for the new expiry, exactly when that
    expiry is before every expiry held (so also on an empty map); a timer
    that expires with or after the earliest one leaves the timer-fd alone. *)
Theorem X12_add_holds_timer_and_asks_timerfd (timer : Z)
    (callback : list Action) (when : Timestamp) (interval : Z) q :
  well_formed q = true ->
  valid_address timer = true ->
  objects q !! timer = None ->
  ∃ q',
    add timer callback when interval q = Some q'
    ∧ find (when, timer) (m_timers q') = Some timer
    ∧ (∀ entry, entry ∈ m_timers q'
         <-> entry = ((when, timer), timer) ∨ entry ∈ m_timers q)
    ∧ objects q' = <[timer := mkTimer callback when interval]> (objects q)
    ∧ well_formed q' = true
    ∧ ((∀ entry, entry ∈ m_timers q -> when < entry.1.1) ->
       calls_since q q' = [(when, hd 0 (settime q))])
    ∧ ((∃ entry, entry ∈ m_timers q ∧ entry.1.1 <= when) ->
       calls_since q q' = []).
Proof.
  intros Hwf Hvalid Hfree.
  destruct (add_at_rest timer callback when interval q Hwf Hvalid Hfree)
    as (q' & Hadd & Hfind & Hin & Hobjs & Hwf' & Hcalls & _).
  exists q'. do 5 (split; [assumption|]). rewrite Hcalls. split.
  - intros Hall.
    assert (Hb : forallb (fun entry : Z * Z * Z => when <? entry.1.1)
                   (m_timers q) = true).
    { apply forallb_forall. intros entry Hentry.
      apply Z.ltb_lt, Hall, list_elem_of_In, Hentry. }
    rewrite Hb. reflexivity.
  - intros (entry & Hentry & Hle).
    destruct (forallb _ _) eqn:Hb; [|reflexivity].
    rewrite forallb_forall in Hb. apply list_elem_of_In, Hb, Z.ltb_lt in Hentry.
    lia.
Qed.

Lemma X12_add_witness :
  let q := mk false [] [] [((10, 100), 100)] (<[100 := mkTimer [] 10 0]> ∅)
              [] [] in
  well_formed q = true
  ∧ match add 200 [] 10 0 q with
    | Some q' =>
        m_timers q' = [((10, 100), 100); ((10, 200), 200)]
        ∧ calls_since q q' = []
    | None => False
    end.
Proof.
  intros q.
  assert (Hwf : well_formed q = true) by reflexivity.
  split; [exact Hwf|].
  destruct (X12_add_holds_timer_and_asks_timerfd 200 [] 10 0 q Hwf eq_refl
              eq_refl) as (q' & Hadd & _ & _ & _ & _ & _ & Hquiet).
  rewrite Hadd. split.
  - vm_compute in Hadd. injection Hadd as <-. reflexivity.
  - apply Hquiet. exists ((10, 100), 100). split; [apply list_elem_of_here|].
    cbn. lia.
Defined.

(** X13. [cancel] called between two polls on a well-formed queue, for a
    live timer: the timer is taken out of the map and destroyed, the other
    timers stay as they are, the map stays well formed, and the timer-fd is
    not touched, also when the timer cancelled was the earliest. For a live
    timer that the map does not hold, nothing changes. *)
Theorem X13_cancel_between_polls_drops_timer (id : Z) (tm : Timer) q :
  well_formed q = true ->
  runningCallback q = false ->
  objects q !! id = Some tm ->
  ∃ q',
    cancel id q = Some q'
    ∧ (∀ entry, entry ∈ m_timers q' <-> entry ∈ m_timers q ∧ entry.1.2 <> id)
    ∧ (id ∈ key_ptrs (m_timers q) ->
       objects q' = delete id (objects q)
       ∧ find (m_runtime tm, id) (m_timers q') = None)
    ∧ (id ∉ key_ptrs (m_timers q) -> q' = q)
    ∧ well_formed q' = true
    ∧ m_timerfd q' = m_timerfd q.
Proof.
  intros Hwf Hrun Htm.
  destruct (cancel_at_rest id tm q Hwf Hrun Htm)
    as (q' & Hcancel & Hin & Hobjs & Hwf' & Hlog & _).
  exists q'. split; [exact Hcancel|]. split; [exact Hin|].
  split; [|split; [|split; assumption]].
  - intros Hheld. destruct (decide (id ∈ key_ptrs (m_timers q)));
      [|contradiction]. split; [exact Hobjs|].
    apply find_None_ptr. cbn [snd]. intros Hp.
    apply key_ptrs_elem in Hp as (entry & Hentry & Hp).
    apply Hin in Hentry. tauto.
  - intros Hnot. unfold cancel, CancelInLoop, TimerID_Key in Hcancel.
    rewrite Htm in Hcancel. cbn [mbind option_bind] in Hcancel.
    rewrite find_None_ptr in Hcancel by exact Hnot. congruence.
Qed.

Lemma X13_cancel_witness :
  let q := mk false [(10, 0)] [] [((10, 100), 100); ((20, 200), 200)]
              (<[200 := mkTimer [] 20 0]> (<[100 := mkTimer [] 10 0]> ∅))
              [] [] in
  well_formed q = true
  ∧ match cancel 100 q with
    | Some q' =>
        m_timers q' = [((20, 200), 200)]
        ∧ objects q' !! 100 = None
        ∧ m_timerfd q' = [(10, 0)]
    | None => False
    end.
Proof.
  intros q.
  assert (Hwf : well_formed q = true) by reflexivity.
  split; [exact Hwf|].
  destruct (X13_cancel_between_polls_drops_timer 100 (mkTimer [] 10 0) q Hwf
              eq_refl eq_refl) as (q' & Hcancel & _ & Hgone & _ & _ & Hlog).
  rewrite Hcancel. split; [|split].
  - vm_compute in Hcancel. injection Hcancel as <-. reflexivity.
  - rewrite (proj1 (Hgone ltac:(apply list_elem_of_here))).
    apply lookup_delete_eq.
  - rewrite Hlog. reflexivity.
Defined.

(** X14. The expiry handler run at time [now] on a well-formed queue
    invokes the callbacks of exactly the timers held with an expiry up to
    [now], each once, in the order of the map (by expiry, then by address),
    whatever the callbacks do to the queue. *)
Theorem X14_handler_invokes_due_timers_in_order (now : Timestamp) q q' :
  well_formed q = true ->
  HandleTimerfd now q = Some q' ->
  ∃ due later,
    m_timers q = due ++ later
    ∧ Forall (fun entry => entry.1.1 <= now) due
    ∧ Forall (fun entry => now < entry.1.1) later
    ∧ NoDup (key_ptrs due)
    ∧ invoked q' = invoked q ++ key_ptrs due.
Proof.
  intros Hwf Hrun.
  destruct (GetTimeout_extracts now q Hwf)
    as (before & Happ & Hto & _ & _ & Hdue & Hafter).
  destruct (GetTimeout_running now q Hwf) as [_ Hnd].
  destruct (HandleTimerfd_rest now q q' Hwf Hrun) as (_ & _ & _ & _ & Hinv & _).
  assert (Hptrs : before.*2 = key_ptrs before).
  { apply well_formed_spec in Hwf as [_ Ho]. rewrite Happ in Ho.
    apply Forall_app in Ho as [Ho _]. unfold key_ptrs. apply Forall_fmap_ext.
    eapply Forall_impl; [exact Ho|]. intros entry Hown.
    apply owns_spec in Hown. tauto. }
  exists before, (m_timers (GetTimeout now q).2).
  rewrite Hto, Hptrs in Hnd, Hinv. auto.
Qed.

Lemma X14_handler_witness :
  let q := mk false [] [] [((5, 300), 300); ((10, 100), 100); ((10, 200), 200);
                           ((20, 400), 400)]
              (<[400 := mkTimer [] 20 0]> (<[300 := mkTimer [DoCancel 100] 5 0]>
                (<[200 := mkTimer [] 10 3]> (<[100 := mkTimer [] 10 0]> ∅))))
              [] [] in
  match HandleTimerfd 10 q with
  | Some q' =>
      invoked q' = [300; 100; 200]
      ∧ ∃ due later,
          m_timers q = due ++ later
          ∧ Forall (fun entry => entry.1.1 <= 10) due
          ∧ Forall (fun entry => 10 < entry.1.1) later
          ∧ NoDup (key_ptrs due)
          ∧ invoked q' = invoked q ++ key_ptrs due
  | None => False
  end.
Proof.
  intros q.
  assert (Hwf : well_formed q = true) by reflexivity.
  destruct (HandleTimerfd 10 q) as [q'|] eqn:Hrun.
  - split.
    + vm_compute in Hrun. injection Hrun as <-. reflexivity.
    + exact (X14_handler_invokes_due_timers_in_order 10 q q' Hwf Hrun).
  - vm_compute in Hrun. discriminate.
Defined.

(** X15. A timer registered with [runAt] between two polls, and the run
    of the expiry handler that comes next, nothing else being done to the
    queue in between. When the time of the timer has come by then
    ([time <= now]), that run invokes its callback, once, and destroys the
    timer, which the map then holds no more. When it has not come
    ([now < time]), that run does not invoke it. *)
Theorem X15_runAt_timer_fires_once_and_is_destroyed (timer : Z)
    (callback : list Action) (time now : Timestamp) q q1 q2 :
  well_formed q = true ->
  runAt timer callback time q = Some q1 ->
  HandleTimerfd now q1 = Some q2 ->
  ∃ batch,
    invoked q2 = invoked q ++ batch
    ∧ NoDup batch
    ∧ (time <= now ->
       timer ∈ batch ∧ objects q2 !! timer = None
       ∧ timer ∉ key_ptrs (m_timers q2))
    ∧ (now < time -> timer ∉ batch).
Proof.
  intros Hwf Hadd Hrun. unfold runAt in Hadd.
  destruct (add_inv _ _ _ _ _ _ Hadd) as [Hvalid Hfree].
  destruct (add_at_rest timer callback time 0 q Hwf Hvalid Hfree)
    as (q1' & Hadd' & _ & Hin & Hobjs & Hwf1 & _ & _ & _ & Hinv1 & _).
  rewrite Hadd in Hadd'. injection Hadd' as <-.
  set (tm := mkTimer callback time 0) in *.
  assert (Hheld : ((m_runtime tm, timer), timer) ∈ m_timers q1)
    by (apply Hin; auto).
  assert (Htm : objects q1 !! timer = Some tm)
    by (rewrite Hobjs; apply lookup_insert_eq).
  destruct (due_in_batch now q1 timer tm Hwf1 Hheld) as [Hdue Hlater].
  destruct (GetTimeout_running now q1 Hwf1) as [_ Hnd].
  destruct (HandleTimerfd_rest now q1 q2 Hwf1 Hrun)
    as (_ & _ & _ & _ & Hinv & Hone & _).
  exists (GetTimeout now q1).1. rewrite <- Hinv1.
  split; [exact Hinv|]. split; [exact Hnd|]. split.
  - intros Hle. split; [exact (Hdue Hle)|].
    exact (Hone timer tm (Hdue Hle) Htm eq_refl).
  - intros Hlt. exact (proj1 (Hlater Hlt)).
Qed.

Lemma X15_runAt_witness :
  let q := mk false [] [] [((10, 100), 100)] (<[100 := mkTimer [] 10 7]> ∅)
              [] [] in
  well_formed q = true
  ∧ match runAt 200 [] 5 q ≫= HandleTimerfd 10 with
    | Some q2 =>
        m_timers q2 = [((17, 100), 100)]
        ∧ ∃ batch,
            invoked q2 = invoked q ++ batch
            ∧ NoDup batch
            ∧ (5 <= 10 ->
               200 ∈ batch ∧ objects q2 !! 200 = None
               ∧ 200 ∉ key_ptrs (m_timers q2))
            ∧ (10 < 5 -> 200 ∉ batch)
    | None => False
    end.
Proof.
  intros q.
  assert (Hwf : well_formed q = true) by reflexivity.
  split; [exact Hwf|].
  destruct (runAt 200 [] 5 q) as [q1|] eqn:Hadd; [|vm_compute in Hadd; discriminate].
  cbn [mbind option_bind].
  destruct (HandleTimerfd 10 q1) as [q2|] eqn:Hrun.
  - split.
    + vm_compute in Hadd. injection Hadd as <-.
      vm_compute in Hrun. injection Hrun as <-. reflexivity.
    + exact (X15_runAt_timer_fires_once_and_is_destroyed 200 [] 5 10 q q1 q2
               Hwf Hadd Hrun).
  - vm_compute in Hadd. injection Hadd as <-. vm_compute in Hrun. discriminate.
Defined.

(** X16. A cancel issued from a timer callback for a timer that is not in
    the batch being run (the map holds it with an expiry after [now]) takes
    effect by the end of the handler: the timer is then out of the map and
    destroyed. *)
Theorem X16_cancel_in_callback_of_held_timer_takes_effect (now : Timestamp)
    q q' (a b : Z) (tma tmb : Timer) :
  well_formed q = true ->
  HandleTimerfd now q = Some q' ->
  objects q !! a = Some tma ->
  ((m_runtime tma, a), a) ∈ m_timers q ->
  m_runtime tma <= now ->
  DoCancel b ∈ m_callback tma ->
  objects q !! b = Some tmb ->
  ((m_runtime tmb, b), b) ∈ m_timers q ->
  now < m_runtime tmb ->
  objects q' !! b = None ∧ b ∉ key_ptrs (m_timers q').
Proof.
  intros Hwf Hrun Hta Hha Hdue Hcancel Htb Hhb Hlater.
  destruct (due_in_batch now q a tma Hwf Hha) as [Hin _].
  destruct (due_in_batch now q b tmb Hwf Hhb) as [_ Hrest].
  destruct (HandleTimerfd_rest now q q' Hwf Hrun)
    as (_ & _ & _ & _ & _ & _ & Hasked).
  apply (Hasked a tma b (Hin Hdue) Hta Hcancel).
  apply key_ptrs_elem. exists ((m_runtime tmb, b), b).
  split; [exact (proj2 (Hrest Hlater)) | reflexivity].
Qed.

Lemma X16_cancel_in_callback_witness :
  let q := mk false [] [] [((10, 100), 100); ((20, 200), 200)]
              (<[200 := mkTimer [] 20 5]>
                 (<[100 := mkTimer [DoCancel 200] 10 0]> ∅)) [] [] in
  match HandleTimerfd 10 q with
  | Some q' =>
      m_timers q' = []
      ∧ objects q' !! 200 = None ∧ 200 ∉ key_ptrs (m_timers q')
  | None => False
  end.
Proof.
  intros q.
  assert (Hwf : well_formed q = true) by reflexivity.
  destruct (HandleTimerfd 10 q) as [q'|] eqn:Hrun.
  - split.
    + vm_compute in Hrun. injection Hrun as <-. reflexivity.
    + apply (X16_cancel_in_callback_of_held_timer_takes_effect 10 q q' 100 200
               (mkTimer [DoCancel 200] 10 0) (mkTimer [] 20 5) Hwf Hrun).
      * reflexivity.
      * apply list_elem_of_here.
      * cbn. lia.
      * apply list_elem_of_here.
      * reflexivity.
      * apply list_elem_of_further, list_elem_of_here.
      * cbn. lia.
  - vm_compute in Hrun. discriminate.
Defined.

(** X17. The expiry handler leaves a well-formed queue well formed, with no
    callback running and no cancel pending; and when timers are left, the
    last call of [ResetTimerfd] was made for the earliest expiry left, and
    returned 0. *)
Theorem X17_handler_leaves_queue_at_rest (now : Timestamp) q q' :
  well_formed q = true ->
  HandleTimerfd now q = Some q' ->
  well_formed q' = true
  ∧ runningCallback q' = false
  ∧ m_cancelledSoon q' = []
  ∧ match m_timers q' with
    | [] => True
    | first :: _ =>
        last (m_timerfd q') = Some (first.1.1, 0)
        ∧ ∀ entry, entry ∈ m_timers q' -> first.1.1 <= entry.1.1
    end.
Proof.
  intros Hwf Hrun.
  destruct (HandleTimerfd_rest now q q' Hwf Hrun)
    as (Hwf' & Hidle & Hsoon & Hlast & _).
  split; [exact Hwf'|]. split; [exact Hidle|]. split; [exact Hsoon|].
  pose proof (well_formed_sorted _ Hwf') as Hs.
  destruct (m_timers q') as [|first rest]; [exact I|].
  split; [exact Hlast|]. intros entry Hin. exact (head_least _ _ _ Hs Hin).
Qed.

Lemma X17_handler_witness :
  let q := mk false [] [] [((10, 100), 100); ((12, 200), 200)]
              (<[200 := mkTimer [] 12 0]> (<[100 := mkTimer [] 10 1]> ∅))
              [-1] [] in
  match HandleTimerfd 10 q with
  | Some q' =>
      m_timers q' = [((12, 100), 100); ((12, 200), 200)]
      ∧ m_timerfd q' = [(11, -1); (12, 0)]
      ∧ well_formed q' = true
  | None => False
  end.
Proof.
  intros q.
  assert (Hwf : well_formed q = true) by reflexivity.
  destruct (HandleTimerfd 10 q) as [q'|] eqn:Hrun.
  - split; [|split].
    + vm_compute in Hrun. injection Hrun as <-. reflexivity.
    + vm_compute in Hrun. injection Hrun as <-. reflexivity.
    + exact (proj1 (X17_handler_leaves_queue_at_rest 10 q q' Hwf Hrun)).
  - vm_compute in Hrun. discriminate.
Defined.

(** *** Every state the loop thread leaves the queue in *)

Lemma at_rest_new (results : list Z) : at_rest (new results).
Proof. repeat split. Qed.

Lemma serve_at_rest (c : Call) q q' :
  at_rest q -> serve c q = Some q' -> at_rest q'.
Proof.
  intros (Hidle & Hsoon & Hwf & Hasked) Hserve.
  destruct c as [timer callback when interval|id|now]; cbn [serve] in Hserve.
  - destruct (add_inv _ _ _ _ _ _ Hserve) as [Hvalid Hfree].
    destruct (add_at_rest timer callback when interval q Hwf Hvalid Hfree)
      as (q1 & Hadd & _ & _ & _ & Hwf' & _ & Hidle' & Hsoon' & _ & Hasked').
    rewrite Hserve in Hadd. injection Hadd as <-.
    split; [congruence|]. split; [congruence|]. split; [exact Hwf'|auto].
  - assert (Halive : ∃ tm, objects q !! id = Some tm).
    { unfold cancel, CancelInLoop, TimerID_Key in Hserve.
      destruct (objects q !! id) as [tm|]; [eauto|discriminate]. }
    destruct Halive as [tm Htm].
    destruct (cancel_at_rest id tm q Hwf Hidle Htm)
      as (q1 & Hcancel & _ & _ & Hwf' & _ & Hidle' & Hsoon' & _ & Hasked').
    rewrite Hserve in Hcancel. injection Hcancel as <-.
    split; [exact Hidle'|]. split; [congruence|]. split; [exact Hwf'|auto].
  - destruct (HandleTimerfd_rest now q q' Hwf Hserve)
      as (Hwf' & Hidle' & Hsoon' & Hlast & _).
    split; [exact Hidle'|]. split; [exact Hsoon'|]. split; [exact Hwf'|].
    unfold asked_in_time. destruct (m_timers q') as [|[k owned] rest]; [exact I|].
    eexists _, _. split; [exact Hlast|]. cbn [fst]. lia.
Qed.

(** X18. From its construction on, whatever calls of [add] and [cancel]
    are made between the polls and whenever the expiry handler runs, the
    queue is at rest after each of them: no callback running, no cancel
    pending, the map in strict key order with every entry owning the live
    timer it is keyed by, and the timer-fd last asked for an expiry that is
    not after the earliest expiry held. *)
Theorem X18_queue_is_at_rest_between_polls (results : list Z)
    (calls : list Call) q :
  serve_all calls (new results) = Some q ->
  at_rest q.
Proof.
  generalize (at_rest_new results). generalize (new results).
  induction calls as [|c calls IH]; intros q0 Hrest.
  - intros [= <-]. exact Hrest.
  - cbn [serve_all]. destruct (serve c q0) as [q1|] eqn:Hserve; [|discriminate].
    cbn [mbind option_bind]. apply IH.
    exact (serve_at_rest c q0 q1 Hrest Hserve).
Qed.

Lemma X18_queue_at_rest_witness :
  let calls :=
    [CallAdd 100 [DoAdd 300 [] 30 0] 10 4; CallAdd 200 [] 5 0;
     CallHandleTimerfd 10; CallCancel 100] in
  match serve_all calls (new [0; 0; -1]) with
  | Some q =>
      m_timers q = [((30, 300), 300)]
      ∧ m_timerfd q = [(10, 0); (5, 0); (30, -1); (14, 0)]
      ∧ at_rest q
  | None => False
  end.
Proof.
  intros calls.
  destruct (serve_all calls (new [0; 0; -1])) as [q|] eqn:Hrun.
  - split; [|split].
    + vm_compute in Hrun. injection Hrun as <-. reflexivity.
    + vm_compute in Hrun. injection Hrun as <-. reflexivity.
    + exact (X18_queue_is_at_rest_between_polls [0; 0; -1] calls q Hrun).
  - vm_compute in Hrun. discriminate.
Defined.

Lemma GetTimeout_nothing_due (now : Timestamp) q :
  well_formed q = true ->
  Forall (fun entry : Z * Z * Z => now < entry.1.1) (m_timers q) ->
  GetTimeout now q = ([], set_timers (m_timers q) (objects q) q).
Proof.
  intros Hwf Hlater. unfold GetTimeout.
  destruct (m_timers q) as [|[k owned] m] eqn:Hm; [reflexivity|].
  cbn [lower_bound].
  apply Forall_cons in Hlater as [Hk _]. cbn [fst] in Hk.
  assert (Hlt : key_ltb k (now, UINTPTR_MAX) = false).
  { destruct (key_ltb k (now, UINTPTR_MAX)) eqn:Hlt; [|reflexivity].
    apply key_ltb_lt in Hlt. cbn [fst snd] in Hlt. lia. }
  rewrite Hlt. reflexivity.
Qed.

(** X19. When the handler runs with no timer due, and the call of
    [ResetTimerfd] for the first timer of the map returns a value other
    than 0, a one-shot timer in that place is erased from the map and
    destroyed without its callback having been invoked, although it has not
    expired. *)
Theorem X19_refused_one_shot_timer_is_dropped_uninvoked (now : Timestamp)
    q q' (e p r : Z) (m : TimerMap) (results : list Z) (tm : Timer) :
  well_formed q = true ->
  m_cancelledSoon q = [] ->
  m_timers q = ((e, p), p) :: m ->
  now < e ->
  objects q !! p = Some tm ->
  IsRepeat tm = false ->
  settime q = r :: results ->
  r <> 0 ->
  HandleTimerfd now q = Some q' ->
  invoked q' = invoked q
  ∧ objects q' !! p = None
  ∧ p ∉ key_ptrs (m_timers q').
Proof.
  intros Hwf Hsoon Hm Hlater Htm Hone Hset Hr Hrun.
  pose proof (proj1 (well_formed_ok now 0 q) Hwf) as [Hs Hok].
  assert (Hall : Forall (fun entry : Z * Z * Z => now < entry.1.1) (m_timers q)).
  { rewrite Forall_forall. intros entry Hin.
    assert (Hfirst : ((e, p), p) ∈ m_timers q)
      by (rewrite Hm; apply list_elem_of_here).
    rewrite Hm in Hs, Hin. pose proof (head_least _ _ _ Hs Hin) as Hle.
    cbn [fst] in Hle. lia. }
  unfold HandleTimerfd in Hrun.
  rewrite (GetTimeout_nothing_due now q Hwf Hall) in Hrun.
  cbn [run_each mbind option_bind] in Hrun. unfold reset in Hrun.
  cbn [reset_repeating mbind option_bind m_cancelledSoon set_runningCallback
       set_timers] in Hrun.
  rewrite Hsoon in Hrun.
  cbn [reset_cancelled mbind option_bind settime set_cancelledSoon
       set_runningCallback set_timers] in Hrun.
  rewrite Hset in Hrun. cbn [reset_timerfd] in Hrun.
  cbn [m_timers objects set_cancelledSoon set_runningCallback set_timers
       set_timerfd] in Hrun.
  rewrite Hm, Htm in Hrun. cbn [mbind option_bind] in Hrun.
  destruct (Z.eqb_spec r 0) as [|_]; [contradiction|].
  rewrite Hone in Hrun.
  cbn [m_timers objects set_cancelledSoon set_runningCallback set_timers
       set_timerfd] in Hrun.
  match type of Hrun with
  | context [reset_timerfd results ?q1] =>
      destruct (reset_timerfd results q1) as [qc|] eqn:Hc; [|discriminate];
      assert (Hok1 : map_ok nothing now 0 q1);
      [|assert (Hs1 : sorted (m_timers q1) = true);
        [|destruct (reset_timerfd_rest nothing now results 0 q1 qc Hok1 Hs1 Hc)
            as (C1 & C2 & _ & _ & C5 & _)]]
  end.
  - unfold map_ok in Hok |- *. rewrite Hm in Hok.
    cbn [m_timers objects set_timers].
    exact (proj1 (ok_remove nothing now 0 [] m (objects q) ((e, p), p) Hok)).
  - cbn [m_timers set_timers]. rewrite Hm in Hs. exact (sorted_tail _ _ Hs).
  - cbn [mbind option_bind foldr] in Hrun. injection Hrun as <-.
    cbn [m_timers objects invoked set_timers set_timerfd set_cancelledSoon
         set_runningCallback] in *.
    assert (Hnot : p ∉ key_ptrs m).
    { destruct Hok as [Hnd _]. rewrite Hm in Hnd. unfold key_ptrs in Hnd.
      rewrite fmap_cons in Hnd. apply NoDup_cons in Hnd. tauto. }
    split; [exact C5|]. split.
    + rewrite C2 by exact Hnot. unfold destroy.
      destruct (Z.eqb_spec p 0) as [Hz|_]; [|apply lookup_delete_eq].
      exfalso. destruct Hok as [_ Hentries]. rewrite Hm in Hentries.
      apply Forall_cons in Hentries as [(_ & Hvalid & _) _].
      cbn [snd] in Hvalid. apply valid_address_nonzero in Hvalid. contradiction.
    + intros Hin. apply Hnot, C1, Hin.
Qed.

Lemma X19_refused_one_shot_witness :
  let q := mk false [(20, 0)] [] [((20, 100), 100); ((30, 200), 200)]
              (<[200 := mkTimer [] 30 0]> (<[100 := mkTimer [] 20 0]> ∅))
              [-1] [] in
  match HandleTimerfd 10 q with
  | Some q' =>
      m_timers q' = [((30, 200), 200)]
      ∧ m_timerfd q' = [(20, 0); (20, -1); (30, 0)]
      ∧ invoked q' = []
      ∧ objects q' !! 100 = None
  | None => False
  end.
Proof.
  intros q.
  assert (Hwf : well_formed q = true) by reflexivity.
  destruct (HandleTimerfd 10 q) as [q'|] eqn:Hrun.
  - destruct (X19_refused_one_shot_timer_is_dropped_uninvoked 10 q q' 20 100
                (-1) [((30, 200), 200)] [] (mkTimer [] 20 0) Hwf eq_refl eq_refl
                ltac:(lia) eq_refl eq_refl eq_refl ltac:(lia) Hrun)
      as (Hinv & Hdead & _).
    split; [|split; [|split; [exact Hinv | exact Hdead]]].
    + vm_compute in Hrun. injection Hrun as <-. reflexivity.
    + vm_compute in Hrun. injection Hrun as <-. reflexivity.
  - vm_compute in Hrun. discriminate.
Defined.

End TimerQueueLife.
